(** * Benchmark harness of local-blockchain-setup: scheduler, retry engine,
      aggregation and verification

    Shallow embedding of
    - [runTasksWithConcurrency] and the verification block of [main] in
      the single-process concurrency benchmark,
    - the Piscina worker functions of workerBenchmark.js and
      workerAccountBalance.js (the retry engine), with the timer of Node
      and the [BigInt] constructor as far as the workers and their
      callers use them,
    - the task preparation, the result processing and the verification
      blocks of the [main] functions of runWorkerBenchmark.js and
      runAccountBalanceBenchmark.js,
    - the contracts Counter and AccountBalance and the two demonstration
      scripts. *)

From Stdlib Require Import ZArith NArith List Bool Arith Lia String Ascii.
From Stdlib Require Import Permutation DecimalString DecimalZ DecimalPos.
Import ListNotations.

(* ===================================================================== *)
(** * 1. The concurrency-limited scheduler                                *)
(* ===================================================================== *)

Module Scheduler.

(** The variables captured by the closure [runNext] of
    [runTasksWithConcurrency].  [results] is the JS array (only [true] is
    ever pushed), [errors], [activeCount] and [taskIndex] are the counters,
    [resolved] records that [resolve(results)] has been called: the caller
    receives the array by reference, so what it reads is the [results] field
    of the state in which it resumes.

    The last four fields are the promise jobs of the JS runtime that the
    closure does not see: [pending] are the started tasks whose promise
    has not settled, [finalizing] those whose [then]/[catch] handler has
    run and whose [finally] handler has not, [settledLog] the order in
    which handlers ran, with [true] for [then] and [false] for [catch],
    and [startedLog] the indices of the tasks in the order in which
    [task()] was called. *)
Record state : Type := mkState {
  results     : list bool;
  errors      : nat;
  activeCount : Z;
  taskIndex   : nat;
  resolved    : bool;
  pending     : list nat;
  finalizing  : list nat;
  settledLog  : list (nat * bool);
  startedLog  : list nat
}.

Section Run.

(** [tasks.length] and the [limit] argument (a JS number, possibly zero or
    negative). *)
Variable totalTasks : nat.
Variable limit : Z.

Definition init : state :=
  mkState [] 0 0%Z 0 false [] [] [] [].

(** One iteration of the body of the [while] loop: capture the index, bump
    [taskIndex] and [activeCount], call the task (its promise is now
    pending). *)
Definition launchTask (s : state) : state :=
  mkState (results s) (errors s) (activeCount s + 1)%Z (S (taskIndex s))
          (resolved s) (pending s ++ [taskIndex s]) (finalizing s)
          (settledLog s) (startedLog s ++ [taskIndex s]).

Definition loopCond (s : state) : bool :=
  (activeCount s <? limit)%Z && (taskIndex s <? totalTasks).

(** [while (activeCount < limit && taskIndex < totalTasks) { ... }] *)
Fixpoint launch (fuel : nat) (s : state) : state :=
  match fuel with
  | O => s
  | S fuel' => if loopCond s then launch fuel' (launchTask s) else s
  end.

Definition resolve (s : state) : state :=
  mkState (results s) (errors s) (activeCount s) (taskIndex s) true
          (pending s) (finalizing s) (settledLog s) (startedLog s).

(** [runNext]: the base case resolves the promise and returns, otherwise
    the launch loop runs.  The loop starts one task per iteration, so
    [totalTasks - taskIndex] iterations exhaust it ([launch_exits]). *)
Definition runNext (s : state) : state :=
  if List.length (results s) + errors s =? totalTasks then resolve s
  else launch (totalTasks - taskIndex s) s.

(** The synchronous part of [runTasksWithConcurrency]: the executor of the
    returned promise calls [runNext] once. *)
Definition start : state := runNext init.

(** What happens next is decided by the runtime: the promise of a pending
    task fulfils or rejects and its [then] or [catch] handler runs, or the
    [finally] handler of a task whose handler has run is executed.
    Handlers of different tasks interleave freely. *)
Inductive event : Type :=
| Settle (i : nat) (ok : bool)
| Finally (i : nat).

Definition mem (i : nat) (l : list nat) : bool := existsb (Nat.eqb i) l.

Definition drop (i : nat) (l : list nat) : list nat :=
  filter (fun j => negb (Nat.eqb i j)) l.

(** [.then(result => results.push(true))] and [.catch(error => errors++)].
    The [catch] handler increments [errors] before it logs the first line
    of the message of the rejection reason.  The closure variables do not
    depend on whether that log line throws; the module [Reasons] below
    adds the reasons and what a throwing handler leaves behind. *)
Definition onSettle (i : nat) (ok : bool) (s : state) : state :=
  mkState (if ok then results s ++ [true] else results s)
          (if ok then errors s else S (errors s))
          (activeCount s) (taskIndex s) (resolved s)
          (drop i (pending s)) (finalizing s ++ [i])
          (settledLog s ++ [(i, ok)]) (startedLog s).

(** [.finally(() => { activeCount--; ...; runNext(); })]: the handler
    first gives its slot back, then calls [runNext]. *)
Definition release (i : nat) (s : state) : state :=
  mkState (results s) (errors s) (activeCount s - 1)%Z (taskIndex s)
          (resolved s) (pending s) (drop i (finalizing s)) (settledLog s)
          (startedLog s).

Definition onFinally (i : nat) (s : state) : state :=
  runNext (release i s).

Definition step (s : state) (e : event) : option state :=
  match e with
  | Settle i ok => if mem i (pending s) then Some (onSettle i ok s) else None
  | Finally i => if mem i (finalizing s) then Some (onFinally i s) else None
  end.

Fixpoint exec (s : state) (es : list event) : option state :=
  match es with
  | [] => Some s
  | e :: es' => match step s e with
                | Some s' => exec s' es'
                | None => None
                end
  end.

(** The states a run can be in. *)
Definition reachable (s : state) : Prop :=
  exists es, exec start es = Some s.

(** Nothing is left for the runtime to do. *)
Definition quiescent (s : state) : Prop :=
  pending s = [] /\ finalizing s = [].

(** The three states of a JS promise.  The executor of the promise that
    [runTasksWithConcurrency] returns takes [resolve] only, so [returned]
    never yields [Rejected]. *)
Inductive promise : Type :=
| StillPending
| Fulfilled (value : list bool)
| Rejected (reason : string).

Definition returned (s : state) : promise :=
  if resolved s then Fulfilled (results s) else StillPending.

(** ** Invariants of a run *)

Set Implicit Arguments.

(** What the closure variables and the runtime's job queues have in
    common in every state of a run. *)
Record Inv (s : state) : Prop := mkInv {
  inv_active :
    activeCount s
    = Z.of_nat (List.length (pending s) + List.length (finalizing s));
  inv_perm :
    Permutation (pending s ++ map fst (settledLog s)) (seq 0 (taskIndex s));
  inv_results :
    List.length (results s) = List.length (filter snd (settledLog s));
  inv_errors :
    errors s
    = List.length (filter (fun p => negb (snd p)) (settledLog s));
  inv_index : taskIndex s <= totalTasks;
  inv_fin_nodup : NoDup (finalizing s);
  inv_fin_incl : incl (finalizing s) (map fst (settledLog s));
  inv_resolved :
    resolved s = true -> List.length (settledLog s) = totalTasks;
  inv_bound : (activeCount s <= Z.max 0 limit)%Z;
  inv_started : startedLog s = seq 0 (taskIndex s)
}.

Unset Implicit Arguments.

(** The launch loop has stopped: while tasks remain, every slot is
    taken. *)
Definition Saturated (s : state) : Prop :=
  resolved s = false -> taskIndex s < totalTasks ->
  (limit <= activeCount s)%Z.

(** The run is over or the runtime still has a handler to run. *)
Definition Live (s : state) : Prop :=
  resolved s = true \/ pending s <> [] \/ finalizing s <> [].

End Run.

End Scheduler.

(* ===================================================================== *)
(** * 2. The retry engine of the Piscina workers                          *)
(* ===================================================================== *)

Module Worker.

Local Open Scope string_scope.

(** ** JS strings: [toLowerCase] and [includes]

    Messages are byte strings (UTF-8).  [toLowerCase] maps the letters A
    to Z and leaves every other byte alone: on a message of ASCII
    characters ([isAscii]) it is the method of JS, which also maps
    letters outside ASCII (the Kelvin sign U+212A becomes "k").  The
    statements that depend on the outcome of the phrase tests are made
    for ASCII messages. *)
Definition lowerAscii (c : ascii) : ascii :=
  let n := nat_of_ascii c in
  if ((65 <=? n) && (n <=? 90))%nat then ascii_of_nat (n + 32) else c.

Fixpoint toLowerCase (s : string) : string :=
  match s with
  | EmptyString => EmptyString
  | String c s' => String (lowerAscii c) (toLowerCase s')
  end.

Fixpoint includes (s needle : string) : bool :=
  String.prefix needle s ||
  match s with
  | EmptyString => false
  | String _ s' => includes s' needle
  end.

Fixpoint isAscii (s : string) : bool :=
  match s with
  | EmptyString => true
  | String c s' => (nat_of_ascii c <? 128)%nat && isAscii s'
  end.

(** ** Values exchanged with the ledger client *)

(** What a [catch] clause receives from ethers: [code] and [message] may
    be missing ([error.message ? ... : ''] in the source guards for it). *)
Record JsError : Type := mkError {
  code    : option string;
  message : option string
}.

Record Receipt : Type := mkReceipt {
  status : Z;
  rhash  : string
}.

(** One submission cycle, [await contract.method(...)] followed by
    [await tx.wait()]: a receipt, or an error raised by either call. *)
Inductive Attempt : Type :=
| Confirms (r : Receipt)
| Raises (e : JsError).

(** The object a worker returns; [amountDeposited] exists in the deposit
    worker only. *)
Record WorkerResult : Type := mkResult {
  success         : bool;
  error           : option string;
  hash            : option string;
  workerId        : Z;
  txIndex         : Z;
  amountDeposited : option string
}.

Inductive Completion (A : Type) : Type :=
| Returned (a : A)
| Thrown (e : JsError).
Arguments Returned {A} a.
Arguments Thrown {A} e.

(** ** BigInt and decimal strings *)

(** [x.toString()] for a BigInt [x]. *)
Definition bigIntToString (z : Z) : string :=
  NilZero.string_of_int (Z.to_int z).

(** The white space and the line terminators of ECMA-262 in UTF-8: TAB,
    LF, VT, FF, CR and SP; U+00A0; U+1680, U+2000 to U+200A, U+2028,
    U+2029, U+202F, U+205F, U+3000 and U+FEFF. *)
Definition ws1 (a : nat) : bool :=
  ((9 <=? a) && (a <=? 13) || (a =? 32))%nat.

Definition ws2 (a b : nat) : bool :=
  ((a =? 194) && (b =? 160))%nat.

Definition ws3 (a b c : nat) : bool :=
  ((a =? 225) && (b =? 154) && (c =? 128) ||
   (a =? 226) && (b =? 128) &&
     ((128 <=? c) && (c <=? 138) || (c =? 168) || (c =? 169) || (c =? 175)) ||
   (a =? 226) && (b =? 129) && (c =? 159) ||
   (a =? 227) && (b =? 128) && (c =? 128) ||
   (a =? 239) && (b =? 187) && (c =? 191))%nat.

Fixpoint trimStart (s : string) : string :=
  match s with
  | EmptyString => s
  | String a s1 =>
      if ws1 (nat_of_ascii a) then trimStart s1
      else match s1 with
           | EmptyString => s
           | String b s2 =>
               if ws2 (nat_of_ascii a) (nat_of_ascii b) then trimStart s2
               else match s2 with
                    | EmptyString => s
                    | String c s3 =>
                        if ws3 (nat_of_ascii a) (nat_of_ascii b)
                               (nat_of_ascii c)
                        then trimStart s3
                        else s
                    end
           end
  end.

(** A string is dropped from the end when it is white space only. *)
Fixpoint trimEnd (s : string) : string :=
  match s with
  | EmptyString => s
  | String a s' =>
      match trimStart s with
      | EmptyString => EmptyString
      | _ => String a (trimEnd s')
      end
  end.

Definition trim (s : string) : string := trimEnd (trimStart s).

Definition digitValue (c : ascii) : option Z :=
  let n := nat_of_ascii c in
  if ((48 <=? n) && (n <=? 57))%nat then Some (Z.of_nat (n - 48))
  else if ((97 <=? n) && (n <=? 102))%nat then Some (Z.of_nat (n - 87))
  else if ((65 <=? n) && (n <=? 70))%nat then Some (Z.of_nat (n - 55))
  else None.

Fixpoint digits (radix : Z) (s : string) (acc : Z) : option Z :=
  match s with
  | EmptyString => Some acc
  | String c s' =>
      match digitValue c with
      | Some d => if (d <? radix)%Z then digits radix s' (radix * acc + d)%Z
                  else None
      | None => None
      end
  end.

(** The digits of a literal with a prefix: at least one. *)
Definition literal (radix : Z) (s : string) : option Z :=
  match s with
  | EmptyString => None
  | _ => digits radix s 0%Z
  end.

(** [0x], [0o] and [0b], in either case, and what follows the prefix. *)
Definition radixPrefix (s : string) : option (Z * string) :=
  match s with
  | String z (String p t) =>
      if negb (Ascii.eqb z "0") then None
      else if (Ascii.eqb p "x" || Ascii.eqb p "X")%char then Some (16%Z, t)
      else if (Ascii.eqb p "o" || Ascii.eqb p "O")%char then Some (8%Z, t)
      else if (Ascii.eqb p "b" || Ascii.eqb p "B")%char then Some (2%Z, t)
      else None
  | _ => None
  end.

(** Decimal digits with an optional sign. *)
Definition signedInteger (s : string) : option Z :=
  match s with
  | EmptyString => None
  | String a t =>
      if Ascii.eqb a "+"
      then option_map Z.of_uint (NilZero.uint_of_string t)
      else option_map Z.of_int (NilZero.int_of_string s)
  end.

(** [BigInt(s)] for a string [s] (StringToBigInt of ECMA-262): the white
    space around the literal is dropped; what is left is empty ([0n]), a
    literal with a radix prefix and no sign, or decimal digits with an
    optional sign; on anything else the constructor throws a SyntaxError
    ([None]). *)
Definition bigIntOfString (s : string) : option Z :=
  match trim s with
  | EmptyString => Some 0%Z
  | t => match radixPrefix t with
         | Some (radix, ds) => literal radix ds
         | None => signedInteger t
         end
  end.

(** ** Classification of a caught error *)

Definition codeIs (e : JsError) (c : string) : bool :=
  match code e with
  | Some c' => String.eqb c' c
  | None => false
  end.

(** [const errorMessage = error.message ? error.message.toLowerCase() : ''] *)
Definition errorMessage (e : JsError) : string :=
  match message e with
  | Some m => toLowerCase m
  | None => ""
  end.

Definition isNonceError (e : JsError) : bool :=
  codeIs e "NONCE_EXPIRED" ||
  includes (errorMessage e) "nonce too low" ||
  includes (errorMessage e) "nonce has already been used" ||
  includes (errorMessage e) "replacement transaction underpriced".

Definition isNetworkError (e : JsError) : bool :=
  includes (errorMessage e) "failed to detect network" ||
  includes (errorMessage e) "could not detect network" ||
  includes (errorMessage e) "timeout" ||
  includes (errorMessage e) "network error".

(** The disjunction tested by the [if] of the [catch] clause. *)
Definition retryable (e : JsError) : bool :=
  isNonceError e || isNetworkError e.

(** The errors of the ledger client are Error objects: they carry a
    message. *)
Definition carriesMessage (ledger : nat -> Attempt) : Prop :=
  forall n e, ledger n = Raises e -> message e <> None.

(** The messages of the errors are ASCII text. *)
Definition asciiMessages (ledger : nat -> Attempt) : Prop :=
  forall n e m, ledger n = Raises e -> message e = Some m -> isAscii m = true.

(** [error.message.split] on an error without a message. *)
Definition typeError : JsError :=
  mkError None (Some "Cannot read properties of undefined (reading 'split')").

(** ** The retry loop *)

Section Engine.

(** The two workers differ in their constants and in the [amountDeposited]
    field of the results they build. *)
Variable MAX_ATTEMPTS : nat.
Variable RETRY_DELAY_MS : Z.
Variable amountOnSuccess : option string.
Variable amountOnFailure : option string.

Variable wid : Z.
Variable tix : Z.

(** The behaviour of the ledger client at each attempt (numbered from 1). *)
Variable ledger : nat -> Attempt.

(** [let result = { success: false, error: 'Max attempts reached', ... }] *)
Definition defaultResult : WorkerResult :=
  mkResult false (Some "Max attempts reached") None wid tix amountOnFailure.

Definition failure (msg : option string) (h : option string) : WorkerResult :=
  mkResult false msg h wid tix amountOnFailure.

(** How one pass through the body of the [while] loop ends. *)
Inductive Control : Type :=
| Break (r : WorkerResult)
| Continue (r : WorkerResult) (delay : Z)
| Throw (e : JsError).

(** [RETRY_DELAY_MS * Math.pow(2, attempt - 1)]; [attempt] is at least 1
    where the loop computes it, so the exponent is not negative. *)
Definition backoff (attempt : nat) : Z :=
  (RETRY_DELAY_MS * 2 ^ (Z.of_nat attempt - 1))%Z.

(** The body of the loop after [attempt++]: the [try] block and the
    [catch] clause.  In the [catch] clause both branches evaluate
    [error.message.split(...)] before they assign [result], which throws
    out of the worker when the error has no message. *)
Definition tryAttempt (attempt : nat) (a : Attempt) : Control :=
  match a with
  | Confirms r =>
      if (status r =? 1)%Z
      then Break (mkResult true None (Some (rhash r)) wid tix amountOnSuccess)
      else Break (failure (Some "Transaction reverted with status 0")
                          (Some (rhash r)))
  | Raises e =>
      if retryable e && (attempt <? MAX_ATTEMPTS)%nat
      then match message e with
           | Some m => Continue (failure (Some m) None) (backoff attempt)
           | None => Throw typeError
           end
      else match message e with
           | Some m => Break (failure (Some m) None)
           | None => Throw typeError
           end
  end.

(** The completion of the worker function that a pass which leaves the
    loop brings about. *)
Definition stopsWith (c : Control) (k : Completion WorkerResult) : Prop :=
  match c with
  | Break r => k = Returned r
  | Throw e => k = Thrown e
  | Continue _ _ => False
  end.

(** What a run of the loop leaves behind: how the worker function
    completes, the final value of [attempt], and the delays passed to
    [setTimeout], in order. *)
Record Run : Type := mkRun {
  completion   : Completion WorkerResult;
  attemptsUsed : nat;
  delays       : list Z
}.

(** [while (attempt < MAX_ATTEMPTS) { attempt++; ... }]; [None] is an
    exhausted fuel, which [retryLoop_total] excludes. *)
Fixpoint retryLoop (fuel attempt : nat) (result : WorkerResult)
         (ds : list Z) : option Run :=
  if (attempt <? MAX_ATTEMPTS)%nat then
    match fuel with
    | O => None
    | S fuel' =>
        match tryAttempt (S attempt) (ledger (S attempt)) with
        | Break r => Some (mkRun (Returned r) (S attempt) ds)
        | Continue r d => retryLoop fuel' (S attempt) r (ds ++ [d])
        | Throw e => Some (mkRun (Thrown e) (S attempt) ds)
        end
    end
  else Some (mkRun (Returned result) attempt ds).

(** [getContractAbi]: the artifact is read from disk; a missing or
    unreadable file is logged and rethrown. *)
Definition getContractAbi (artifacts : string -> option string)
           (name : string) : Completion string :=
  match artifacts name with
  | Some abi => Returned abi
  | None => Thrown (mkError None
                      (Some ("Could not load ABI for " ++ name ++ ".")))
  end.

(** The exported function once its ethers objects exist: the artifact is
    loaded, then the retry loop runs, then [return result]. *)
Definition runWorker (artifacts : string -> option string)
           (contractName : string) : option Run :=
  match getContractAbi artifacts contractName with
  | Thrown e => Some (mkRun (Thrown e) 0 [])
  | Returned _ => retryLoop MAX_ATTEMPTS 0 defaultResult []
  end.

(** The constructors that the exported function calls before its loop,
    outside any [try]: [new ethers.JsonRpcProvider(rpcUrl)] with
    [new ethers.Wallet(privateKey, provider)], and
    [new ethers.Contract(contractAddress, contractAbi, signer)].  Each
    returns or throws (a private key or an address that ethers does not
    accept). *)
Record SetUp : Type := mkSetUp {
  signerBuilt   : Completion unit;
  contractBuilt : Completion unit
}.

(** The exported function from its first line: provider and signer, the
    artifact, the contract object, then the loop. *)
Definition moduleExports (setUp : SetUp)
           (artifacts : string -> option string)
           (contractName : string) : option Run :=
  match signerBuilt setUp with
  | Thrown e => Some (mkRun (Thrown e) 0 [])
  | Returned _ =>
      match getContractAbi artifacts contractName with
      | Thrown e => Some (mkRun (Thrown e) 0 [])
      | Returned _ =>
          match contractBuilt setUp with
          | Thrown e => Some (mkRun (Thrown e) 0 [])
          | Returned _ => retryLoop MAX_ATTEMPTS 0 defaultResult []
          end
      end
  end.

End Engine.

(** ** The timer

    [setTimeout(resolve, delay)] of Node: a delay that is not between 1
    and [TIMEOUT_MAX] = 2^31 - 1 is replaced by 1 ms
    (lib/internal/timers.js). *)
Definition TIMEOUT_MAX : Z := (2 ^ 31 - 1)%Z.

Definition setTimeout (delay : Z) : Z :=
  if ((1 <=? delay) && (delay <=? TIMEOUT_MAX))%Z then delay else 1%Z.

(** The time, in ms, that a run sleeps after each attempt that is
    retried. *)
Definition waits (run : Run) : list Z := map setTimeout (delays run).

(** workerBenchmark.js *)
Definition workerBenchmark :=
  runWorker 100 1000 None None.

(** workerAccountBalance.js *)
Definition workerAccountBalance (depositAmountWei : Z) :=
  runWorker 1000 2000 (Some (bigIntToString depositAmountWei)) (Some "0").

End Worker.

(* ===================================================================== *)
(** * 2a. The scheduler with the reasons of the rejections                *)
(* ===================================================================== *)

Module Reasons.

Import Worker.

(** How the promise of a task settles. *)
Inductive settlement : Type :=
| Fulfils
| RejectsWith (reason : JsError).

Inductive event : Type :=
| Settle (i : nat) (how : settlement)
| Finally (i : nat).

(** A run as the runtime sees it: the closure variables and the job
    queues of [Scheduler.state], the tasks whose [catch] handler threw,
    and the rejections that no handler has taken, which end the process
    under Node's default for unhandled rejections. *)
Record state : Type := mkState {
  closure   : Scheduler.state;
  thrown    : list nat;
  unhandled : list JsError
}.

Definition fulfilled (how : settlement) : bool :=
  match how with
  | Fulfils => true
  | RejectsWith _ => false
  end.

(** The [catch] handler runs [errors++] and then logs
    [error.message.split('\n')[0]], which throws a TypeError when the
    reason has no message; [errors] has been incremented by then. *)
Definition catchThrows (how : settlement) : bool :=
  match how with
  | Fulfils => false
  | RejectsWith reason =>
      match message reason with
      | Some _ => false
      | None => true
      end
  end.

Definition plain (e : event) : Scheduler.event :=
  match e with
  | Settle i how => Scheduler.Settle i (fulfilled how)
  | Finally i => Scheduler.Finally i
  end.

Section Run.

Variable totalTasks : nat.
Variable limit : Z.

Definition start : state :=
  mkState (Scheduler.start totalTasks limit) [] [].

(** The closure variables change as in [Scheduler.step].  The promise
    that [.catch] returns is rejected when the handler throws; the
    [finally] handler still runs, and the promise that [.finally]
    returns is rejected with the same error, which nothing handles. *)
Definition step (s : state) (e : event) : option state :=
  match Scheduler.step totalTasks limit (closure s) (plain e) with
  | None => None
  | Some c =>
      Some match e with
           | Settle i how =>
               mkState c (if catchThrows how then thrown s ++ [i]
                          else thrown s)
                       (unhandled s)
           | Finally i =>
               mkState c (thrown s)
                       (if Scheduler.mem i (thrown s)
                        then unhandled s ++ [typeError]
                        else unhandled s)
           end
  end.

Fixpoint exec (s : state) (es : list event) : option state :=
  match es with
  | [] => Some s
  | e :: es' => match step s e with
                | Some s' => exec s' es'
                | None => None
                end
  end.

End Run.

(** The reasons of the rejections of a sequence of events all carry a
    message. *)
Definition reasonsCarryMessage (es : list event) : Prop :=
  forall i reason, In (Settle i (RejectsWith reason)) es ->
                   message reason <> None.

End Reasons.

(* ===================================================================== *)
(** * 3. Aggregation and verification in the [main] functions            *)
(* ===================================================================== *)

Module Harness.

Import Worker.
Local Open Scope Z_scope.

(** What [piscina.run] resolved to, as [main] sees it: the test
    [res && typeof res.success === 'boolean'] separates the objects a
    worker builds from anything else. *)
Inductive WorkerValue : Type :=
| Unexpected
| Result (r : WorkerResult).

(** [Promise.all]: the array of the values, in order, when every promise
    fulfils; a rejection otherwise.  The reason is the one of the promise
    that rejects first in time; here it is the one of the first rejected
    promise of the array, and no statement depends on which one it is. *)
Fixpoint promiseAll {A : Type} (ps : list (Completion A))
  : Completion (list A) :=
  match ps with
  | [] => Returned []
  | Returned a :: ps' =>
      match promiseAll ps' with
      | Returned l => Returned (a :: l)
      | Thrown e => Thrown e
      end
  | Thrown e :: _ => Thrown e
  end.

(** The counters of step 5 of [main]. *)
Record Tally : Type := mkTally {
  totalSuccessful : Z;
  totalFailed     : Z;
  totalAmountWei  : Z
}.

Definition emptyTally : Tally := mkTally 0 0 0.

(** runWorkerBenchmark.js, the callback of [results.forEach]. *)
Definition countIncrement (t : Tally) (res : WorkerValue) : Tally :=
  match res with
  | Result r =>
      if success r
      then mkTally (totalSuccessful t + 1) (totalFailed t) (totalAmountWei t)
      else mkTally (totalSuccessful t) (totalFailed t + 1) (totalAmountWei t)
  | Unexpected =>
      mkTally (totalSuccessful t) (totalFailed t + 1) (totalAmountWei t)
  end.

Definition processIncrements (results : list WorkerValue) : Tally :=
  fold_left countIncrement results emptyTally.

(** runAccountBalanceBenchmark.js, the callback of [results.forEach];
    [BigInt(res.amountDeposited)] throws on a missing field (a TypeError)
    and on a string that is no integer literal (a SyntaxError): [None]. *)
Definition countDeposit (t : option Tally) (res : WorkerValue)
  : option Tally :=
  match t with
  | None => None
  | Some t =>
      match res with
      | Result r =>
          if success r
          then match amountDeposited r with
               | Some a =>
                   match bigIntOfString a with
                   | Some v => Some (mkTally (totalSuccessful t + 1)
                                             (totalFailed t)
                                             (totalAmountWei t + v))
                   | None => None
                   end
               | None => None
               end
          else Some (mkTally (totalSuccessful t) (totalFailed t + 1)
                             (totalAmountWei t))
      | Unexpected =>
          Some (mkTally (totalSuccessful t) (totalFailed t + 1)
                        (totalAmountWei t))
      end
  end.

Definition processDeposits (results : list WorkerValue) : option Tally :=
  fold_left countDeposit results (Some emptyTally).

(** The part of the chain that the harness observes: the [count] of the
    Counter contract and the Ether balance of the AccountBalance
    contract. *)
Record Ledger : Type := mkLedger {
  counterCount    : Z;
  contractBalance : Z
}.

(** The two read-only calls, [counter.count()] and
    [provider.getBalance(contractAddress)], in state-passing style. *)
Definition queryCount (l : Ledger) : Z * Ledger := (counterCount l, l).
Definition getBalance (l : Ledger) : Z * Ledger := (contractBalance l, l).

(** What one iteration of the benchmark loop reports: the counts stored
    in [benchmarkResults], the expected and the final value, and which
    branch of the verification [if] was taken. *)
Record Report : Type := mkReport {
  reportedSuccess  : Z;
  reportedFailures : Z;
  totalDeposited   : Z;
  finalState       : Z;
  expectedState    : Z;
  verified         : bool
}.

(** runWorkerBenchmark.js, steps 5 and 6. *)
Definition verifyIncrements (initialCount : Z) (results : list WorkerValue)
           (l : Ledger) : Report * Ledger :=
  let t := processIncrements results in
  let (finalCount, l') := queryCount l in
  let expectedCount := initialCount + totalSuccessful t in
  (mkReport (totalSuccessful t) (totalFailed t) 0 finalCount expectedCount
            (finalCount =? expectedCount), l').

(** runAccountBalanceBenchmark.js, steps 5 and 6. *)
Definition verifyDeposits (initialContractEthBalance : Z)
           (results : list WorkerValue) (l : Ledger)
  : option (Report * Ledger) :=
  match processDeposits results with
  | None => None
  | Some t =>
      let (finalContractEthBalance, l') := getBalance l in
      let expectedContractEthBalance :=
        initialContractEthBalance + totalAmountWei t in
      Some (mkReport (totalSuccessful t) (totalFailed t) (totalAmountWei t)
                     finalContractEthBalance expectedContractEthBalance
                     (finalContractEthBalance =? expectedContractEthBalance),
            l')
  end.

(** The single-process benchmark, steps 4 and 5 of its [main]:
    [successfulTxCount = results.length] and
    [failedTx = TOTAL_TRANSACTIONS - successfulTxCount]. *)
Definition verifyConcurrent (TOTAL_TRANSACTIONS : nat) (initialCount : Z)
           (results : list bool) (l : Ledger) : Report * Ledger :=
  let (finalCount, l') := queryCount l in
  let successfulTxCount := Z.of_nat (List.length results) in
  let expectedCount := initialCount + successfulTxCount in
  (mkReport successfulTxCount
            (Z.of_nat TOTAL_TRANSACTIONS - successfulTxCount) 0
            finalCount expectedCount (finalCount =? expectedCount), l').

(** One iteration of the worker-pool benchmark from [Promise.all] on: a
    rejected task promise makes [await Promise.all] throw, which leaves
    [main] through its [catch] handler without a report.  The awaited
    [piscina.destroy()] and the read of the final state are taken to
    fulfil here; [mainPool] below has their failure paths. *)
Definition runPool (initialCount : Z)
           (tasks : list (Completion WorkerValue)) (l : Ledger)
  : Completion (Report * Ledger) :=
  match promiseAll tasks with
  | Returned results => Returned (verifyIncrements initialCount results l)
  | Thrown e => Thrown e
  end.

(** The error of the first [BigInt(res.amountDeposited)] that throws:
    "Cannot convert <value> to a BigInt". *)
Fixpoint conversionError (results : list WorkerValue) : JsError :=
  match results with
  | Result r :: rest =>
      let thrown v :=
        mkError None (Some ("Cannot convert " ++ v ++ " to a BigInt")%string) in
      if success r
      then match amountDeposited r with
           | Some a => match bigIntOfString a with
                       | Some _ => conversionError rest
                       | None => thrown a
                       end
           | None => thrown "undefined"%string
           end
      else conversionError rest
  | Unexpected :: rest => conversionError rest
  | [] => mkError None None
  end.

(** The same for the deposit benchmark; a [BigInt] that cannot be built
    leaves [main] as well. *)
Definition runDepositPool (initialContractEthBalance : Z)
           (tasks : list (Completion WorkerValue)) (l : Ledger)
  : Completion (Report * Ledger) :=
  match promiseAll tasks with
  | Returned results =>
      match verifyDeposits initialContractEthBalance results l with
      | Some out => Returned out
      | None => Thrown (conversionError results)
      end
  | Thrown e => Thrown e
  end.

(** One iteration of [main] of runWorkerBenchmark.js from step 4 to step
    6 with every awaited call: [await Promise.all(taskPromises)],
    [await piscina.destroy()], the tally, and
    [await counterContract.count()].  An awaited promise that rejects
    throws to the [catch] handler at the end of [main], which exits
    without the report. *)
Definition mainPool (initialCount : Z)
           (tasks : list (Completion WorkerValue))
           (destroyed : Completion unit) (finalRead : Completion Z)
  : Completion Report :=
  match promiseAll tasks with
  | Thrown e => Thrown e
  | Returned results =>
      match destroyed with
      | Thrown e => Thrown e
      | Returned _ =>
          let t := processIncrements results in
          match finalRead with
          | Thrown e => Thrown e
          | Returned finalCount =>
              let expectedCount := initialCount + totalSuccessful t in
              Returned (mkReport (totalSuccessful t) (totalFailed t) 0
                                 finalCount expectedCount
                                 (finalCount =? expectedCount))
          end
      end
  end.

(** The value a worker run delivers to the pool. *)
Definition delivered (r : Run) : Completion WorkerValue :=
  match completion r with
  | Returned res => Returned (Result res)
  | Thrown e => Thrown e
  end.

(** A value that a run of the deposit worker delivered. *)
Definition depositOutcome (depositAmountWei : Z) (v : WorkerValue) : Prop :=
  exists wid tix ledger artifacts name run,
    workerAccountBalance depositAmountWei wid tix ledger artifacts name
    = Some run /\
    delivered run = Returned v.

(** ** The quantities of the specification *)

(** An outcome that [main] counts as succeeded. *)
Definition isSuccess (v : WorkerValue) : bool :=
  match v with
  | Result r => success r
  | Unexpected => false
  end.

(** The effect of a succeeded increment and of a succeeded deposit. *)
Definition incrementEffect (v : WorkerValue) : Z := 1.

Definition depositEffect (v : WorkerValue) : Z :=
  match v with
  | Result r =>
      match amountDeposited r with
      | Some a => match bigIntOfString a with Some z => z | None => 0 end
      | None => 0
      end
  | Unexpected => 0
  end.

(** [aggregateEffect]: the sum of the effect over the succeeded outcomes. *)
Definition aggregateEffect (effect : WorkerValue -> Z)
           (results : list WorkerValue) : Z :=
  fold_right Z.add 0 (map effect (filter isSuccess results)).

Definition successCount (results : list WorkerValue) : Z :=
  Z.of_nat (List.length (filter isSuccess results)).

Definition failureCount (results : list WorkerValue) : Z :=
  Z.of_nat (List.length (filter (fun v => negb (isSuccess v)) results)).

End Harness.

Module Aggregation.

Import Worker Harness.

(** A result for which step 5 of the deposit benchmark evaluates
    [BigInt(res.amountDeposited)] and the conversion throws: a success
    whose [amountDeposited] is missing or is a string that [BigInt] does
    not accept. *)
Definition badAmount (v : WorkerValue) : bool :=
  match v with
  | Result r =>
      success r &&
      match amountDeposited r with
      | Some a => match bigIntOfString a with
                  | Some _ => false
                  | None => true
                  end
      | None => true
      end
  | Unexpected => false
  end.

End Aggregation.

(* ===================================================================== *)
(** * 3a. The preparation of the tasks in the [main] functions            *)
(* ===================================================================== *)

Module TaskPlan.

(** [a % b] on non-negative integers: NaN ([None]) when [b] is zero. *)
Definition jsMod (a b : nat) : option nat :=
  if b =? 0 then None else Some (a mod b).

(** The [workerData] object of one task of the worker-pool benchmarks:
    [privateKeysToUse[signerIndex]] is [undefined] ([None]) when the index
    is out of range or NaN. *)
Record WorkerData (K : Type) : Type := mkWorkerData {
  signerIndex : option nat;
  privateKey  : option K;
  workerId    : option nat;
  txIndex     : nat
}.
Arguments mkWorkerData {K} _ _ _ _.
Arguments signerIndex {K} _.
Arguments privateKey {K} _.
Arguments workerId {K} _.
Arguments txIndex {K} _.

Definition keyAt {K : Type} (keys : list K) (i : option nat) : option K :=
  match i with
  | Some n => nth_error keys n
  | None => None
  end.

(** Step 3 of [main] in runWorkerBenchmark.js and
    runAccountBalanceBenchmark.js,
    [for (let i = 0; i < TOTAL_TRANSACTIONS; i++) { ... }], with
    [availableSignersCount = HARDHAT_PRIVATE_KEYS.length]. *)
Definition workerDataAt {K : Type} (keys : list K) (workerCount i : nat)
  : WorkerData K :=
  let signerIndex := jsMod i (List.length keys) in
  mkWorkerData signerIndex (keyAt keys signerIndex) (jsMod i workerCount) i.

Definition prepareTasks {K : Type} (keys : list K)
           (TOTAL_TRANSACTIONS workerCount : nat) : list (WorkerData K) :=
  map (workerDataAt keys workerCount) (seq 0 TOTAL_TRANSACTIONS).

(** Step 3 of [main] after the check of the private keys: with no
    private key the process has exited ([None]); otherwise the result is
    the list of tasks that step 3 builds when it is reached.  The other
    ways in which [main] stops before step 3 (no worker count, no RPC
    URL, a compilation or a deployment that throws) are not part of this
    function. *)
Definition planPool {K : Type} (keys : list K)
           (TOTAL_TRANSACTIONS workerCount : nat)
  : option (list (WorkerData K)) :=
  if List.length keys =? 0 then None
  else Some (prepareTasks keys TOTAL_TRANSACTIONS workerCount).

(** The single-process benchmark:
    [signers.slice(0, Math.min(signers.length, MAX_SIGNERS_TO_USE))]. *)
Definition signersToUse {K : Type} (MAX_SIGNERS_TO_USE : nat)
           (signers : list K) : list K :=
  firstn (Nat.min (List.length signers) MAX_SIGNERS_TO_USE) signers.

(** Step 2 of its [main]: the signer of task [i] is
    [signersToUse[i % signersToUse.length]]; the process exits when
    [signersToUse.length < 1]. *)
Definition planConcurrent {K : Type} (MAX_SIGNERS_TO_USE : nat)
           (signers : list K) (TOTAL_TRANSACTIONS : nat)
  : option (list (option K)) :=
  let use := signersToUse MAX_SIGNERS_TO_USE signers in
  if List.length use <? 1 then None
  else Some (map (fun i => keyAt use (jsMod i (List.length use)))
                 (seq 0 TOTAL_TRANSACTIONS)).

(** How many tasks of a plan use the signer with index [k]. *)
Definition loadOf {K : Type} (k : nat) (plan : list (WorkerData K)) : nat :=
  List.length
    (filter (fun d => match signerIndex d with
                      | Some j => j =? k
                      | None => false
                      end) plan).

End TaskPlan.

(* ===================================================================== *)
(** * 3c. The script concurrentIncrement.js                               *)
(* ===================================================================== *)

Module ConcurrentIncrement.

Import Worker Harness.
Local Open Scope Z_scope.

Definition numberOfConcurrentTx : nat := 5.

(** What the verification of the script prints. *)
Record Outcome : Type := mkOutcome {
  expectedCount : Z;
  finalCount    : Z;
  matches       : bool
}.

(** [main] from step 2 on: [send] is [counter.connect(signer).increment()]
    for each signer, a promise of a transaction response (its hash
    here), [wait] is [txResponse.wait()]; both arrays of promises go
    through [Promise.all], and the expected count is the initial count
    plus the number of receipts. *)
Definition main {K : Type} (signers : list K)
           (send : K -> Completion string)
           (wait : string -> Completion Receipt)
           (initialCount : Z) (l : Ledger) : Completion Outcome :=
  let txSigners := firstn numberOfConcurrentTx signers in
  match promiseAll (map send txSigners) with
  | Thrown e => Thrown e
  | Returned transactionResponses =>
      match promiseAll (map wait transactionResponses) with
      | Thrown e => Thrown e
      | Returned transactionReceipts =>
          let (finalCount, _) := queryCount l in
          let expectedCount :=
            initialCount + Z.of_nat (List.length transactionReceipts) in
          Returned (mkOutcome expectedCount finalCount
                              (finalCount =? expectedCount))
      end
  end.

End ConcurrentIncrement.

(* ===================================================================== *)
(** * 3b. The contracts Counter and AccountBalance                        *)
(* ===================================================================== *)

Module Contracts.

Local Open Scope N_scope.

Definition address : Type := N.

(** The largest [uint256]; arithmetic of Solidity 0.8 reverts beyond it. *)
Definition MAX_UINT256 : N := 2 ^ 256 - 1.

(** [msg.sender] and [msg.value] of a call. *)
Record Msg : Type := mkMsg {
  sender : address;
  value  : N
}.

Module Counter.

Inductive Event : Type :=
| Incremented (by_ : address) (newCount : N).

(** The storage of the contract and the events it has emitted. *)
Record state : Type := mkState {
  count : N;
  logs  : list Event
}.

Definition deploy : state := mkState 0 [].

(** [increment()]: not payable, so a call with value reverts; [count += 1]
    reverts on overflow ([None]). *)
Definition increment (m : Msg) (st : state) : option state :=
  if 0 <? value m then None
  else if count st + 1 <=? MAX_UINT256
       then Some (mkState (count st + 1)
                          (logs st ++ [Incremented (sender m) (count st + 1)]))
       else None.

(** [getCount()] and the getter of the public variable. *)
Definition getCount (st : state) : N := count st.

(** A reverted transaction leaves the state as it was. *)
Definition transact (st : state) (m : Msg) : state :=
  match increment m st with
  | Some st' => st'
  | None => st
  end.

Definition run (st : state) (ms : list Msg) : state :=
  fold_left transact ms st.

End Counter.

Module AccountBalance.

Inductive Event : Type :=
| Deposited (account : address) (amount : N)
| WithdrawnByOwner (to : address) (amount : N).

(** The storage of the contract, the Ether it holds
    ([address(this).balance]) and the events it has emitted. *)
Record state : Type := mkState {
  balances : address -> N;
  owner    : address;
  held     : N;
  logs     : list Event
}.

(** The constructor; the address may hold Ether before the deployment. *)
Definition deploy (deployer : address) (preFunded : N) : state :=
  mkState (fun _ => 0) deployer preFunded [].

(** What changes the state of the contract.  [Deposit], [Receive] and
    [WithdrawAll] are its entry points.  [WithdrawAll] carries what the
    recipient of [owner.call{value: contractBalance}("")] does: the
    calls that reach the contract [during] the call (an owner that is a
    contract may call back, itself or through others, and its calls may
    be withdrawals in turn), and whether the call reports success
    ([accepted]).  [Forced] is Ether that reaches the address without
    running its code, as the beneficiary of a [selfdestruct] or of a
    block reward; its amount is the value of the message. *)
#[local] Unset Elimination Schemes.

Inductive Call : Type :=
| Deposit
| Receive
| WithdrawAll (accepted : bool) (during : list (Msg * Call))
| Forced.

#[local] Set Elimination Schemes.

Definition credit (a : address) (v : N) (st : state) : option state :=
  if balances st a + v <=? MAX_UINT256
  then Some (mkState (fun b => if b =? a then balances st a + v
                               else balances st b)
                     (owner st) (held st + v)
                     (logs st ++ [Deposited a v]))
  else None.

(** One call; [None] is a revert.  The value of a payable call is added
    to the holdings when the body succeeds.  In [withdrawAll] the
    holdings leave with the call to the owner; the calls made during it
    run on what is left, a call among them that reverts changes nothing,
    and when the owner's call fails everything is undone by the
    [require] that follows it. *)
Fixpoint step (m : Msg) (c : Call) (st : state) {struct c} : option state :=
  match c with
  | Deposit =>
      if 0 <? value m then credit (sender m) (value m) st else None
  | Receive =>
      if 0 <? value m then credit (sender m) (value m) st else Some st
  | WithdrawAll accepted during =>
      if 0 <? value m then None
      else if negb (sender m =? owner st) then None
      else if negb (0 <? held st) then None
      else if accepted
           then
             let after :=
               (fix calls (txs : list (Msg * Call)) (s : state) : state :=
                  match txs with
                  | [] => s
                  | (m', c') :: rest =>
                      calls rest match step m' c' s with
                                 | Some s' => s'
                                 | None => s
                                 end
                  end) during
                 (mkState (balances st) (owner st) 0 (logs st)) in
             Some (mkState (balances after) (owner after) (held after)
                           (logs after ++ [WithdrawnByOwner (owner after)
                                                            (held st)]))
           else None
  | Forced =>
      Some (mkState (balances st) (owner st) (held st + value m) (logs st))
  end.

(** A call during which nothing else reaches the contract: no forced
    Ether, and an owner that does not call back. *)
Definition plain (c : Call) : bool :=
  match c with
  | Deposit | Receive => true
  | WithdrawAll _ during => match during with [] => true | _ => false end
  | Forced => false
  end.

(** The views [getBalance], [getMyBalance] and [getContractBalance]. *)
Definition getBalance (st : state) (account : address) : N :=
  balances st account.
Definition getMyBalance (st : state) (m : Msg) : N := balances st (sender m).
Definition getContractBalance (st : state) : N := held st.

Definition transact (st : state) (tx : Msg * Call) : state :=
  match step (fst tx) (snd tx) st with
  | Some st' => st'
  | None => st
  end.

Definition run (st : state) (txs : list (Msg * Call)) : state :=
  fold_left transact txs st.

(** What the event log says an account has deposited, and what it says
    the contract holds: deposits add up, a withdrawal empties. *)
Definition depositedBy (a : address) (evs : list Event) : N :=
  fold_right (fun ev acc => match ev with
                            | Deposited b v => if b =? a then v + acc else acc
                            | WithdrawnByOwner _ _ => acc
                            end) 0 evs.

Definition heldPer (preFunded : N) (evs : list Event) : N :=
  fold_left (fun acc ev => match ev with
                           | Deposited _ v => acc + v
                           | WithdrawnByOwner _ _ => 0
                           end) evs preFunded.

End AccountBalance.

End Contracts.

(* ===================================================================== *)
(** * 4. Facts about the scheduler                                        *)
(* ===================================================================== *)

Import Scheduler.

Lemma mem_In (i : nat) (l : list nat) : mem i l = true <-> In i l.
Proof.
  unfold mem. rewrite existsb_exists. split.
  - intros [x [Hx He]]. apply Nat.eqb_eq in He. now subst.
  - intros H. exists i. split; [assumption | apply Nat.eqb_refl].
Qed.

Lemma drop_In (i j : nat) (l : list nat) :
  In j (drop i l) <-> In j l /\ i <> j.
Proof.
  unfold drop. rewrite filter_In, negb_true_iff, Nat.eqb_neq. tauto.
Qed.

Lemma drop_notin (i : nat) (l : list nat) : ~ In i l -> drop i l = l.
Proof.
  induction l as [|a l IH]; simpl; intros H; [reflexivity|].
  destruct (Nat.eqb_spec i a) as [->|Hne]; simpl.
  - exfalso. apply H. now left.
  - f_equal. apply IH. intros Hin. apply H. now right.
Qed.

Lemma drop_perm (i : nat) (l : list nat) :
  NoDup l -> In i l -> Permutation l (i :: drop i l).
Proof.
  induction l as [|a l IH]; intros Hnd Hin; [contradiction|].
  inversion Hnd as [|? ? Hna Hnd']; subst. simpl.
  destruct (Nat.eqb_spec i a) as [->|Hne]; simpl.
  - rewrite drop_notin by assumption. reflexivity.
  - destruct Hin as [->|Hin]; [congruence|].
    rewrite perm_swap. constructor. now apply IH.
Qed.

Lemma drop_NoDup (i : nat) (l : list nat) : NoDup l -> NoDup (drop i l).
Proof. intros H. unfold drop. now apply NoDup_filter. Qed.

Lemma drop_length {i : nat} {l : list nat} :
  NoDup l -> In i l -> S (List.length (drop i l)) = List.length l.
Proof.
  intros Hnd Hin. apply drop_perm in Hin; [|assumption].
  apply Permutation_length in Hin. simpl in Hin. lia.
Qed.

Lemma filter_split_length {A : Type} (f : A -> bool) (l : list A) :
  List.length (filter f l) + List.length (filter (fun x => negb (f x)) l)
  = List.length l.
Proof.
  induction l as [|a l IH]; simpl; [reflexivity|].
  destruct (f a); simpl; lia.
Qed.

Lemma NoDup_app_disjoint (l1 l2 : list nat) :
  NoDup (l1 ++ l2) -> forall a, In a l1 -> ~ In a l2.
Proof.
  induction l1 as [|b l1 IH]; simpl; intros N a Hin H2; [contradiction|].
  inversion N as [|? ? Hnb N']; subst.
  destruct Hin as [->|Hin].
  - apply Hnb. apply in_or_app. now right.
  - exact (IH N' a Hin H2).
Qed.

(** Reduce the projections of a state built by [mkState], and nothing
    else. *)
Ltac fields :=
  cbn [launchTask onSettle release resolve results errors activeCount
       taskIndex resolved pending finalizing settledLog startedLog] in *.

Section SchedulerFacts.

Variable totalTasks : nat.
Variable limit : Z.

Local Abbreviation launch := (launch totalTasks limit).
Local Abbreviation runNext := (runNext totalTasks limit).
Local Abbreviation loopCond := (loopCond totalTasks limit).
Local Abbreviation step := (step totalTasks limit).
Local Abbreviation exec := (exec totalTasks limit).
Local Abbreviation start := (start totalTasks limit).
Local Abbreviation reachable := (reachable totalTasks limit).
Local Abbreviation onFinally := (onFinally totalTasks limit).
Local Abbreviation Inv := (Inv totalTasks limit).
Local Abbreviation Saturated := (Saturated totalTasks limit).

Lemma Inv_counted {s : state} :
  Inv s -> List.length (results s) + errors s = List.length (settledLog s).
Proof.
  intros H. rewrite (inv_results H), (inv_errors H).
  apply filter_split_length.
Qed.

Lemma Inv_started {s : state} :
  Inv s ->
  List.length (pending s) + List.length (settledLog s) = taskIndex s.
Proof.
  intros H. pose proof (Permutation_length (inv_perm H)) as P.
  rewrite length_app, length_map, length_seq in P. exact P.
Qed.

Lemma Inv_pending_NoDup {s : state} : Inv s -> NoDup (pending s).
Proof.
  intros H.
  assert (N : NoDup (pending s ++ map fst (settledLog s))).
  { eapply Permutation_NoDup;
      [symmetry; apply (inv_perm H) | apply seq_NoDup]. }
  now apply NoDup_app_remove_r in N.
Qed.

Lemma Inv_pending_fresh {s : state} {i : nat} :
  Inv s -> In i (pending s) -> ~ In i (map fst (settledLog s)).
Proof.
  intros H Hin Hlog.
  assert (N : NoDup (pending s ++ map fst (settledLog s))).
  { eapply Permutation_NoDup;
      [symmetry; apply (inv_perm H) | apply seq_NoDup]. }
  exact (NoDup_app_disjoint _ _ N i Hin Hlog).
Qed.

Lemma init_Inv : Inv init.
Proof.
  constructor; simpl; try reflexivity; try lia; try discriminate.
  - constructor.
  - intros x [].
Qed.

Lemma loopCond_true (s : state) :
  loopCond s = true <->
  (activeCount s < limit)%Z /\ taskIndex s < totalTasks.
Proof.
  unfold Scheduler.loopCond.
  rewrite andb_true_iff, Z.ltb_lt, Nat.ltb_lt. tauto.
Qed.

Lemma loopCond_false (s : state) :
  loopCond s = false <->
  (limit <= activeCount s)%Z \/ totalTasks <= taskIndex s.
Proof.
  unfold Scheduler.loopCond.
  rewrite andb_false_iff, Z.ltb_ge, Nat.ltb_ge. tauto.
Qed.

Lemma launchTask_Inv (s : state) : Inv s -> loopCond s = true -> Inv (launchTask s).
Proof.
  intros H C. apply loopCond_true in C. destruct C as [Ca Ci].
  constructor; fields; try apply H.
  - rewrite length_app, (inv_active H). simpl. lia.
  - rewrite seq_S. simpl.
    rewrite <- app_assoc.
    transitivity (pending s ++ map fst (settledLog s) ++ [taskIndex s]).
    + apply Permutation_app_head, Permutation_app_comm.
    + rewrite app_assoc. apply Permutation_app_tail, (inv_perm H).
  - lia.
  - lia.
  - rewrite seq_S, (inv_started H). reflexivity.
Qed.

Lemma launch_Inv (fuel : nat) : forall s, Inv s -> Inv (launch fuel s).
Proof.
  induction fuel as [|fuel IH]; simpl; intros s H; [assumption|].
  destruct (loopCond s) eqn:C; [|assumption].
  apply IH. now apply launchTask_Inv.
Qed.

(** The fuel given by [runNext] is enough: the loop is left because its
    condition is false. *)
Lemma launch_exits (fuel : nat) :
  forall s, totalTasks - taskIndex s <= fuel ->
            loopCond (launch fuel s) = false.
Proof.
  induction fuel as [|fuel IH]; simpl; intros s Hf.
  - apply loopCond_false. right. lia.
  - destruct (loopCond s) eqn:C; [|assumption].
    apply IH. simpl. lia.
Qed.

(** The loop touches [taskIndex], [activeCount] and the pending set
    only. *)
Lemma launch_frame (fuel : nat) :
  forall s, let s' := launch fuel s in
    results s' = results s /\ errors s' = errors s /\
    resolved s' = resolved s /\ finalizing s' = finalizing s /\
    settledLog s' = settledLog s.
Proof.
  induction fuel as [|fuel IH]; simpl; intros s; [tauto|].
  destruct (loopCond s); [|tauto].
  destruct (IH (launchTask s)) as (A & B & C & D & E). simpl in *. tauto.
Qed.

Lemma runNext_Inv (s : state) : Inv s -> Inv (runNext s).
Proof.
  intros H. unfold Scheduler.runNext.
  destruct (Nat.eqb_spec (List.length (results s) + errors s) totalTasks)
    as [E|E].
  - constructor; simpl; try apply H.
    intros _. rewrite <- (Inv_counted H). exact E.
  - now apply launch_Inv.
Qed.

Lemma runNext_Saturated (s : state) : Inv s -> Saturated (runNext s).
Proof.
  intros H. unfold Scheduler.runNext, Scheduler.Saturated.
  destruct (Nat.eqb_spec (List.length (results s) + errors s) totalTasks)
    as [E|E]; simpl; [discriminate|].
  intros _ Hi.
  pose proof (launch_exits (totalTasks - taskIndex s) s (le_n _))
    as X.
  apply loopCond_false in X. destruct X as [X|X]; [assumption | lia].
Qed.

Lemma onSettle_Inv (i : nat) (ok : bool) (s : state) :
  Inv s -> In i (pending s) -> Inv (onSettle i ok s).
Proof.
  intros H Hin.
  pose proof (Inv_pending_NoDup H) as Nd.
  pose proof (Inv_pending_fresh H Hin) as Fr.
  pose proof (drop_length Nd Hin) as L.
  constructor; simpl; try apply H.
  - rewrite length_app, (inv_active H). simpl. lia.
  - rewrite map_app. simpl.
    transitivity ((i :: drop i (pending s)) ++ map fst (settledLog s)).
    + simpl. rewrite app_assoc. symmetry. apply Permutation_cons_append.
    + rewrite <- (inv_perm H). apply Permutation_app_tail.
      symmetry. now apply drop_perm.
  - rewrite filter_app, length_app. simpl.
    destruct ok; simpl; rewrite ?length_app; simpl;
      rewrite (inv_results H); lia.
  - rewrite filter_app, length_app. simpl.
    destruct ok; simpl; rewrite (inv_errors H); lia.
  - apply NoDup_app; [apply H | repeat constructor; intros [] | ].
    intros a Ha [<-|[]]. apply Fr. now apply (inv_fin_incl H).
  - rewrite map_app. simpl. intros a Ha. apply in_or_app.
    apply in_app_or in Ha. destruct Ha as [Ha|Ha].
    + left. now apply (inv_fin_incl H).
    + now right.
  - intros R. exfalso.
    pose proof (inv_resolved H R) as T.
    pose proof (Inv_started H) as St. pose proof (inv_index H).
    destruct (pending s); [contradiction | simpl in St; lia].
Qed.

Lemma onSettle_Saturated (i : nat) (ok : bool) (s : state) :
  Saturated s -> Saturated (onSettle i ok s).
Proof. unfold Scheduler.Saturated. simpl. tauto. Qed.

Lemma release_Inv (i : nat) (s : state) :
  Inv s -> In i (finalizing s) -> Inv (release i s).
Proof.
  intros H Hin.
  pose proof (drop_length (inv_fin_nodup H) Hin) as L.
  constructor; fields; try apply H.
  - rewrite (inv_active H). lia.
  - apply drop_NoDup, H.
  - intros a Ha. apply drop_In in Ha. now apply (inv_fin_incl H).
  - pose proof (inv_bound H). lia.
Qed.

Lemma onFinally_Inv (i : nat) (s : state) :
  Inv s -> In i (finalizing s) -> Inv (onFinally i s).
Proof.
  intros H Hin. unfold Scheduler.onFinally.
  now apply runNext_Inv, release_Inv.
Qed.

Lemma onFinally_Saturated (i : nat) (s : state) :
  Inv s -> In i (finalizing s) -> Saturated (onFinally i s).
Proof.
  intros H Hin. unfold Scheduler.onFinally.
  now apply runNext_Saturated, release_Inv.
Qed.

Lemma step_Inv (s s' : state) (e : event) :
  Inv s -> Saturated s -> step s e = Some s' -> Inv s' /\ Saturated s'.
Proof.
  intros H St. destruct e as [i ok|i]; simpl.
  - destruct (mem i (pending s)) eqn:M; [|discriminate].
    intros [= <-]. apply mem_In in M.
    split; [now apply onSettle_Inv | now apply onSettle_Saturated].
  - destruct (mem i (finalizing s)) eqn:M; [|discriminate].
    intros [= <-]. apply mem_In in M.
    split; [now apply onFinally_Inv | now apply onFinally_Saturated].
Qed.

Lemma exec_Inv (es : list event) :
  forall s s', Inv s -> Saturated s -> exec s es = Some s' ->
               Inv s' /\ Saturated s'.
Proof.
  induction es as [|e es IH]; simpl; intros s s' H St.
  - intros [= <-]. now split.
  - destruct (step s e) as [s1|] eqn:E; [|discriminate].
    destruct (step_Inv _ _ _ H St E) as [H1 St1]. now apply IH.
Qed.

Lemma reachable_Inv (s : state) : reachable s -> Inv s /\ Saturated s.
Proof.
  intros [es E]. eapply exec_Inv; [ | | exact E].
  - apply runNext_Inv, init_Inv.
  - apply runNext_Saturated, init_Inv.
Qed.

Lemma launch_stops (fuel : nat) (s : state) :
  loopCond s = false -> launch fuel s = s.
Proof. intros C. destruct fuel; simpl; [reflexivity | now rewrite C]. Qed.

(** A run that is resolved has started every task. *)
Lemma resolved_all_started (s : state) :
  Inv s -> resolved s = true ->
  taskIndex s = totalTasks /\ pending s = [].
Proof.
  intros H R. pose proof (inv_resolved H R) as T.
  pose proof (Inv_started H) as St. pose proof (inv_index H) as Ix.
  split; [lia|]. destruct (pending s); [reflexivity | simpl in St; lia].
Qed.

(** The [finally] handler of a task frees one slot, and while tasks
    remain the launch loop fills it with the task at [taskIndex], and
    with that one only. *)
Lemma onFinally_launches (i : nat) (s : state) :
  (0 <= limit)%Z -> Inv s -> Saturated s ->
  In i (finalizing s) -> taskIndex s < totalTasks ->
  pending (onFinally i s) = pending s ++ [taskIndex s] /\
  taskIndex (onFinally i s) = S (taskIndex s) /\
  activeCount (onFinally i s) = activeCount s.
Proof.
  intros L H St Hin Ix.
  assert (R : resolved s = false).
  { destruct (resolved s) eqn:R; [|reflexivity].
    destruct (resolved_all_started s H R). lia. }
  pose proof (St R Ix) as Sa. pose proof (inv_bound H) as B.
  pose proof (Inv_counted H) as Cn. pose proof (Inv_started H) as Sd.
  unfold Scheduler.onFinally, Scheduler.runNext. fields.
  destruct (Nat.eqb_spec (List.length (results s) + errors s) totalTasks)
    as [E|E]; [lia|].
  destruct (totalTasks - taskIndex s) as [|fuel] eqn:F; [lia|].
  cbn [Scheduler.launch].
  match goal with |- context [Scheduler.loopCond _ _ ?x] =>
    assert (C : loopCond x = true) by (apply loopCond_true; fields; lia)
  end.
  rewrite C. rewrite launch_stops.
  - fields. repeat split; lia.
  - apply loopCond_false. fields. left. lia.
Qed.

(** ** Progress: with a positive limit a run cannot stall *)

Lemma runNext_Live (s : state) :
  (1 <= limit)%Z -> Inv s -> Live (runNext s).
Proof.
  intros L H. pose proof (runNext_Inv s H) as H'.
  pose proof (runNext_Saturated s H) as S'.
  destruct (resolved (runNext s)) eqn:R; [now left | right].
  pose proof (inv_active H') as A. pose proof (Inv_started H') as Sd.
  pose proof (inv_index H') as Ix.
  destruct (pending (runNext s)) eqn:P; [|left; discriminate].
  right. destruct (finalizing (runNext s)) eqn:Fz; [|discriminate].
  exfalso. simpl in A, Sd.
  destruct (Nat.eq_dec (taskIndex (runNext s)) totalTasks) as [E|E].
  - revert R Sd. unfold Scheduler.runNext.
    destruct (Nat.eqb_spec (List.length (results s) + errors s) totalTasks)
      as [E'|E']; [discriminate|].
    destruct (launch_frame (totalTasks - taskIndex s) s)
      as (_ & _ & _ & _ & Lg).
    unfold Scheduler.runNext in E.
    rewrite (proj2 (Nat.eqb_neq _ _) E') in E.
    intros _. rewrite Lg, E. pose proof (Inv_counted H). lia.
  - specialize (S' R). lia.
Qed.

Lemma step_Live (s s' : state) (e : event) :
  (1 <= limit)%Z -> Inv s -> step s e = Some s' -> Live s'.
Proof.
  intros L H. destruct e as [i ok|i]; simpl.
  - destruct (mem i (pending s)); [|discriminate]. intros [= <-].
    right. right. simpl. now destruct (finalizing s).
  - destruct (mem i (finalizing s)) eqn:M; [|discriminate]. intros [= <-].
    apply mem_In in M. unfold Scheduler.onFinally.
    apply runNext_Live; [easy | now apply release_Inv].
Qed.

Lemma reachable_Live (s : state) :
  (1 <= limit)%Z -> reachable s -> Live s.
Proof.
  intros L [es E].
  destruct es as [|e es] using rev_ind.
  - simpl in E. injection E as <-. apply runNext_Live; [easy | apply init_Inv].
  - clear IHes.
    assert (X : exists s1, exec start es = Some s1 /\ step s1 e = Some s).
    { revert E. generalize start. induction es as [|e' es IH]; simpl; intros s0.
      - destruct (step s0 e) eqn:E1; [|discriminate].
        intros [= <-]. now exists s0.
      - destruct (step s0 e'); [apply IH | discriminate]. }
    destruct X as (s1 & E1 & E2).
    eapply step_Live; [easy | | exact E2].
    apply reachable_Inv. now exists es.
Qed.

(** Every handler that runs is one of two per task: runs are finite. *)
Lemma exec_length (es : list event) :
  forall s s', Inv s -> Saturated s -> exec s es = Some s' ->
    List.length es + (2 * List.length (settledLog s)
                      - List.length (finalizing s))
    = 2 * List.length (settledLog s') - List.length (finalizing s').
Proof.
  induction es as [|e es IH]; cbn [Scheduler.exec List.length];
    intros s s' H St.
  - now intros [= <-].
  - destruct (step s e) as [s1|] eqn:E; [|discriminate].
    destruct (step_Inv _ _ _ H St E) as [H1 St1]. intros E'.
    rewrite <- (IH s1 s' H1 St1 E').
    assert (Fl : List.length (finalizing s) <= List.length (settledLog s)).
    { rewrite <- (length_map fst). apply NoDup_incl_length; apply H. }
    destruct e as [i ok|i]; simpl in E.
    + destruct (mem i (pending s)); [|discriminate]. injection E as <-.
      simpl. rewrite !length_app. simpl. lia.
    + destruct (mem i (finalizing s)) eqn:M; [|discriminate].
      injection E as <-. apply mem_In in M.
      pose proof (drop_length (inv_fin_nodup H) M) as Ln.
      unfold Scheduler.onFinally, Scheduler.runNext. fields.
      destruct (_ =? _).
      * fields. lia.
      * match goal with |- context [Scheduler.launch _ _ ?f ?x] =>
          destruct (launch_frame f x) as (_ & _ & _ & Fz & Lg)
        end.
        rewrite Fz, Lg. fields. lia.
Qed.

End SchedulerFacts.

Lemma start_nonpositive (totalTasks : nat) (limit : Z) :
  (limit <= 0)%Z ->
  start totalTasks limit
  = if totalTasks =? 0 then resolve init else init.
Proof.
  intros L. unfold start, runNext. cbn [init results errors List.length].
  destruct totalTasks as [|n]; [reflexivity|].
  cbn [Nat.add Nat.eqb Nat.sub taskIndex init launch].
  assert (C : loopCond (S n) limit init = false).
  { unfold loopCond. cbn [init activeCount].
    apply andb_false_iff. left. apply Z.ltb_ge. exact L. }
  now rewrite C.
Qed.

Lemma exec_stuck (totalTasks : nat) (limit : Z) (s s' : state)
      (es : list event) :
  pending s = [] -> finalizing s = [] ->
  exec totalTasks limit s es = Some s' -> s' = s.
Proof.
  intros P F. destruct es as [|e es]; simpl.
  - now intros [= <-].
  - destruct e as [i ok|i]; simpl; rewrite ?P, ?F; simpl; discriminate.
Qed.

Lemma start_fresh (totalTasks : nat) (limit : Z) :
  settledLog (start totalTasks limit) = [] /\
  finalizing (start totalTasks limit) = [].
Proof.
  unfold start, runNext. destruct (_ =? _); [now split|].
  destruct (launch_frame totalTasks limit (totalTasks - taskIndex init) init)
    as (_ & _ & _ & F & L).
  now rewrite F, L.
Qed.

(** With a limit of at least one a run cannot stall and cannot go on for
    ever: at most two handlers run per task, a handler can run as long
    as one is outstanding, and when none is the promise is resolved with
    every task counted. *)
Lemma run_completes (totalTasks : nat) (limit : Z) (es : list event)
      (s : state) :
  (1 <= limit)%Z ->
  exec totalTasks limit (start totalTasks limit) es = Some s ->
  List.length es <= 2 * totalTasks /\
  (quiescent s ->
   returned s = Fulfilled (results s) /\
   List.length (results s) + errors s = totalTasks) /\
  (~ quiescent s -> exists e s', step totalTasks limit s e = Some s').
Proof.
  intros L E.
  assert (R : reachable totalTasks limit s) by now exists es.
  destruct (reachable_Inv _ _ _ R) as [H _].
  pose proof (reachable_Live _ _ _ L R) as Lv.
  destruct (start_fresh totalTasks limit) as [L0 F0].
  pose proof (exec_length totalTasks limit es _ _
                (runNext_Inv _ _ _ (init_Inv _ _))
                (runNext_Saturated _ _ _ (init_Inv _ _)) E) as Ln.
  fold (start totalTasks limit) in Ln. rewrite L0, F0 in Ln. simpl in Ln.
  pose proof (Inv_started _ _ H) as St. pose proof (inv_index H) as Ix.
  split; [lia|]. split.
  - intros [P F].
    assert (Rs : resolved s = true).
    { destruct Lv as [Rs|[N|N]]; [assumption | congruence | congruence]. }
    split.
    + unfold returned. now rewrite Rs.
    + rewrite (Inv_counted _ _ H). exact (inv_resolved H Rs).
  - intros NQ. unfold quiescent in NQ.
    destruct (pending s) as [|i p] eqn:P.
    + destruct (finalizing s) as [|i f] eqn:F; [now destruct NQ|].
      exists (Finally i). eexists. cbn [step]. rewrite F.
      cbn [mem existsb]. now rewrite Nat.eqb_refl.
    + exists (Settle i true). eexists. cbn [step]. rewrite P.
      cbn [mem existsb]. now rewrite Nat.eqb_refl.
Qed.

(** ** The claims about the scheduler *)

(** C1. In every state of a run of [runTasksWithConcurrency] with a limit
    [0 <= limit], the tasks that were started and whose promise has not
    settled, together with those whose [finally] handler has not run yet,
    are [activeCount] many and at most [limit]; the same bound holds after
    every iteration of the launch loop, in the first call of [runNext]
    and in every [finally] handler; the tasks were started in the order
    of the array, 0, 1, ..., [taskIndex - 1], and each of them is pending
    or has settled; and when the [finally] handler of an in-flight task
    runs while tasks remain, the task at [taskIndex], the next in array
    order, is started. *)
Theorem concurrency_bound_and_admission
        (totalTasks : nat) (limit : Z) (s : state) :
  (0 <= limit)%Z ->
  reachable totalTasks limit s ->
  activeCount s
  = Z.of_nat (List.length (pending s) + List.length (finalizing s)) /\
  (Z.of_nat (List.length (pending s)) <= limit)%Z /\
  (activeCount s <= limit)%Z /\
  startedLog s = seq 0 (taskIndex s) /\
  Permutation (pending s ++ map fst (settledLog s)) (startedLog s) /\
  (forall k, (activeCount (launch totalTasks limit k init) <= limit)%Z) /\
  forall i, In i (finalizing s) ->
    (forall k,
        (activeCount (launch totalTasks limit k (release i s)) <= limit)%Z) /\
    (taskIndex s < totalTasks ->
     startedLog (onFinally totalTasks limit i s)
     = startedLog s ++ [taskIndex s] /\
     pending (onFinally totalTasks limit i s) = pending s ++ [taskIndex s]).
Proof.
  intros L R. destruct (reachable_Inv _ _ _ R) as [H St].
  pose proof (inv_bound H) as B. pose proof (inv_active H) as A.
  split; [exact A|]. split; [lia|]. split; [lia|].
  split; [apply (inv_started H)|].
  split; [rewrite (inv_started H); apply (inv_perm H)|]. split.
  - intros k.
    pose proof (inv_bound (launch_Inv totalTasks limit k _
                             (init_Inv totalTasks limit))).
    lia.
  - intros i Hin. split.
    + intros k.
      pose proof (inv_bound (launch_Inv totalTasks limit k _
                               (release_Inv _ _ i s H Hin))).
      lia.
    + intros Ix.
      destruct (onFinally_launches totalTasks limit i s L H St Hin Ix)
        as (P & T & _).
      split; [|exact P].
      rewrite (inv_started (onFinally_Inv _ _ i s H Hin)), T, seq_S.
      now rewrite (inv_started H).
Qed.

(** The theorem at three tasks with limit 2, after the second task has
    fulfilled: its [finally] handler starts the third task. *)
Lemma concurrency_bound_and_admission_witness :
  let s := onSettle 1 true (start 3 2) in
  (activeCount s <= 2)%Z /\
  startedLog (onFinally 3 2 1 s) = [0; 1; 2].
Proof.
  intros s.
  destruct (concurrency_bound_and_admission 3 2 s)
    as (_ & _ & B & _ & _ & _ & A).
  - lia.
  - exists [Settle 1 true]. reflexivity.
  - split; [exact B|]. apply (A 1).
    + simpl. now left.
    + simpl. lia.
Defined.

(** C10. With an empty task array [runTasksWithConcurrency] resolves in
    its first call of [runNext], whatever the limit: the promise is
    fulfilled with the empty [results] array, [errors] is zero, no task
    was started, and nothing happens afterwards. *)
Theorem empty_task_list_resolves (limit : Z) :
  returned (start 0 limit) = Fulfilled [] /\
  results (start 0 limit) = [] /\
  errors (start 0 limit) = 0 /\
  taskIndex (start 0 limit) = 0 /\
  pending (start 0 limit) = [] /\
  forall s, reachable 0 limit s -> s = start 0 limit.
Proof.
  repeat split; try reflexivity.
  intros s [es E]. now apply exec_stuck in E.
Qed.

(** C7 as stated fails: with one task and limit 0 the returned promise is
    not rejected, neither at once nor later; it stays pending for ever. *)
Lemma zero_limit_never_rejects :
  (~ exists reason, returned (start 1 0) = Rejected reason) /\
  forall s, reachable 1 0 s -> returned s = StillPending.
Proof.
  split.
  - intros [reason E]. discriminate E.
  - intros s [es E]. apply exec_stuck in E; [|reflexivity|reflexivity].
    now subst s.
Qed.

(** C7, amended. With [limit <= 0] no task is ever started: the state
    reached by the first call of [runNext] is the only state of the run,
    with [taskIndex] and [activeCount] zero and nothing pending.  The run
    is not rejected, the promise having no rejection path, and with an
    empty task array it is fulfilled at once with the empty array. *)
Theorem nonpositive_limit_starts_nothing
        (totalTasks : nat) (limit : Z) (s : state) :
  (limit <= 0)%Z ->
  reachable totalTasks limit s ->
  s = start totalTasks limit /\
  taskIndex s = 0 /\ pending s = [] /\ activeCount s = 0%Z /\
  (forall reason, returned s <> Rejected reason) /\
  (totalTasks = 0 -> returned s = Fulfilled []).
Proof.
  intros L [es E].
  assert (X : s = start totalTasks limit).
  { apply exec_stuck in E; [assumption | |];
      rewrite (start_nonpositive totalTasks limit L);
      now destruct (totalTasks =? 0). }
  subst s. rewrite (start_nonpositive totalTasks limit L).
  split; [reflexivity|].
  destruct totalTasks as [|n]; cbn; repeat split; discriminate.
Qed.

(** The theorem at four tasks with limit -1. *)
Lemma nonpositive_limit_starts_nothing_witness :
  taskIndex (start 4 (-1)) = 0 /\
  forall reason, returned (start 4 (-1)) <> Rejected reason.
Proof.
  destruct (nonpositive_limit_starts_nothing 4 (-1) (start 4 (-1)))
    as (_ & T & _ & _ & P & _).
  - lia.
  - exists []. reflexivity.
  - split; [exact T | exact P].
Defined.

(* ===================================================================== *)
(** * 5. Facts about the retry engine                                     *)
(* ===================================================================== *)

Import Worker.

Section EngineFacts.

Variable MAX_ATTEMPTS : nat.
Variable RETRY_DELAY_MS : Z.
Variables amountOnSuccess amountOnFailure : option string.
Variables wid tix : Z.
Variable ledger : nat -> Attempt.

Local Abbreviation tryAttempt :=
  (tryAttempt MAX_ATTEMPTS RETRY_DELAY_MS amountOnSuccess amountOnFailure
              wid tix).
Local Abbreviation retryLoop :=
  (retryLoop MAX_ATTEMPTS RETRY_DELAY_MS amountOnSuccess amountOnFailure
             wid tix ledger).
Local Abbreviation backoff := (backoff RETRY_DELAY_MS).
Local Abbreviation failure := (failure amountOnFailure wid tix).
Local Abbreviation defaultResult := (defaultResult amountOnFailure wid tix).

(** The loop never runs out of the fuel that covers its budget. *)
Lemma retryLoop_total (fuel : nat) :
  forall attempt result ds,
    MAX_ATTEMPTS - attempt <= fuel ->
    exists run, retryLoop fuel attempt result ds = Some run.
Proof.
  induction fuel as [|fuel IH]; intros attempt result ds Hf;
    cbn [Worker.retryLoop];
    destruct (Nat.ltb_spec attempt MAX_ATTEMPTS) as [Lt|Ge];
    try (eexists; reflexivity); try lia.
  destruct (tryAttempt (S attempt) (ledger (S attempt)));
    try (eexists; reflexivity).
  apply IH. lia.
Qed.

(** Induction along the iterations of the loop. *)
Lemma retryLoop_induction
      (P : nat -> WorkerResult -> list Z -> Run -> Prop) :
  (forall attempt result ds,
      MAX_ATTEMPTS <= attempt ->
      P attempt result ds (mkRun (Returned result) attempt ds)) ->
  (forall attempt result ds r,
      attempt < MAX_ATTEMPTS ->
      tryAttempt (S attempt) (ledger (S attempt)) = Break r ->
      P attempt result ds (mkRun (Returned r) (S attempt) ds)) ->
  (forall attempt result ds e,
      attempt < MAX_ATTEMPTS ->
      tryAttempt (S attempt) (ledger (S attempt)) = Throw e ->
      P attempt result ds (mkRun (Thrown e) (S attempt) ds)) ->
  (forall attempt result ds r d run,
      attempt < MAX_ATTEMPTS ->
      tryAttempt (S attempt) (ledger (S attempt)) = Continue r d ->
      P (S attempt) r (ds ++ [d]) run ->
      P attempt result ds run) ->
  forall fuel attempt result ds run,
    retryLoop fuel attempt result ds = Some run ->
    P attempt result ds run.
Proof.
  intros Hexit Hbreak Hthrow Hcont.
  induction fuel as [|fuel IH]; intros attempt result ds run;
    cbn [Worker.retryLoop];
    destruct (Nat.ltb_spec attempt MAX_ATTEMPTS) as [Lt|Ge];
    try discriminate;
    try (intros [= <-]; now apply Hexit).
  destruct (tryAttempt (S attempt) (ledger (S attempt))) as [r|r d|e] eqn:T.
  - intros [= <-]. now apply Hbreak.
  - intros E. eapply Hcont; eauto.
  - intros [= <-]. now apply Hthrow.
Qed.

(** What the three ways to leave the body of the loop say about the
    attempt. *)
Lemma tryAttempt_Continue (attempt : nat) (a : Attempt)
      (r : WorkerResult) (d : Z) :
  tryAttempt attempt a = Continue r d ->
  exists e m, a = Raises e /\ message e = Some m /\
              retryable e = true /\ attempt < MAX_ATTEMPTS /\
              r = failure (Some m) None /\ d = backoff attempt.
Proof.
  unfold Worker.tryAttempt. destruct a as [rc|e].
  - destruct (status rc =? 1)%Z; discriminate.
  - destruct (retryable e) eqn:R; cbn [andb];
      [destruct (Nat.ltb_spec attempt MAX_ATTEMPTS) as [Lt|Ge]|];
      destruct (message e) as [m|] eqn:M; try discriminate.
    intros [= <- <-]. exists e, m. repeat split; auto.
Qed.

Lemma tryAttempt_Break (attempt : nat) (a : Attempt) (r : WorkerResult) :
  tryAttempt attempt a = Break r ->
  (success r = true /\ amountDeposited r = amountOnSuccess) \/
  (success r = false /\ amountDeposited r = amountOnFailure).
Proof.
  unfold Worker.tryAttempt. destruct a as [rc|e].
  - destruct (status rc =? 1)%Z; intros [= <-]; auto.
  - destruct (retryable e && (attempt <? MAX_ATTEMPTS)%nat);
      destruct (message e); try discriminate.
    intros [= <-]. auto.
Qed.

Lemma tryAttempt_Throw (attempt : nat) (a : Attempt) (e' : JsError) :
  tryAttempt attempt a = Throw e' ->
  exists e, a = Raises e /\ message e = None.
Proof.
  unfold Worker.tryAttempt. destruct a as [rc|e].
  - destruct (status rc =? 1)%Z; discriminate.
  - destruct (retryable e && (attempt <? MAX_ATTEMPTS)%nat);
      destruct (message e) eqn:M; try discriminate; eauto.
Qed.

(** The budget bounds the attempts, an attempt is made whenever the
    budget allows one, and the delays are those of the attempts that were
    followed by another one. *)
Lemma retryLoop_trace (fuel attempt : nat) (result : WorkerResult)
      (ds : list Z) (run : Run) :
  retryLoop fuel attempt result ds = Some run ->
  attempt <= MAX_ATTEMPTS ->
  attempt <= attemptsUsed run <= MAX_ATTEMPTS /\
  (attempt < MAX_ATTEMPTS -> attempt < attemptsUsed run) /\
  delays run
  = ds ++ map backoff (seq (S attempt) (attemptsUsed run - S attempt)).
Proof.
  revert fuel attempt result ds run.
  apply (retryLoop_induction
           (fun attempt _ ds run =>
              attempt <= MAX_ATTEMPTS ->
              attempt <= attemptsUsed run <= MAX_ATTEMPTS /\
              (attempt < MAX_ATTEMPTS -> attempt < attemptsUsed run) /\
              delays run
              = ds ++ map backoff
                          (seq (S attempt) (attemptsUsed run - S attempt))));
    cbn [attemptsUsed delays].
  - intros attempt _ ds Ge Le.
    replace (attempt - S attempt) with 0 by lia.
    cbn [seq map]. rewrite app_nil_r. repeat split; lia.
  - intros attempt _ ds r Lt _ _. rewrite Nat.sub_diag.
    cbn [seq map]. rewrite app_nil_r. repeat split; lia.
  - intros attempt _ ds e Lt _ _. rewrite Nat.sub_diag.
    cbn [seq map]. rewrite app_nil_r. repeat split; lia.
  - intros attempt _ ds r d run Lt T IH _.
    apply tryAttempt_Continue in T.
    destruct T as (e & m & _ & _ & _ & Lt' & _ & ->).
    destruct IH as ((Lo & Hi) & Nx & Dl); [lia|].
    specialize (Nx Lt').
    repeat split; try lia.
    rewrite Dl, <- app_assoc. f_equal.
    replace (attemptsUsed run - S attempt)
      with (S (attemptsUsed run - S (S attempt))) by lia.
    reflexivity.
Qed.

(** A returned result is a success with the success amount or a failure
    with the failure amount. *)
Lemma retryLoop_result (fuel attempt : nat) (result : WorkerResult)
      (ds : list Z) (run : Run) (r : WorkerResult) :
  retryLoop fuel attempt result ds = Some run ->
  success result = false -> amountDeposited result = amountOnFailure ->
  completion run = Returned r ->
  (success r = true /\ amountDeposited r = amountOnSuccess) \/
  (success r = false /\ amountDeposited r = amountOnFailure).
Proof.
  revert fuel attempt result ds run.
  apply (retryLoop_induction
           (fun _ result _ run =>
              success result = false ->
              amountDeposited result = amountOnFailure ->
              completion run = Returned r ->
              (success r = true /\ amountDeposited r = amountOnSuccess) \/
              (success r = false /\ amountDeposited r = amountOnFailure)));
    cbn [completion].
  - intros _ result _ _ S0 A0 [= <-]. auto.
  - intros attempt _ _ r' _ T _ _ [= <-].
    exact (tryAttempt_Break _ _ _ T).
  - discriminate.
  - intros attempt _ _ r' d run _ T IH _ _.
    apply tryAttempt_Continue in T.
    destruct T as (e & m & _ & _ & _ & _ & -> & _).
    now apply IH.
Qed.

(** With errors that carry a message the worker returns a result. *)
Lemma retryLoop_returns (fuel attempt : nat) (result : WorkerResult)
      (ds : list Z) (run : Run) :
  carriesMessage ledger ->
  retryLoop fuel attempt result ds = Some run ->
  exists r, completion run = Returned r.
Proof.
  intros W. revert fuel attempt result ds run.
  apply (retryLoop_induction
           (fun _ _ _ run => exists r, completion run = Returned r));
    cbn [completion]; eauto.
  intros attempt _ _ e _ T. exfalso.
  apply tryAttempt_Throw in T. destruct T as (e0 & R & M).
  exact (W _ _ R M).
Qed.

(** The loop as a sequence of passes: every attempt before the last one
    continued, and the last one decides how the worker completes. *)
Lemma retryLoop_steps (fuel attempt : nat) (result : WorkerResult)
      (ds : list Z) (run : Run) :
  retryLoop fuel attempt result ds = Some run ->
  attempt < MAX_ATTEMPTS ->
  (forall n, attempt < n < attemptsUsed run ->
             exists r d, tryAttempt n (ledger n) = Continue r d) /\
  stopsWith (tryAttempt (attemptsUsed run) (ledger (attemptsUsed run)))
            (completion run).
Proof.
  revert fuel attempt result ds run.
  apply (retryLoop_induction
           (fun attempt _ _ run =>
              attempt < MAX_ATTEMPTS ->
              (forall n, attempt < n < attemptsUsed run ->
                         exists r d, tryAttempt n (ledger n) = Continue r d)
              /\ stopsWith
                   (tryAttempt (attemptsUsed run) (ledger (attemptsUsed run)))
                   (completion run)));
    cbn [attemptsUsed completion].
  - intros; lia.
  - intros attempt _ _ r _ T _. rewrite T. split; [intros; lia | reflexivity].
  - intros attempt _ _ e _ T _. rewrite T. split; [intros; lia | reflexivity].
  - intros attempt _ _ r d run _ T IH _.
    pose proof (tryAttempt_Continue _ _ _ _ T)
      as (e & m & _ & _ & _ & Lt' & _ & _).
    destruct (IH Lt') as [Cs St]. split; [|exact St].
    intros n Hn. destruct (Nat.eq_dec n (S attempt)) as [->|Ne].
    + eauto.
    + apply Cs. lia.
Qed.

End EngineFacts.

(** The test of the [catch] clause, spelled out on the lower-cased
    message. *)
Lemma retryable_spec (e : JsError) (m : string) :
  message e = Some m ->
  retryable e = true <->
  (code e = Some "NONCE_EXPIRED"%string \/
   includes (toLowerCase m) "nonce too low" = true \/
   includes (toLowerCase m) "nonce has already been used" = true \/
   includes (toLowerCase m) "replacement transaction underpriced" = true \/
   includes (toLowerCase m) "timeout" = true \/
   includes (toLowerCase m) "could not detect network" = true \/
   includes (toLowerCase m) "failed to detect network" = true \/
   includes (toLowerCase m) "network error" = true).
Proof.
  intros M. unfold retryable, isNonceError, isNetworkError, errorMessage,
    codeIs. rewrite M.
  assert (C : (match code e with
               | Some c' => String.eqb c' "NONCE_EXPIRED"
               | None => false
               end = true) <-> code e = Some "NONCE_EXPIRED"%string).
  { destruct (code e) as [c|]; [|split; discriminate].
    rewrite String.eqb_eq. split; [now intros -> | now intros [= ->]]. }
  rewrite !orb_true_iff, C. tauto.
Qed.

(** The characters of the decimal strings that [toString] builds. *)
Local Abbreviation decimalChars :=
  ["-"; "0"; "1"; "2"; "3"; "4"; "5"; "6"; "7"; "8"; "9"]%char.

Lemma trimStart_decimal (a : ascii) (s : string) :
  In a decimalChars -> trimStart (String a s) = String a s.
Proof.
  intros H.
  repeat (destruct H as [<-|H];
          [destruct s as [|b [|c s3]]; reflexivity|]).
  destruct H.
Qed.

Lemma trim_decimal (s : string) :
  Forall (fun c => In c decimalChars) (list_ascii_of_string s) ->
  trim s = s.
Proof.
  intros F. unfold trim.
  assert (T : trimEnd s = s).
  { induction s as [|a s IH]; [reflexivity|].
    cbn [list_ascii_of_string] in F.
    pose proof (Forall_inv F) as Ha. apply Forall_inv_tail in F.
    cbn [trimEnd]. rewrite (trimStart_decimal a s Ha).
    now rewrite (IH F). }
  destruct s as [|a s]; [reflexivity|].
  cbn [list_ascii_of_string] in F.
  now rewrite (trimStart_decimal a s (Forall_inv F)).
Qed.

Lemma string_of_uint_decimal (d : Decimal.uint) :
  Forall (fun c => In c decimalChars)
         (list_ascii_of_string (NilEmpty.string_of_uint d)).
Proof.
  induction d; cbn [NilEmpty.string_of_uint list_ascii_of_string];
    constructor; try assumption; cbn; tauto.
Qed.

Lemma string_of_int_decimal (d : Decimal.int) :
  Forall (fun c => In c decimalChars)
         (list_ascii_of_string (NilZero.string_of_int d)).
Proof.
  assert (U : forall u, Forall (fun c => In c decimalChars)
                          (list_ascii_of_string (NilZero.string_of_uint u))).
  { intros u. destruct u; try apply string_of_uint_decimal.
    cbn. constructor; [cbn; tauto | constructor]. }
  destruct d as [u|u]; cbn [NilZero.string_of_int list_ascii_of_string].
  - apply U.
  - constructor; [cbn; tauto | apply U].
Qed.

Lemma radixPrefix_decimal (s : string) :
  Forall (fun c => In c decimalChars) (list_ascii_of_string s) ->
  radixPrefix s = None.
Proof.
  destruct s as [|z [|p t]]; try reflexivity.
  cbn [list_ascii_of_string]. intros F.
  apply Forall_inv_tail, Forall_inv in F. unfold radixPrefix.
  destruct (negb (Ascii.eqb z "0")); [reflexivity|].
  repeat (destruct F as [<-|F]; [reflexivity|]). destruct F.
Qed.

Lemma signedInteger_decimal (s : string) :
  Forall (fun c => In c decimalChars) (list_ascii_of_string s) ->
  signedInteger s = option_map Z.of_int (NilZero.int_of_string s).
Proof.
  destruct s as [|a t]; [reflexivity|].
  cbn [list_ascii_of_string]. intros F. apply Forall_inv in F.
  unfold signedInteger.
  repeat (destruct F as [<-|F]; [reflexivity|]). destruct F.
Qed.

Lemma bigInt_roundtrip (z : Z) : bigIntOfString (bigIntToString z) = Some z.
Proof.
  unfold bigIntOfString, bigIntToString.
  pose proof (string_of_int_decimal (Z.to_int z)) as F.
  assert (E : option_map Z.of_int
                (NilZero.int_of_string (NilZero.string_of_int (Z.to_int z)))
              = Some z).
  { rewrite NilZero.isi.
    - simpl. f_equal. apply DecimalZ.of_to.
    - destruct z; simpl; intros [= E];
        exact (DecimalPos.Unsigned.to_uint_nonnil _ E).
    - destruct z; simpl; try discriminate. intros [= E].
      exact (DecimalPos.Unsigned.to_uint_nonnil _ E). }
  rewrite (trim_decimal _ F).
  destruct (NilZero.string_of_int (Z.to_int z)) as [|a t]; [discriminate E|].
  now rewrite (radixPrefix_decimal _ F), (signedInteger_decimal _ F).
Qed.

(** What [BigInt] accepts besides the strings that [toString] builds, and
    what it refuses. *)
Example bigInt_literals :
  map bigIntOfString
      [""; "  "; "+12"; " 12 "; "007"; "-0"; "0x1F"; "0o17"; "0b101"]%string
  = [Some 0; Some 0; Some 12; Some 12; Some 7; Some 0; Some 31; Some 15;
     Some 5]%Z /\
  map bigIntOfString
      ["abc"; "1.5"; "1e3"; "12n"; "-0x1F"; "+"; "0x"; "1 2"]%string
  = [None; None; None; None; None; None; None; None].
Proof. split; reflexivity. Qed.

(** Once its ethers objects are built, the exported function is
    [runWorker]. *)
Lemma moduleExports_built
      (MAX_ATTEMPTS : nat) (RETRY_DELAY_MS : Z)
      (amountOnSuccess amountOnFailure : option string) (wid tix : Z)
      (ledger : nat -> Attempt) (setUp : SetUp)
      (artifacts : string -> option string) (name : string) :
  signerBuilt setUp = Returned tt -> contractBuilt setUp = Returned tt ->
  moduleExports MAX_ATTEMPTS RETRY_DELAY_MS amountOnSuccess amountOnFailure
                wid tix ledger setUp artifacts name
  = runWorker MAX_ATTEMPTS RETRY_DELAY_MS amountOnSuccess amountOnFailure
              wid tix ledger artifacts name.
Proof.
  intros S C. unfold moduleExports, runWorker. rewrite S, C.
  now destruct (getContractAbi artifacts name).
Qed.

(** The worker function always completes, within its budget. *)
Lemma runWorker_total (MAX_ATTEMPTS : nat) (RETRY_DELAY_MS : Z)
      (amountOnSuccess amountOnFailure : option string) (wid tix : Z)
      (ledger : nat -> Attempt) (artifacts : string -> option string)
      (name : string) :
  exists run,
    runWorker MAX_ATTEMPTS RETRY_DELAY_MS amountOnSuccess amountOnFailure
              wid tix ledger artifacts name = Some run /\
    attemptsUsed run <= MAX_ATTEMPTS /\
    delays run
    = map (backoff RETRY_DELAY_MS) (seq 1 (attemptsUsed run - 1)).
Proof.
  unfold runWorker, getContractAbi. destruct (artifacts name) as [abi|].
  - destruct (retryLoop_total MAX_ATTEMPTS RETRY_DELAY_MS amountOnSuccess
                amountOnFailure wid tix ledger MAX_ATTEMPTS 0
                (defaultResult amountOnFailure wid tix) [])
      as [run E]; [lia|].
    exists run. split; [exact E|].
    destruct (retryLoop_trace _ _ _ _ _ _ _ _ _ _ _ _ E) as ((_ & Hi) & _ & D);
      [lia|].
    split; [exact Hi | exact D].
  - eexists. split; [reflexivity|]. simpl. split; [lia | reflexivity].
Qed.

(** With a loadable artifact and errors that carry a message, the worker
    function returns a result. *)
Lemma runWorker_returns
      (MAX_ATTEMPTS : nat) (RETRY_DELAY_MS : Z)
      (amountOnSuccess amountOnFailure : option string) (wid tix : Z)
      (ledger : nat -> Attempt) (artifacts : string -> option string)
      (name : string) :
  artifacts name <> None -> carriesMessage ledger ->
  exists run r,
    runWorker MAX_ATTEMPTS RETRY_DELAY_MS amountOnSuccess amountOnFailure
              wid tix ledger artifacts name = Some run /\
    completion run = Returned r.
Proof.
  intros A W.
  destruct (runWorker_total MAX_ATTEMPTS RETRY_DELAY_MS amountOnSuccess
              amountOnFailure wid tix ledger artifacts name)
    as (run & E & _ & _).
  pose proof E as E0. unfold runWorker, getContractAbi in E0.
  destruct (artifacts name) as [abi|]; [|congruence].
  destruct (retryLoop_returns _ _ _ _ _ _ _ _ _ _ _ _ W E0) as [r C].
  now exists run, r.
Qed.

(** ** The claims about the retry engine *)

(** How the attempts of a run are classified.  At every attempt [n] that
    is made: a receipt ends the run at that attempt, as a success when
    its status is 1 and as the failure "Transaction reverted with status
    0" otherwise, so a rejection is never retried; an error with a
    message of ASCII text is followed by another attempt if and only if
    its code is NONCE_EXPIRED or its message, converted to lower case,
    contains one of the seven phrases, and [n] is below [MAX_ATTEMPTS];
    any other such error ends the run at that attempt as a failure with
    that message. *)
Lemma retry_classification
        (MAX_ATTEMPTS : nat) (RETRY_DELAY_MS : Z)
        (amountOnSuccess amountOnFailure : option string) (wid tix : Z)
        (ledger : nat -> Attempt) (artifacts : string -> option string)
        (name : string) (run : Run) (n : nat) :
  runWorker MAX_ATTEMPTS RETRY_DELAY_MS amountOnSuccess amountOnFailure
            wid tix ledger artifacts name = Some run ->
  1 <= n <= attemptsUsed run ->
  match ledger n with
  | Confirms rc =>
      attemptsUsed run = n /\
      completion run
      = Returned
          (if (status rc =? 1)%Z
           then mkResult true None (Some (rhash rc)) wid tix amountOnSuccess
           else mkResult false (Some "Transaction reverted with status 0"%string)
                         (Some (rhash rc)) wid tix amountOnFailure)
  | Raises e =>
      forall m, message e = Some m -> isAscii m = true ->
        let conflictOrTransient :=
          code e = Some "NONCE_EXPIRED"%string \/
          includes (toLowerCase m) "nonce too low" = true \/
          includes (toLowerCase m) "nonce has already been used" = true \/
          includes (toLowerCase m) "replacement transaction underpriced" = true \/
          includes (toLowerCase m) "timeout" = true \/
          includes (toLowerCase m) "could not detect network" = true \/
          includes (toLowerCase m) "failed to detect network" = true \/
          includes (toLowerCase m) "network error" = true in
        (n < attemptsUsed run <-> conflictOrTransient /\ n < MAX_ATTEMPTS) /\
        (~ (conflictOrTransient /\ n < MAX_ATTEMPTS) ->
         attemptsUsed run = n /\
         completion run
         = Returned (mkResult false (Some m) None wid tix amountOnFailure))
  end.
Proof.
  unfold runWorker. destruct (getContractAbi artifacts name) as [abi|e0].
  2:{ intros [= <-]. simpl. lia. }
  intros E Hn.
  destruct (retryLoop_trace _ _ _ _ _ _ _ _ _ _ _ _ E) as ((_ & Hi) & _ & _);
    [lia|].
  destruct (retryLoop_steps _ _ _ _ _ _ _ _ _ _ _ _ E) as [Cs St]; [lia|].
  assert (Cn : n < attemptsUsed run ->
               exists r d, tryAttempt MAX_ATTEMPTS RETRY_DELAY_MS
                             amountOnSuccess amountOnFailure wid tix n
                             (ledger n) = Continue r d).
  { intros Lt. apply Cs. lia. }
  destruct (ledger n) as [rc|e] eqn:Ln.
  - assert (En : attemptsUsed run = n).
    { destruct (Nat.eq_dec (attemptsUsed run) n) as [|Ne]; [assumption|].
      destruct Cn as (r & d & T); [lia|].
      apply tryAttempt_Continue in T. destruct T as (e & m & [=] & _). }
    split; [exact En|]. rewrite En, Ln in St. unfold tryAttempt in St.
    destruct (status rc =? 1)%Z; exact St.
  - intros m M _.
    pose proof (retryable_spec e m M) as RS.
    set (conflictOrTransient := code e = _ \/ _) in *.
    assert (Go : conflictOrTransient /\ n < MAX_ATTEMPTS ->
                 n < attemptsUsed run).
    { intros [CT Lt]. apply RS in CT.
      destruct (Nat.eq_dec (attemptsUsed run) n) as [En|Ne]; [|lia].
      exfalso. rewrite En, Ln in St. unfold tryAttempt in St.
      rewrite CT, M, (proj2 (Nat.ltb_lt _ _) Lt) in St. exact St. }
    split; [split; [|exact Go] |].
    + intros Lt. destruct (Cn Lt) as (r & d & T).
      apply tryAttempt_Continue in T.
      destruct T as (e' & m' & [= <-] & _ & R & Lt' & _).
      split; [now apply RS | exact Lt'].
    + intros No.
      assert (En : attemptsUsed run = n).
      { destruct (Nat.eq_dec (attemptsUsed run) n) as [|Ne]; [assumption|].
        exfalso. destruct Cn as (r & d & T); [lia|].
        apply tryAttempt_Continue in T.
        destruct T as (e' & m' & [= <-] & _ & R & Lt' & _).
        apply No. split; [now apply RS | exact Lt']. }
      split; [exact En|]. rewrite En, Ln in St. unfold tryAttempt in St.
      rewrite M in St.
      destruct (retryable e && (n <? MAX_ATTEMPTS)%nat) eqn:Cd; [|exact St].
      exfalso. apply andb_true_iff in Cd. destruct Cd as [R Lt].
      apply No. split; [now apply RS | now apply Nat.ltb_lt].
Qed.

(** C4. The claim has an error with the code NONCE_EXPIRED retried while
    the budget lasts.  The [catch] clause guards [error.message] where
    it builds [errorMessage], and not where it logs
    [error.message.split(...)]: with an error that has the code
    NONCE_EXPIRED and no message the test of the [if] holds at attempt 1
    of 100 (1000 in the deposit worker), and both workers throw a
    TypeError out of the [catch] clause instead of sleeping and making a
    second attempt, which here would be confirmed. *)
Lemma nonce_conflict_without_message_is_not_retried :
  let e := mkError (Some "NONCE_EXPIRED"%string) None in
  let ledger := fun n => if n =? 1 then Raises e
                         else Confirms (mkReceipt 1 "0xa1") in
  let arts := fun _ : string => Some "[]"%string in
  retryable e = true /\
  tryAttempt 100 1000 None None 0 0 1 (ledger 1) = Throw typeError /\
  workerBenchmark 0 0 ledger arts "Counter"
  = Some (mkRun (Thrown typeError) 1 []) /\
  workerAccountBalance 5 0 0 ledger arts "AccountBalance"
  = Some (mkRun (Thrown typeError) 1 []).
Proof. repeat split; reflexivity. Qed.

(** The budget bounds every run: either worker function completes after
    at most [MAX_ATTEMPTS] passes through its retry loop, whatever the
    ledger client does at each attempt; and when the artifact can be
    loaded and the errors raised carry a message, it completes by
    returning a result object. *)
Lemma retry_bound_and_termination
        (MAX_ATTEMPTS : nat) (RETRY_DELAY_MS : Z)
        (amountOnSuccess amountOnFailure : option string) (wid tix : Z)
        (ledger : nat -> Attempt) (artifacts : string -> option string)
        (name : string) :
  exists run,
    runWorker MAX_ATTEMPTS RETRY_DELAY_MS amountOnSuccess amountOnFailure
              wid tix ledger artifacts name = Some run /\
    attemptsUsed run <= MAX_ATTEMPTS /\
    (artifacts name <> None -> carriesMessage ledger ->
     exists r, completion run = Returned r).
Proof.
  destruct (runWorker_total MAX_ATTEMPTS RETRY_DELAY_MS amountOnSuccess
              amountOnFailure wid tix ledger artifacts name)
    as (run & E & Hi & _).
  exists run. split; [exact E|]. split; [exact Hi|].
  intros A W. unfold runWorker, getContractAbi in E.
  destruct (artifacts name) as [abi|]; [|congruence].
  exact (retryLoop_returns _ _ _ _ _ _ _ _ _ _ _ _ W E).
Qed.

(** C5. The claim has the retry loop always reach a terminal outcome.
    With an error that has no message the [else] branch of the [catch]
    clause throws at [error.message.split(...)] before it assigns
    [result]: after a nonce conflict at attempt 1, which is retried, an
    error without a message at attempt 2 makes the worker function throw
    a TypeError; no result object is returned, the promise of the task
    rejects, and [main] ends without its report. *)
Lemma error_without_message_leaves_no_outcome :
  let ledger := fun n =>
    if n =? 1 then Raises (mkError None (Some "nonce too low"%string))
    else Raises (mkError (Some "UNKNOWN_ERROR"%string) None) in
  let arts := fun _ : string => Some "[]"%string in
  let run := mkRun (Thrown typeError) 2 [1000%Z] in
  workerBenchmark 0 0 ledger arts "Counter" = Some run /\
  (forall r, completion run <> Returned r) /\
  Harness.delivered run = Thrown typeError /\
  Harness.mainPool 0 [Harness.delivered run] (Returned tt) (Returned 0%Z)
  = Thrown typeError.
Proof. repeat split; try reflexivity. intros r. discriminate. Qed.

Lemma backoff_monotone (RETRY_DELAY_MS : Z) (j k : nat) :
  (0 <= RETRY_DELAY_MS)%Z -> 1 <= j <= k ->
  (backoff RETRY_DELAY_MS j <= backoff RETRY_DELAY_MS k)%Z.
Proof.
  intros B Hjk. unfold backoff.
  apply Z.mul_le_mono_nonneg_l; [exact B|].
  apply Z.pow_le_mono_r; lia.
Qed.

(** Both configured base delays are 125 times a power of two, and so is
    every delay computed from them: the product that [Math.pow] and the
    multiplication form in double precision is the exact one. *)
Lemma backoff_dyadic (attempt : nat) :
  1 <= attempt ->
  backoff 1000 attempt = (125 * 2 ^ (Z.of_nat attempt + 2))%Z /\
  backoff 2000 attempt = (125 * 2 ^ (Z.of_nat attempt + 3))%Z.
Proof.
  intros H. unfold backoff.
  replace (Z.of_nat attempt + 2)%Z with (3 + (Z.of_nat attempt - 1))%Z by lia.
  replace (Z.of_nat attempt + 3)%Z with (4 + (Z.of_nat attempt - 1))%Z by lia.
  rewrite !Z.pow_add_r by lia. split; lia.
Qed.

(** The delays that a run computes and passes to [setTimeout]: after
    every attempt [k] that is followed by another attempt the argument is
    [RETRY_DELAY_MS * 2 ^ (k - 1)], these are all the delays of the run,
    and with a base delay that is not negative each is at most the
    next one. *)
Lemma backoff_exact_and_monotone
        (MAX_ATTEMPTS : nat) (RETRY_DELAY_MS : Z)
        (amountOnSuccess amountOnFailure : option string) (wid tix : Z)
        (ledger : nat -> Attempt) (artifacts : string -> option string)
        (name : string) (run : Run) :
  runWorker MAX_ATTEMPTS RETRY_DELAY_MS amountOnSuccess amountOnFailure
            wid tix ledger artifacts name = Some run ->
  (forall k, 1 <= k < attemptsUsed run ->
     nth_error (delays run) (k - 1)
     = Some (RETRY_DELAY_MS * 2 ^ (Z.of_nat k - 1))%Z) /\
  List.length (delays run) = attemptsUsed run - 1 /\
  ((0 <= RETRY_DELAY_MS)%Z ->
   forall i d1 d2,
     nth_error (delays run) i = Some d1 ->
     nth_error (delays run) (S i) = Some d2 ->
     (d1 <= d2)%Z).
Proof.
  intros E.
  destruct (runWorker_total MAX_ATTEMPTS RETRY_DELAY_MS amountOnSuccess
              amountOnFailure wid tix ledger artifacts name)
    as (run' & E' & _ & D).
  rewrite E in E'. injection E' as <-.
  assert (Nth : forall i, nth_error (delays run) i
                          = if i <? attemptsUsed run - 1
                            then Some (backoff RETRY_DELAY_MS (S i))
                            else None).
  { intros i. rewrite D, nth_error_map, nth_error_seq.
    now destruct (i <? attemptsUsed run - 1). }
  repeat split.
  - intros k Hk. rewrite Nth.
    destruct (Nat.ltb_spec (k - 1) (attemptsUsed run - 1)); [|lia].
    replace (S (k - 1)) with k by lia. reflexivity.
  - rewrite D, length_map, length_seq. reflexivity.
  - intros B i d1 d2. rewrite !Nth.
    destruct (i <? attemptsUsed run - 1); [|discriminate].
    destruct (S i <? attemptsUsed run - 1); [|discriminate].
    intros [= <-] [= <-]. apply backoff_monotone; [exact B | lia].
Qed.

(** While every delay that a run computes is between 1 ms and
    [TIMEOUT_MAX], the timer sleeps for the delay it is given. *)
Lemma waits_within_timer
      (MAX_ATTEMPTS : nat) (RETRY_DELAY_MS : Z)
      (amountOnSuccess amountOnFailure : option string) (wid tix : Z)
      (ledger : nat -> Attempt) (artifacts : string -> option string)
      (name : string) (run : Run) :
  runWorker MAX_ATTEMPTS RETRY_DELAY_MS amountOnSuccess amountOnFailure
            wid tix ledger artifacts name = Some run ->
  (1 <= RETRY_DELAY_MS)%Z ->
  (RETRY_DELAY_MS * 2 ^ (Z.of_nat (attemptsUsed run) - 2) <= TIMEOUT_MAX)%Z ->
  waits run = delays run.
Proof.
  intros E B T.
  destruct (runWorker_total MAX_ATTEMPTS RETRY_DELAY_MS amountOnSuccess
              amountOnFailure wid tix ledger artifacts name)
    as (run' & E' & _ & D).
  rewrite E in E'. injection E' as <-.
  unfold waits. rewrite D, map_map. apply map_ext_in.
  intros k Hk. apply in_seq in Hk. unfold setTimeout, backoff.
  assert (P : (1 <= 2 ^ (Z.of_nat k - 1))%Z)
    by (apply (Z.pow_le_mono_r 2 0); lia).
  assert (Q : (2 ^ (Z.of_nat k - 1)
               <= 2 ^ (Z.of_nat (attemptsUsed run) - 2))%Z)
    by (apply Z.pow_le_mono_r; lia).
  rewrite (proj2 (Z.leb_le _ _)) by nia.
  rewrite (proj2 (Z.leb_le _ _)) by nia.
  reflexivity.
Qed.

(** C6. The claim has the delay inserted after attempt [k] equal to
    [RETRY_DELAY_MS * 2 ^ (k - 1)] and the delays non-decreasing.  The
    worker computes that number, logs "Retrying in ...ms" with it and
    passes it to [setTimeout], whose timer replaces a delay above
    2^31 - 1 ms by 1 ms.  With the increment worker (base 1000, budget
    100) the delay computed after attempt 23 is 4194304000, so the worker
    sleeps 1 ms where it slept 2097152000 ms after attempt 22; with the
    deposit worker (base 2000, budget 1000) the same happens after
    attempt 22. *)
Lemma backoff_exceeds_the_timer :
  let busy := fun last n =>
    if n <=? last then Raises (mkError None (Some "timeout"%string))
    else Confirms (mkReceipt 1 "0xd4") in
  let arts := fun _ : string => Some "[]"%string in
  (exists run,
     workerBenchmark 0 0 (busy 23) arts "Counter" = Some run /\
     attemptsUsed run = 24 /\
     nth_error (delays run) 21 = Some 2097152000%Z /\
     nth_error (waits run) 21 = Some 2097152000%Z /\
     nth_error (delays run) 22 = Some (1000 * 2 ^ 22)%Z /\
     nth_error (waits run) 22 = Some 1%Z) /\
  (exists run,
     workerAccountBalance 5 0 0 (busy 22) arts "AccountBalance" = Some run /\
     attemptsUsed run = 23 /\
     nth_error (delays run) 20 = Some 2097152000%Z /\
     nth_error (waits run) 20 = Some 2097152000%Z /\
     nth_error (delays run) 21 = Some (2000 * 2 ^ 21)%Z /\
     nth_error (waits run) 21 = Some 1%Z).
Proof.
  split; eexists; (split; [vm_compute; reflexivity|]);
    repeat split; reflexivity.
Qed.

(* ===================================================================== *)
(** * 6. Facts about aggregation and verification                         *)
(* ===================================================================== *)

Import Harness.

Local Open Scope Z_scope.

Lemma counts_cover (results : list WorkerValue) :
  successCount results + failureCount results
  = Z.of_nat (List.length results).
Proof.
  unfold successCount, failureCount.
  rewrite <- Nat2Z.inj_add. f_equal. apply filter_split_length.
Qed.

Lemma successCount_cons (v : WorkerValue) (results : list WorkerValue) :
  successCount (v :: results)
  = (if isSuccess v then 1 else 0) + successCount results.
Proof.
  unfold successCount. cbn [filter].
  destruct (isSuccess v); cbn [List.length]; lia.
Qed.

Lemma failureCount_cons (v : WorkerValue) (results : list WorkerValue) :
  failureCount (v :: results)
  = (if isSuccess v then 0 else 1) + failureCount results.
Proof.
  unfold failureCount. cbn [filter].
  destruct (isSuccess v); cbn [negb List.length]; lia.
Qed.

Lemma aggregateEffect_cons (effect : WorkerValue -> Z) (v : WorkerValue)
      (results : list WorkerValue) :
  aggregateEffect effect (v :: results)
  = (if isSuccess v then effect v else 0) + aggregateEffect effect results.
Proof.
  unfold aggregateEffect. cbn [filter].
  destruct (isSuccess v); cbn [map fold_right]; lia.
Qed.

Lemma aggregate_increments (results : list WorkerValue) :
  aggregateEffect incrementEffect results = successCount results.
Proof.
  induction results as [|v results IH].
  - reflexivity.
  - rewrite aggregateEffect_cons, successCount_cons, IH.
    unfold incrementEffect. reflexivity.
Qed.

Lemma fold_countIncrement (results : list WorkerValue) :
  forall t,
    fold_left countIncrement results t
    = mkTally (totalSuccessful t + successCount results)
              (totalFailed t + failureCount results)
              (totalAmountWei t).
Proof.
  induction results as [|v results IH]; intros t.
  - destruct t. cbn. f_equal; unfold successCount, failureCount; cbn; lia.
  - cbn [fold_left]. rewrite IH, successCount_cons, failureCount_cons.
    destruct v as [|r]; cbn [countIncrement isSuccess];
      [|destruct (success r)]; cbn [totalSuccessful totalFailed totalAmountWei];
      f_equal; lia.
Qed.

Lemma fold_countDeposit_None (results : list WorkerValue) :
  fold_left countDeposit results None = None.
Proof. induction results; [reflexivity | assumption]. Qed.

Lemma fold_countDeposit (results : list WorkerValue) :
  forall t t',
    fold_left countDeposit results (Some t) = Some t' ->
    t' = mkTally (totalSuccessful t + successCount results)
                 (totalFailed t + failureCount results)
                 (totalAmountWei t + aggregateEffect depositEffect results).
Proof.
  induction results as [|v results IH]; intros t t'.
  - intros [= <-]. destruct t. cbn.
    f_equal; unfold successCount, failureCount, aggregateEffect; cbn; lia.
  - cbn [fold_left].
    destruct (countDeposit (Some t) v) as [t1|] eqn:C;
      [|rewrite fold_countDeposit_None; discriminate].
    intros E. rewrite (IH _ _ E).
    rewrite successCount_cons, failureCount_cons, aggregateEffect_cons.
    revert C. cbn [countDeposit]. destruct v as [|r]; cbn [isSuccess].
    + intros [= <-]. cbn [totalSuccessful totalFailed totalAmountWei].
      f_equal; lia.
    + destruct (success r).
      * cbn [depositEffect]. destruct (amountDeposited r) as [a|];
          [|discriminate].
        destruct (bigIntOfString a) as [z|]; [|discriminate].
        intros [= <-]. cbn [totalSuccessful totalFailed totalAmountWei].
      f_equal; lia.
      * intros [= <-]. cbn [totalSuccessful totalFailed totalAmountWei].
      f_equal; lia.
Qed.

Lemma processIncrements_spec (results : list WorkerValue) :
  processIncrements results
  = mkTally (successCount results) (failureCount results) 0.
Proof. unfold processIncrements. now rewrite fold_countIncrement. Qed.

Lemma processDeposits_spec (results : list WorkerValue) (t : Tally) :
  processDeposits results = Some t ->
  t = mkTally (successCount results) (failureCount results)
              (aggregateEffect depositEffect results).
Proof. intros E. now apply fold_countDeposit in E. Qed.

Lemma promiseAll_length {A : Type} (ps : list (Completion A)) :
  forall l, promiseAll ps = Returned l -> List.length l = List.length ps.
Proof.
  induction ps as [|p ps IH]; cbn [promiseAll]; intros l.
  - now intros [= <-].
  - destruct p as [a|e]; [|discriminate].
    destruct (promiseAll ps) as [l0|e]; [|discriminate].
    intros [= <-]. cbn. f_equal. now apply IH.
Qed.

Lemma promiseAll_Returned {A : Type} (vs : list A) :
  promiseAll (map Returned vs) = Returned vs.
Proof.
  induction vs as [|v vs IH]; cbn [map promiseAll];
    [reflexivity | now rewrite IH].
Qed.

(** What a worker returns carries the amount that goes with its
    [success] flag. *)
Lemma runWorker_result
      (MAX_ATTEMPTS : nat) (RETRY_DELAY_MS : Z)
      (amountOnSuccess amountOnFailure : option string) (wid tix : Z)
      (ledger : nat -> Attempt) (artifacts : string -> option string)
      (name : string) (run : Run) (r : WorkerResult) :
  runWorker MAX_ATTEMPTS RETRY_DELAY_MS amountOnSuccess amountOnFailure
            wid tix ledger artifacts name = Some run ->
  completion run = Returned r ->
  (success r = true /\ amountDeposited r = amountOnSuccess) \/
  (success r = false /\ amountDeposited r = amountOnFailure).
Proof.
  unfold runWorker. destruct (getContractAbi artifacts name) as [abi|e].
  - intros E. now apply (retryLoop_result _ _ _ _ _ _ _ _ _ _ _ _ _ E).
  - intros [= <-]. discriminate.
Qed.

Lemma tryAttempt_success
      (MAX_ATTEMPTS : nat) (RETRY_DELAY_MS : Z)
      (amountOnSuccess amountOnFailure : option string) (wid tix : Z)
      (attempt : nat) (a : Attempt) (r : WorkerResult) :
  tryAttempt MAX_ATTEMPTS RETRY_DELAY_MS amountOnSuccess amountOnFailure
             wid tix attempt a = Break r ->
  success r = true ->
  exists rc, a = Confirms rc /\ status rc = 1.
Proof.
  unfold tryAttempt. destruct a as [rc|e].
  - destruct (Z.eqb_spec (status rc) 1) as [E|E]; intros [= <-]; [eauto|].
    discriminate.
  - destruct (retryable e && (attempt <? MAX_ATTEMPTS)%nat);
      destruct (message e); try discriminate.
    intros [= <-]. discriminate.
Qed.

(** A result that reports success comes from a receipt with status 1. *)
Lemma retryLoop_success
      (MAX_ATTEMPTS : nat) (RETRY_DELAY_MS : Z)
      (amountOnSuccess amountOnFailure : option string) (wid tix : Z)
      (ledger : nat -> Attempt) (r : WorkerResult) :
  forall fuel attempt result ds run,
    retryLoop MAX_ATTEMPTS RETRY_DELAY_MS amountOnSuccess amountOnFailure
              wid tix ledger fuel attempt result ds = Some run ->
    success result = false ->
    completion run = Returned r -> success r = true ->
    exists n rc, ledger n = Confirms rc /\ status rc = 1.
Proof.
  apply (retryLoop_induction MAX_ATTEMPTS RETRY_DELAY_MS amountOnSuccess
           amountOnFailure wid tix ledger
           (fun _ result _ run =>
              success result = false ->
              completion run = Returned r -> success r = true ->
              exists n rc, ledger n = Confirms rc /\ status rc = 1));
    cbn [completion].
  - intros _ result _ _ F [= <-]. congruence.
  - intros attempt _ _ r' _ T _ [= <-] S1.
    destruct (tryAttempt_success _ _ _ _ _ _ _ _ _ T S1) as (rc & L & St).
    eauto.
  - discriminate.
  - intros attempt _ _ r' d run _ T IH _.
    apply tryAttempt_Continue in T.
    destruct T as (e & m & _ & _ & _ & _ & -> & _).
    now apply IH.
Qed.

Lemma runWorker_success
      (MAX_ATTEMPTS : nat) (RETRY_DELAY_MS : Z)
      (amountOnSuccess amountOnFailure : option string) (wid tix : Z)
      (ledger : nat -> Attempt) (artifacts : string -> option string)
      (name : string) (run : Run) (r : WorkerResult) :
  runWorker MAX_ATTEMPTS RETRY_DELAY_MS amountOnSuccess amountOnFailure
            wid tix ledger artifacts name = Some run ->
  completion run = Returned r ->
  success r = true ->
  exists n rc, ledger n = Confirms rc /\ status rc = 1.
Proof.
  unfold runWorker. destruct (getContractAbi artifacts name) as [abi|e].
  - intros E. now apply (retryLoop_success _ _ _ _ _ _ _ _ _ _ _ _ _ E).
  - intros [= <-]. discriminate.
Qed.

Lemma depositOutcome_inv (depositAmountWei : Z) (v : WorkerValue) :
  depositOutcome depositAmountWei v ->
  exists r, v = Result r /\
    ((success r = true /\
      amountDeposited r = Some (bigIntToString depositAmountWei)) \/
     (success r = false /\ amountDeposited r = Some "0"%string)).
Proof.
  intros (wid & tix & ledger & artifacts & name & run & E & D).
  unfold delivered in D.
  destruct (completion run) as [r|e] eqn:C; [|discriminate].
  injection D as <-. exists r. split; [reflexivity|].
  exact (runWorker_result _ _ _ _ _ _ _ _ _ _ _ E C).
Qed.

Lemma fold_deposits_of_workers (depositAmountWei : Z)
      (results : list WorkerValue) :
  Forall (depositOutcome depositAmountWei) results ->
  forall t,
    fold_left countDeposit results (Some t)
    = Some (mkTally (totalSuccessful t + successCount results)
                    (totalFailed t + failureCount results)
                    (totalAmountWei t
                     + depositAmountWei * successCount results)).
Proof.
  induction 1 as [|v results Hv _ IH]; intros t.
  - destruct t. cbn [fold_left]. f_equal.
    unfold successCount, failureCount. cbn. f_equal; lia.
  - cbn [fold_left].
    destruct (depositOutcome_inv _ _ Hv) as (r & -> & [[S A]|[S A]]);
      cbn [countDeposit]; rewrite S, ?A, ?bigInt_roundtrip;
      rewrite IH, successCount_cons, failureCount_cons;
      cbn [isSuccess]; rewrite S;
      cbn [totalSuccessful totalFailed totalAmountWei];
      do 2 f_equal; lia.
Qed.

(** ** The claims about aggregation and verification *)

(** C9. A result object returned by the deposit worker has
    [amountDeposited] equal to the string "0" when [success] is false and
    to [depositAmountWei.toString()], which [BigInt] reads back as
    [depositAmountWei], when [success] is true; and over results that all
    come from deposit workers with the same [depositAmountWei] the total
    that [main] accumulates is [depositAmountWei] times the number of
    successful results. *)
Theorem deposit_amounts (depositAmountWei : Z) :
  (forall wid tix ledger artifacts name run r,
      workerAccountBalance depositAmountWei wid tix ledger artifacts name
      = Some run ->
      completion run = Returned r ->
      (success r = false -> amountDeposited r = Some "0"%string) /\
      (success r = true ->
       amountDeposited r = Some (bigIntToString depositAmountWei) /\
       bigIntOfString (bigIntToString depositAmountWei)
       = Some depositAmountWei)) /\
  (forall results,
      Forall (depositOutcome depositAmountWei) results ->
      exists t,
        processDeposits results = Some t /\
        totalSuccessful t = successCount results /\
        totalAmountWei t = depositAmountWei * successCount results).
Proof.
  split.
  - intros wid tix ledger artifacts name run r E C.
    destruct (runWorker_result _ _ _ _ _ _ _ _ _ _ _ E C) as [[S A]|[S A]];
      rewrite S, A; split; intros; try discriminate; try reflexivity.
    split; [reflexivity | apply bigInt_roundtrip].
  - intros results F. eexists. split.
    + unfold processDeposits. apply (fold_deposits_of_workers _ _ F).
    + cbn. split; reflexivity.
Qed.

(** The theorem at one successful and one reverted deposit of 10 wei. *)
Lemma deposit_amounts_witness :
  let arts := fun _ : string => Some "[]"%string in
  let good := fun _ : nat => Confirms (mkReceipt 1 "0xf6") in
  let bad := fun _ : nat => Confirms (mkReceipt 0 "0xf7") in
  exists t,
    processDeposits
      [Result (mkResult true None (Some "0xf6"%string) 0 0 (Some "10"%string));
       Result (mkResult false
                 (Some "Transaction reverted with status 0"%string)
                 (Some "0xf7"%string) 1 1 (Some "0"%string))]
    = Some t /\
    totalAmountWei t = 10 * 1.
Proof.
  intros arts good bad.
  destruct (proj2 (deposit_amounts 10)
              [Result (mkResult true None (Some "0xf6"%string) 0 0
                                (Some "10"%string));
               Result (mkResult false
                         (Some "Transaction reverted with status 0"%string)
                         (Some "0xf7"%string) 1 1 (Some "0"%string))])
    as (t & P & _ & A).
  - constructor; [|constructor; [|constructor]].
    + exists 0, 0, good, arts, "AccountBalance"%string. eexists.
      split; reflexivity.
    + exists 1, 1, bad, arts, "AccountBalance"%string. eexists.
      split; reflexivity.
  - exists t. split; [exact P | exact A].
Defined.

(** C2. Once a run is complete every task is counted exactly once, as a
    success or as a failure.  In the single-process scheduler, when the
    promise is resolved, [results.length + errors] is the number of
    tasks, the handlers that ran are those of the tasks 0 to
    [totalTasks - 1], each once, the successes being the [then] handlers
    and the errors the [catch] handlers, and the two counts that [main]
    reports add up to the number of tasks.  In the two worker-pool
    benchmarks, when [Promise.all] fulfils and [main] reports, the
    successes and failures it reports add up to the number of task
    promises. *)
Theorem conservation :
  (forall totalTasks limit s,
      reachable totalTasks limit s -> resolved s = true ->
      (List.length (results s) + errors s = totalTasks)%nat /\
      Permutation (map fst (settledLog s)) (seq 0 totalTasks) /\
      List.length (results s) = List.length (filter snd (settledLog s)) /\
      errors s
      = List.length (filter (fun p => negb (snd p)) (settledLog s)) /\
      forall initialCount l,
        let rep :=
          fst (verifyConcurrent totalTasks initialCount (results s) l) in
        reportedSuccess rep + reportedFailures rep = Z.of_nat totalTasks /\
        reportedFailures rep = Z.of_nat (errors s)) /\
  (forall initialCount tasks l rep l',
      runPool initialCount tasks l = Returned (rep, l') ->
      reportedSuccess rep + reportedFailures rep
      = Z.of_nat (List.length tasks)) /\
  (forall initialBalance tasks l rep l',
      runDepositPool initialBalance tasks l = Returned (rep, l') ->
      reportedSuccess rep + reportedFailures rep
      = Z.of_nat (List.length tasks)).
Proof.
  split; [|split].
  - intros totalTasks limit s R Rs.
    destruct (reachable_Inv _ _ _ R) as [H _].
    destruct (resolved_all_started _ _ _ H Rs) as [Ix P].
    pose proof (Inv_counted _ _ H) as Cn.
    pose proof (inv_resolved H Rs) as T.
    pose proof (inv_perm H) as Pm. rewrite P, Ix in Pm. simpl in Pm.
    repeat split.
    + lia.
    + exact Pm.
    + apply (inv_results H).
    + apply (inv_errors H).
    + cbn. lia.
    + cbn. lia.
  - intros initialCount tasks l rep l'. unfold runPool.
    destruct (promiseAll tasks) as [results|e] eqn:PA; [|discriminate].
    apply promiseAll_length in PA. unfold verifyIncrements.
    rewrite processIncrements_spec. cbn. intros [= <- _]. cbn.
    rewrite counts_cover. now rewrite PA.
  - intros initialBalance tasks l rep l'. unfold runDepositPool.
    destruct (promiseAll tasks) as [results|e] eqn:PA; [|discriminate].
    apply promiseAll_length in PA. unfold verifyDeposits.
    destruct (processDeposits results) as [t|] eqn:PD; [|discriminate].
    apply processDeposits_spec in PD. subst t. cbn. intros [= <- _]. cbn.
    rewrite counts_cover. now rewrite PA.
Qed.

(** The theorem at the end of a run of two tasks with limit 1, the
    first fulfilled and the second rejected. *)
Lemma conservation_witness :
  let s := mkState [true] 1 0 2 true [] [] [(0%nat, true); (1%nat, false)]
                   [0; 1]%nat in
  (List.length (results s) + errors s = 2)%nat.
Proof.
  intros s.
  apply (proj1 conservation 2%nat 1 s).
  - exists [Settle 0 true; Finally 0; Settle 1 false; Finally 1].
    reflexivity.
  - reflexivity.
Defined.

(** C3. The verification step of the two worker-pool benchmarks computes
    the expected state as the initial state plus the aggregate effect,
    the sum, over exactly the results counted as successes, of 1 for an
    increment and of [BigInt(res.amountDeposited)] for a deposit; it
    reports success if and only if the state read from the chain after
    the run equals that expected state; and the chain state it is given
    is the chain state it leaves. *)
Theorem verification_identity :
  (forall initialCount results l,
      let out := verifyIncrements initialCount results l in
      expectedState (fst out)
      = initialCount + aggregateEffect incrementEffect results /\
      finalState (fst out) = counterCount l /\
      (verified (fst out) = true <->
       counterCount l = expectedState (fst out)) /\
      snd out = l) /\
  (forall initialBalance results l rep l',
      verifyDeposits initialBalance results l = Some (rep, l') ->
      expectedState rep
      = initialBalance + aggregateEffect depositEffect results /\
      totalDeposited rep = aggregateEffect depositEffect results /\
      finalState rep = contractBalance l /\
      (verified rep = true <-> contractBalance l = expectedState rep) /\
      l' = l).
Proof.
  split.
  - intros initialCount results l out. subst out. unfold verifyIncrements.
    rewrite processIncrements_spec, aggregate_increments.
    cbn. rewrite Z.eqb_eq. tauto.
  - intros initialBalance results l rep l'. unfold verifyDeposits.
    destruct (processDeposits results) as [t|] eqn:PD; [|discriminate].
    apply processDeposits_spec in PD. subst t. cbn. intros [= <- <-].
    cbn. rewrite Z.eqb_eq. tauto.
Qed.

(** The theorem at three results, one of them a success of 25 wei, on a
    contract that held 100 wei before the run and 125 after it. *)
Lemma verification_identity_witness :
  let results :=
    [Result (mkResult true None (Some "0xa8"%string) 0 0 (Some "25"%string));
     Result (mkResult false (Some "timeout"%string) None 1 1
                      (Some "0"%string));
     Unexpected] in
  let out := (mkReport 1 2 25 125 125 true, mkLedger 0 125) in
  expectedState (fst out) = 100 + aggregateEffect depositEffect results /\
  (verified (fst out) = true <-> 125 = expectedState (fst out)).
Proof.
  intros results out.
  destruct (proj2 verification_identity 100 results (mkLedger 0 125)
              (fst out) (snd out) eq_refl) as (E & _ & _ & V & _).
  split; [exact E | exact V].
Defined.

(** C8 as stated fails: when the artifact of the contract cannot be
    loaded, the error that the worker function raises is not turned into
    a result; the worker's promise rejects, [Promise.all] rejects with it
    and [main] is left without a report. *)
Lemma missing_artifact_escapes :
  let e := mkError None (Some "Could not load ABI for Counter."%string) in
  let run := mkRun (Thrown e) 0 [] in
  workerBenchmark 0 0 (fun _ => Confirms (mkReceipt 1 "0xe5"))
                  (fun _ => None) "Counter" = Some run /\
  runPool 0 [delivered run] (mkLedger 0 0) = Thrown e.
Proof. split; reflexivity. Qed.

(** The closure variables of a run with reasons are those of the run of
    [Scheduler] on the same handlers. *)
Lemma reasons_exec_plain (totalTasks : nat) (limit : Z)
      (es : list Reasons.event) :
  forall s s',
    Reasons.exec totalTasks limit s es = Some s' ->
    exec totalTasks limit (Reasons.closure s) (map Reasons.plain es)
    = Some (Reasons.closure s').
Proof.
  induction es as [|e es IH]; intros s s'; cbn [Reasons.exec map exec].
  - now intros [= <-].
  - unfold Reasons.step.
    destruct (step totalTasks limit (Reasons.closure s) (Reasons.plain e))
      as [c|]; [|discriminate].
    intros E. apply IH in E. now destruct e.
Qed.

(** With reasons that carry a message no [catch] handler throws, and no
    rejection is left without a handler. *)
Lemma reasons_handled (totalTasks : nat) (limit : Z)
      (es : list Reasons.event) :
  forall s s',
    Reasons.exec totalTasks limit s es = Some s' ->
    Reasons.reasonsCarryMessage es ->
    Reasons.thrown s = [] -> Reasons.unhandled s = [] ->
    Reasons.thrown s' = [] /\ Reasons.unhandled s' = [].
Proof.
  induction es as [|e es IH]; intros s s'; cbn [Reasons.exec].
  - intros [= <-]. auto.
  - unfold Reasons.step.
    destruct (step totalTasks limit (Reasons.closure s) (Reasons.plain e))
      as [c|]; [|discriminate].
    intros E W T U. apply IH in E.
    + exact E.
    + intros i r Hin. apply (W i r). now right.
    + destruct e as [i how|i]; cbn [Reasons.thrown]; [|exact T].
      destruct how as [|r]; cbn [Reasons.catchThrows]; [exact T|].
      destruct (message r) eqn:M; [exact T|].
      now destruct (W i r (or_introl eq_refl)).
    + destruct e as [i how|i]; cbn [Reasons.unhandled]; [exact U|].
      rewrite T. exact U.
Qed.

(** Every [catch] handler that runs adds one to [errors], and nothing
    else changes it. *)
Lemma exec_errors (totalTasks : nat) (limit : Z) (es : list event) :
  forall s s',
    exec totalTasks limit s es = Some s' ->
    errors s'
    = (errors s
       + List.length (filter (fun e => match e with
                                       | Settle _ ok => negb ok
                                       | Finally _ => false
                                       end) es))%nat.
Proof.
  induction es as [|e es IH]; intros s s'; cbn [exec filter].
  - intros [= <-]. cbn. lia.
  - destruct (step totalTasks limit s e) as [s1|] eqn:St; [|discriminate].
    intros E. rewrite (IH _ _ E). clear IH E.
    destruct e as [i ok|i]; cbn [step] in St.
    + destruct (mem i (pending s)); [|discriminate]. injection St as <-.
      destruct ok; cbn; lia.
    + destruct (mem i (finalizing s)); [|discriminate]. injection St as <-.
      unfold onFinally, runNext.
      destruct (_ =? _)%nat; cbn [resolve release errors List.length];
        [lia|].
      destruct (launch_frame totalTasks limit
                  (totalTasks - taskIndex (release i s)) (release i s))
        as (_ & Er & _).
      rewrite Er. cbn. lia.
Qed.

(** [Promise.all] fulfils exactly when every promise does, and rejects
    with the reason of one of them. *)
Lemma promiseAll_fulfils {A : Type} (ps : list (Completion A)) :
  (exists vs, promiseAll ps = Returned vs) <->
  Forall (fun p => exists v, p = Returned v) ps.
Proof.
  induction ps as [|p ps IH]; cbn [promiseAll].
  - split; [constructor | eauto].
  - destruct p as [v|e].
    + destruct (promiseAll ps) as [vs|e] eqn:P.
      * split; [|eauto]. intros _. constructor; [eauto|].
        apply IH. eauto.
      * split; [now intros [vs [=]]|]. intros F.
        apply Forall_inv_tail in F. apply IH in F.
        now destruct F as [vs [=]].
    + split; [now intros [vs [=]]|]. intros F.
      apply Forall_inv in F. now destruct F as [v [=]].
Qed.

Lemma promiseAll_reason {A : Type} (ps : list (Completion A)) (e : JsError) :
  promiseAll ps = Thrown e -> In (Thrown e) ps.
Proof.
  induction ps as [|p ps IH]; cbn [promiseAll].
  - discriminate.
  - destruct p as [v|e'].
    + destruct (promiseAll ps) as [vs|e''] eqn:P; [discriminate|].
      intros [= <-]. right. apply IH. reflexivity.
    + intros [= <-]. now left.
Qed.

(** One iteration of [main] stores its report exactly when its three
    awaited calls fulfil. *)
Lemma mainPool_reports (initialCount : Z)
      (tasks : list (Completion WorkerValue))
      (destroyed : Completion unit) (finalRead : Completion Z) :
  (exists rep,
      mainPool initialCount tasks destroyed finalRead = Returned rep) <->
  Forall (fun t => exists v, t = Returned v) tasks /\
  destroyed = Returned tt /\ exists c, finalRead = Returned c.
Proof.
  rewrite <- promiseAll_fulfils. unfold mainPool.
  destruct (promiseAll tasks) as [vs|e].
  - destruct destroyed as [[]|e]; destruct finalRead as [c|e'].
    all: split;
      [intros [rep R]; try discriminate R; eauto
      |intros (_ & D & c' & R); try discriminate D; try discriminate R;
       eauto].
  - split; [now intros [rep [=]] | now intros ([vs [=]] & _)].
Qed.

(** C8, amended.  When the ethers objects of the worker are built, its
    artifact loads and the errors that submission and confirmation raise
    carry a message, the worker function returns a result object
    whatever those errors are, and the result has [success = false]
    unless some attempt was confirmed with status 1.  An error of the
    set-up, of a constructor or of [getContractAbi], is thrown by the
    worker function before its first attempt.  One iteration of [main]
    stores its report if and only if every task promise fulfils and the
    awaited [piscina.destroy()] and final [count()] fulfil; task results
    that are all failures do not prevent it: the report then has zero
    successes and as many failures as tasks.  In the single-process
    scheduler, when the reasons of the rejections carry a message, no
    handler throws and no rejection is left unhandled, [errors] is the
    number of rejected tasks whose handler has run, and with a limit of
    at least 1 the run cannot stall: at most two handlers run per task,
    a handler can run while one is outstanding, and when none is the
    promise is fulfilled with [results.length + errors] equal to the
    number of tasks. *)
Theorem task_errors_are_contained :
  (forall MAX_ATTEMPTS RETRY_DELAY_MS amountOnSuccess amountOnFailure
          wid tix ledger setUp artifacts name,
      signerBuilt setUp = Returned tt -> contractBuilt setUp = Returned tt ->
      artifacts name <> None -> carriesMessage ledger ->
      exists run r,
        moduleExports MAX_ATTEMPTS RETRY_DELAY_MS amountOnSuccess
                      amountOnFailure wid tix ledger setUp artifacts name
        = Some run /\
        completion run = Returned r /\
        delivered run = Returned (Result r) /\
        ((forall n rc, ledger n = Confirms rc -> status rc <> 1) ->
         success r = false)) /\
  (forall MAX_ATTEMPTS RETRY_DELAY_MS amountOnSuccess amountOnFailure
          wid tix ledger setUp artifacts name e,
      signerBuilt setUp = Thrown e \/
      signerBuilt setUp = Returned tt /\
        getContractAbi artifacts name = Thrown e \/
      signerBuilt setUp = Returned tt /\ artifacts name <> None /\
        contractBuilt setUp = Thrown e ->
      moduleExports MAX_ATTEMPTS RETRY_DELAY_MS amountOnSuccess
                    amountOnFailure wid tix ledger setUp artifacts name
      = Some (mkRun (Thrown e) 0 [])) /\
  (forall initialCount tasks destroyed finalRead,
      ((exists rep,
          mainPool initialCount tasks destroyed finalRead = Returned rep) <->
       Forall (fun t => exists v, t = Returned v) tasks /\
       destroyed = Returned tt /\ exists c, finalRead = Returned c) /\
      forall values c,
        tasks = map Returned values -> destroyed = Returned tt ->
        finalRead = Returned c ->
        (forall v, In v values -> isSuccess v = false) ->
        mainPool initialCount tasks destroyed finalRead
        = Returned (mkReport 0 (Z.of_nat (List.length values)) 0 c
                             initialCount (c =? initialCount))) /\
  (forall totalTasks limit es s,
      1 <= limit ->
      Reasons.exec totalTasks limit (Reasons.start totalTasks limit) es
      = Some s ->
      Reasons.reasonsCarryMessage es ->
      Reasons.unhandled s = [] /\
      errors (Reasons.closure s)
      = List.length
          (filter (fun e => match e with
                            | Reasons.Settle _ (Reasons.RejectsWith _) => true
                            | _ => false
                            end) es) /\
      (List.length es <= 2 * totalTasks)%nat /\
      (quiescent (Reasons.closure s) ->
       returned (Reasons.closure s) = Fulfilled (results (Reasons.closure s)) /\
       (List.length (results (Reasons.closure s)) + errors (Reasons.closure s)
        = totalTasks)%nat) /\
      (~ quiescent (Reasons.closure s) ->
       exists e s', Reasons.step totalTasks limit s e = Some s')).
Proof.
  split; [|split; [|split]].
  - intros MAX_ATTEMPTS RETRY_DELAY_MS amountOnSuccess amountOnFailure
           wid tix ledger setUp artifacts name Sb Cb A W.
    rewrite (moduleExports_built _ _ _ _ _ _ _ _ _ _ Sb Cb).
    destruct (runWorker_returns MAX_ATTEMPTS RETRY_DELAY_MS
                amountOnSuccess amountOnFailure wid tix ledger artifacts
                name A W) as (run & r & E & C).
    exists run, r. split; [exact E|]. split; [exact C|].
    split; [unfold delivered; now rewrite C|].
    intros No. destruct (success r) eqn:S; [|reflexivity].
    destruct (runWorker_success _ _ _ _ _ _ _ _ _ _ _ E C S)
      as (n & rc & L & St).
    now destruct (No n rc L).
  - intros MAX_ATTEMPTS RETRY_DELAY_MS amountOnSuccess amountOnFailure
           wid tix ledger setUp artifacts name e.
    unfold moduleExports.
    intros [Sb|[(Sb & G)|(Sb & A & Cb)]]; rewrite Sb; [reflexivity| |].
    + now rewrite G.
    + unfold getContractAbi. destruct (artifacts name); [|congruence].
      now rewrite Cb.
  - intros initialCount tasks destroyed finalRead.
    split; [apply mainPool_reports|].
    intros values c -> -> -> F. unfold mainPool.
    rewrite promiseAll_Returned, processIncrements_spec.
    cbn [totalSuccessful totalFailed].
    assert (Z0 : successCount values = 0).
    { unfold successCount.
      replace (filter isSuccess values) with (@nil WorkerValue);
        [reflexivity|].
      symmetry. clear -F. induction values as [|v vs IH]; [reflexivity|].
      cbn [filter]. rewrite (F v (or_introl eq_refl)).
      apply IH. intros v' Hv'. apply F. now right. }
    pose proof (counts_cover values) as Cv. rewrite Z0 in *.
    replace (failureCount values) with (Z.of_nat (List.length values))
      by lia.
    now rewrite Z.add_0_r.
  - intros totalTasks limit es s L E W.
    pose proof (reasons_exec_plain _ _ _ _ _ E) as P.
    cbn [Reasons.start Reasons.closure] in P.
    destruct (reasons_handled _ _ _ _ _ E W eq_refl eq_refl) as [_ U].
    destruct (run_completes totalTasks limit _ _ L P) as (Ln & Q & Pr).
    rewrite length_map in Ln.
    split; [exact U|]. split; [|split; [exact Ln|split; [exact Q|]]].
    + rewrite (exec_errors _ _ _ _ _ P).
      destruct (start_fresh totalTasks limit) as [_ F0].
      assert (E0 : errors (start totalTasks limit) = 0%nat).
      { unfold start, runNext. destruct (_ =? _)%nat; [reflexivity|].
        exact (proj1 (proj2 (launch_frame totalTasks limit _ init))). }
      rewrite E0. cbn [Nat.add]. clear.
      induction es as [|e es IH]; [reflexivity|].
      cbn [map filter]. destruct e as [i [|r]|i]; cbn; now rewrite IH.
    + intros NQ. destruct (Pr NQ) as (e0 & c' & St).
      exists (match e0 with
              | Settle i true => Reasons.Settle i Reasons.Fulfils
              | Settle i false =>
                  Reasons.Settle i (Reasons.RejectsWith typeError)
              | Finally i => Reasons.Finally i
              end).
      unfold Reasons.step.
      destruct e0 as [i [|]|i]; cbn [Reasons.plain Reasons.fulfilled];
        rewrite St; eauto.
Qed.

(** The theorem at a ledger client that reverts every call. *)
Lemma task_errors_are_contained_witness :
  exists run r,
    moduleExports 100 1000 None None 4 9
      (fun _ => Raises (mkError (Some "CALL_EXCEPTION"%string)
                                (Some "execution reverted"%string)))
      (mkSetUp (Returned tt) (Returned tt))
      (fun _ => Some "[]"%string) "Counter" = Some run /\
    completion run = Returned r /\ success r = false.
Proof.
  destruct (proj1 task_errors_are_contained 100%nat 1000 None None 4 9
              (fun _ => Raises (mkError (Some "CALL_EXCEPTION"%string)
                                        (Some "execution reverted"%string)))
              (mkSetUp (Returned tt) (Returned tt))
              (fun _ => Some "[]"%string) "Counter"%string)
    as (run & r & E & C & _ & F).
  - reflexivity.
  - reflexivity.
  - discriminate.
  - intros n e [= <-]. discriminate.
  - exists run, r. split; [exact E|]. split; [exact C|].
    apply F. intros n rc. discriminate.
Defined.

(* ===================================================================== *)
(** * 7. The scenarios of the specification, run on the model             *)
(* ===================================================================== *)

(** One task, limit 1, the task succeeds: one success, no failure, and
    the count read back matches. *)
Example scenario_single_task :
  exec 1 1 (start 1 1) [Settle 0 true; Finally 0]
  = Some (mkState [true] 0 0 1 true [] [] [(0%nat, true)] [0%nat]) /\
  fst (verifyConcurrent 1 7 [true] (mkLedger 8 0))
  = mkReport 1 0 0 8 8 true.
Proof. split; reflexivity. Qed.

(** Ten tasks, limit 4: four tasks are started at once, and the fifth
    when the first [finally] handler runs. *)
Example scenario_ten_tasks_limit_four :
  pending (start 10 4) = [0; 1; 2; 3]%nat /\
  activeCount (start 10 4) = 4 /\
  option_map pending (exec 10 4 (start 10 4) [Settle 2 true; Finally 2])
  = Some [0; 1; 3; 4]%nat.
Proof. repeat split; reflexivity. Qed.

(** A nonce conflict on the first submission, success on the second. *)
Example scenario_nonce_conflict_then_success :
  workerBenchmark 0 0
    (fun n => if (n =? 1)%nat
              then Raises (mkError (Some "NONCE_EXPIRED"%string)
                                   (Some "nonce too low"%string))
              else Confirms (mkReceipt 1 "0x01"))
    (fun _ => Some "[]"%string) "Counter"
  = Some (mkRun (Returned (mkResult true None (Some "0x01"%string) 0 0 None))
                2 [1000]).
Proof. reflexivity. Qed.

(** A transient network error at every attempt, with a budget of three:
    the third attempt exhausts the budget. *)
Example scenario_budget_exhausted :
  runWorker 3 1000 None None 0 0
    (fun _ => Raises (mkError None (Some "network error"%string)))
    (fun _ => Some "[]"%string) "Counter"
  = Some (mkRun (Returned (mkResult false (Some "network error"%string)
                                    None 0 0 None))
                3 [1000; 2000]).
Proof. reflexivity. Qed.

(** A receipt with status 0 on the first attempt: one attempt, no
    delay. *)
Example scenario_rejected_on_first_attempt :
  workerAccountBalance 10000000000000000 0 0
    (fun _ => Confirms (mkReceipt 0 "0x02"))
    (fun _ => Some "[]"%string) "AccountBalance"
  = Some (mkRun (Returned
                   (mkResult false
                      (Some "Transaction reverted with status 0"%string)
                      (Some "0x02"%string) 0 0 (Some "0"%string)))
                1 []).
Proof. reflexivity. Qed.

(* ===================================================================== *)
(** * 8. Further properties of the scheduler                              *)
(* ===================================================================== *)

Local Close Scope Z_scope.

(** What the launch loop does in one go: it starts as many tasks as the
    fuel, the free slots and the remaining tasks allow, in array order. *)
Lemma launch_batch (totalTasks : nat) (limit : Z) (fuel : nat) :
  forall s,
    let k := Nat.min fuel
               (Nat.min (totalTasks - taskIndex s)
                        (Z.to_nat (limit - activeCount s))) in
    let s' := launch totalTasks limit fuel s in
    taskIndex s' = taskIndex s + k /\
    pending s' = pending s ++ seq (taskIndex s) k /\
    activeCount s' = (activeCount s + Z.of_nat k)%Z /\
    startedLog s' = startedLog s ++ seq (taskIndex s) k.
Proof.
  induction fuel as [|fuel IH]; intros s; cbn [launch].
  - cbn. rewrite Nat.add_0_r, !app_nil_r, Z.add_0_r. auto.
  - destruct (loopCond totalTasks limit s) eqn:C.
    + apply loopCond_true in C. destruct C as [Ca Ci].
      destruct (IH (launchTask s)) as (T & P & A & St). fields.
      set (k' := Nat.min fuel
                   (Nat.min (totalTasks - S (taskIndex s))
                      (Z.to_nat (limit - (activeCount s + 1))))) in *.
      replace (Nat.min (S fuel)
                 (Nat.min (totalTasks - taskIndex s)
                    (Z.to_nat (limit - activeCount s))))
        with (S k') by (subst k'; lia).
      rewrite T, P, A, St. cbn [seq]. rewrite <- !app_assoc. cbn [app].
      repeat split; lia.
    + apply loopCond_false in C.
      replace (Nat.min (S fuel)
                 (Nat.min (totalTasks - taskIndex s)
                    (Z.to_nat (limit - activeCount s))))
        with 0 by lia.
      cbn. rewrite Nat.add_0_r, !app_nil_r, Z.add_0_r. auto.
Qed.

(** X1. The synchronous part of [runTasksWithConcurrency] starts the
    first [min(tasks.length, limit)] tasks of the array, in order, and
    nothing else (none when the limit is zero or negative); it resolves
    the promise at once exactly when the array is empty. *)
Theorem first_batch (totalTasks : nat) (limit : Z) :
  let m := Nat.min totalTasks (Z.to_nat limit) in
  let s := start totalTasks limit in
  startedLog s = seq 0 m /\
  pending s = seq 0 m /\
  taskIndex s = m /\
  activeCount s = Z.of_nat m /\
  results s = [] /\ errors s = 0 /\
  (resolved s = true <-> totalTasks = 0).
Proof.
  intros m s. subst s. unfold start, runNext.
  cbn [init results errors List.length Nat.add taskIndex].
  destruct totalTasks as [|n].
  - cbn. repeat split; auto.
  - cbn [Nat.eqb].
    destruct (launch_batch (S n) limit (S n - 0) init) as (T & P & A & St).
    destruct (launch_frame (S n) limit (S n - 0) init)
      as (R & E & Rs & _ & _).
    cbn [init taskIndex pending activeCount startedLog results errors
         resolved] in *.
    replace (Nat.min (S n - 0) (Nat.min (S n - 0) (Z.to_nat (limit - 0))))
      with m in * by (subst m; lia).
    rewrite T, P, A, St, R, E, Rs. cbn [app Nat.add Z.add].
    repeat split; discriminate.
Qed.

(** X2. The scheduler never leaves a slot idle: with a limit that is not
    negative, in every state of a run in which a task has not been
    started yet, exactly [limit] tasks are in flight; and once fewer are
    in flight, every task has been started. *)
Theorem slots_stay_full (totalTasks : nat) (limit : Z) (s : state) :
  (0 <= limit)%Z ->
  reachable totalTasks limit s ->
  (taskIndex s < totalTasks -> activeCount s = limit) /\
  ((activeCount s < limit)%Z -> taskIndex s = totalTasks).
Proof.
  intros L R. destruct (reachable_Inv _ _ _ R) as [H St].
  pose proof (inv_bound H) as B. pose proof (inv_index H) as Ix.
  assert (F : taskIndex s < totalTasks -> activeCount s = limit).
  { intros Lt.
    assert (Rs : resolved s = false).
    { destruct (resolved s) eqn:Rs; [|reflexivity].
      destruct (resolved_all_started _ _ s H Rs). lia. }
    pose proof (St Rs Lt). lia. }
  split; [exact F|]. intros Lt.
  destruct (Nat.eq_dec (taskIndex s) totalTasks) as [|Ne]; [assumption|].
  assert (X : taskIndex s < totalTasks) by lia. apply F in X. lia.
Qed.

(** The theorem at five tasks with limit 2, after the first task has
    been rejected and its [finally] handler has run. *)
Lemma slots_stay_full_witness :
  activeCount (onFinally 5 2 0 (onSettle 0 false (start 5 2))) = 2%Z.
Proof.
  apply (proj1 (slots_stay_full 5 2 _ ltac:(lia)
                  (ex_intro _ [Settle 0 false; Finally 0] eq_refl))).
  cbn. lia.
Defined.

(** Induction over the states of a run, along the four ways in which the
    closure variables change. *)
Lemma reachable_induction (totalTasks : nat) (limit : Z)
      (P : state -> Prop) :
  P init ->
  (forall s, P s -> P (launchTask s)) ->
  (forall s, P s -> P (resolve s)) ->
  (forall i ok s, In i (pending s) -> P s -> P (onSettle i ok s)) ->
  (forall i s, In i (finalizing s) -> P s -> P (release i s)) ->
  forall s, reachable totalTasks limit s -> P s.
Proof.
  intros Pi Pl Pr Ps Pf.
  assert (L : forall fuel s, P s -> P (launch totalTasks limit fuel s)).
  { induction fuel as [|fuel IH]; intros s Hs; cbn [launch]; [assumption|].
    destruct (loopCond totalTasks limit s); auto. }
  assert (N : forall s, P s -> P (runNext totalTasks limit s)).
  { intros s Hs. unfold runNext. destruct (_ =? _); auto. }
  intros s [es E]. revert E.
  assert (G : forall es s0, P s0 ->
                exec totalTasks limit s0 es = Some s -> P s).
  { clear -Ps Pf N. induction es as [|e es IH]; cbn [exec]; intros s0 H0.
    - now intros [= <-].
    - destruct e as [i ok|i]; cbn [step].
      + destruct (mem i (pending s0)) eqn:M; [|discriminate].
        apply mem_In in M. apply IH. now apply Ps.
      + destruct (mem i (finalizing s0)) eqn:M; [|discriminate].
        apply mem_In in M. apply IH. unfold onFinally.
        apply N. now apply Pf. }
  apply G. now apply N.
Qed.

(** X3. The array that the promise is resolved with carries no task
    result: in every state of a run [results] consists of [true] only,
    one for each [then] handler that ran, whatever the tasks returned. *)
Theorem results_are_markers (totalTasks : nat) (limit : Z) (s : state) :
  reachable totalTasks limit s ->
  results s
  = repeat true (List.length (filter snd (settledLog s))).
Proof.
  revert s. apply reachable_induction; try (intros; fields; assumption).
  - reflexivity.
  - intros i ok s _ IH. fields. rewrite filter_app, length_app.
    destruct ok; cbn [filter snd List.length].
    + rewrite IH at 1. rewrite repeat_app. reflexivity.
    + now rewrite Nat.add_0_r.
Qed.

(** The theorem after one fulfilled and one rejected task. *)
Lemma results_are_markers_witness :
  results (onSettle 1 false (onSettle 0 true (start 2 2))) = [true].
Proof.
  apply (results_are_markers 2 2 _
           (ex_intro _ [Settle 0 true; Settle 1 false] eq_refl)).
Defined.

(** X4. What the caller of [runTasksWithConcurrency] receives is final:
    once [resolve(results)] has been called, the handlers that are still
    to run are [finally] handlers only, and none of them changes
    [results], [errors] or the set of started tasks. *)
Theorem resolved_is_final (totalTasks : nat) (limit : Z) (s s' : state)
        (es : list event) :
  reachable totalTasks limit s ->
  resolved s = true ->
  exec totalTasks limit s es = Some s' ->
  returned s' = returned s /\
  results s' = results s /\ errors s' = errors s /\
  startedLog s' = startedLog s /\
  Forall (fun e => exists i, e = Finally i) es.
Proof.
  intros R. destruct (reachable_Inv _ _ _ R) as [H St]. clear R.
  revert s H St. induction es as [|e es IH]; cbn [exec]; intros s H St Rs.
  - intros [= <-]. repeat split. constructor.
  - destruct (step totalTasks limit s e) as [s1|] eqn:E; [|discriminate].
    destruct (step_Inv _ _ _ _ _ H St E) as [H1 St1].
    destruct (resolved_all_started _ _ s H Rs) as [Ix P].
    destruct e as [i ok|i]; cbn [step] in E.
    + rewrite P in E. discriminate.
    + destruct (mem i (finalizing s)); [|discriminate]. injection E as <-.
      assert (X : onFinally totalTasks limit i s = resolve (release i s)).
      { unfold onFinally, runNext. fields.
        rewrite (Inv_counted _ _ H), (inv_resolved H Rs).
        now rewrite Nat.eqb_refl. }
      intros E'. rewrite X in *.
      destruct (IH _ H1 St1 eq_refl E') as (A & B & C & D & F).
      unfold returned in *. fields. rewrite Rs in *.
      repeat split; try assumption.
      constructor; [now exists i | assumption].
Qed.

(** The theorem at two tasks with limit 2 that fulfil before either
    [finally] handler runs: the first handler resolves, the second one
    changes nothing. *)
Lemma resolved_is_final_witness :
  let s := onFinally 2 2 0 (onSettle 1 true (onSettle 0 true (start 2 2))) in
  results (onFinally 2 2 1 s) = results s.
Proof.
  intros s.
  apply (resolved_is_final 2 2 s (onFinally 2 2 1 s) [Finally 1]).
  - exists [Settle 0 true; Settle 1 true; Finally 0]. reflexivity.
  - reflexivity.
  - reflexivity.
Defined.

(* ===================================================================== *)
(** * 9. Further properties of the retry engine                           *)
(* ===================================================================== *)

(** The run of a worker whose artifact loads, attempt by attempt. *)
Lemma runWorker_steps
      (MAX_ATTEMPTS : nat) (RETRY_DELAY_MS : Z)
      (amountOnSuccess amountOnFailure : option string) (wid tix : Z)
      (ledger : nat -> Attempt) (artifacts : string -> option string)
      (name : string) (run : Run) :
  artifacts name <> None ->
  1 <= MAX_ATTEMPTS ->
  runWorker MAX_ATTEMPTS RETRY_DELAY_MS amountOnSuccess amountOnFailure
            wid tix ledger artifacts name = Some run ->
  1 <= attemptsUsed run <= MAX_ATTEMPTS /\
  (forall k, 1 <= k < attemptsUsed run ->
     exists e m, ledger k = Raises e /\ message e = Some m /\
                 retryable e = true /\ k < MAX_ATTEMPTS) /\
  stopsWith (tryAttempt MAX_ATTEMPTS RETRY_DELAY_MS amountOnSuccess
                        amountOnFailure wid tix (attemptsUsed run)
                        (ledger (attemptsUsed run)))
            (completion run).
Proof.
  intros A M. unfold runWorker, getContractAbi.
  destruct (artifacts name) as [abi|]; [|congruence]. intros E.
  destruct (retryLoop_trace _ _ _ _ _ _ _ _ _ _ _ _ E) as ((_ & Hi) & Lo & _);
    [lia|].
  destruct (retryLoop_steps _ _ _ _ _ _ _ _ _ _ _ _ E) as [Cs St]; [lia|].
  split; [lia|]. split; [|exact St].
  intros k Hk. destruct (Cs k) as (r & d & T); [lia|].
  apply tryAttempt_Continue in T.
  destruct T as (e & m & L & Me & R & Lt & _). eauto 8.
Qed.

(** X5. A worker whose ethers objects are built and whose artifact
    loads, facing errors with messages of ASCII text, reports success
    exactly when some attempt [n] within the budget is confirmed with
    status 1 after attempts 1 to [n - 1] all raised retryable errors that
    carry a message; it then used exactly [n] attempts and returns the
    hash of that receipt. *)
Theorem worker_succeeds_iff
        (MAX_ATTEMPTS : nat) (RETRY_DELAY_MS : Z)
        (amountOnSuccess amountOnFailure : option string) (wid tix : Z)
        (ledger : nat -> Attempt) (setUp : SetUp)
        (artifacts : string -> option string)
        (name : string) (run : Run) :
  signerBuilt setUp = Returned tt -> contractBuilt setUp = Returned tt ->
  artifacts name <> None ->
  asciiMessages ledger ->
  moduleExports MAX_ATTEMPTS RETRY_DELAY_MS amountOnSuccess amountOnFailure
                wid tix ledger setUp artifacts name = Some run ->
  let firstConfirmed n rc :=
    1 <= n <= MAX_ATTEMPTS /\
    ledger n = Confirms rc /\ status rc = 1%Z /\
    forall k, 1 <= k < n ->
      exists e m, ledger k = Raises e /\ message e = Some m /\
                  retryable e = true in
  ((exists r, completion run = Returned r /\ success r = true) <->
   (exists n rc, firstConfirmed n rc)) /\
  (forall n rc, firstConfirmed n rc ->
     attemptsUsed run = n /\
     completion run
     = Returned (mkResult true None (Some (rhash rc)) wid tix
                          amountOnSuccess)).
Proof.
  intros Sb Cb A _ E firstConfirmed.
  rewrite (moduleExports_built _ _ _ _ _ _ _ _ _ _ Sb Cb) in E.
  assert (Decide : forall n rc, firstConfirmed n rc ->
            attemptsUsed run = n /\
            completion run
            = Returned (mkResult true None (Some (rhash rc)) wid tix
                                 amountOnSuccess)).
  { intros n rc (Hn & L & S1 & Before).
    assert (M : 1 <= MAX_ATTEMPTS) by lia.
    destruct (runWorker_steps _ _ _ _ _ _ _ _ _ _ A M E) as (Hau & Cs & St).
    assert (Au : attemptsUsed run = n).
    { destruct (Nat.lt_trichotomy (attemptsUsed run) n) as [Lt|[Eq|Gt]];
        [exfalso | exact Eq | exfalso].
      - destruct (Before (attemptsUsed run)) as (e & m & Le & Me & R);
          [lia|].
        rewrite Le in St. unfold tryAttempt in St. rewrite R, Me in St.
        replace (attemptsUsed run <? MAX_ATTEMPTS) with true in St
          by (symmetry; apply Nat.ltb_lt; lia).
        exact St.
      - destruct (Cs n) as (e & m & Le & _); [lia|]. congruence. }
    split; [exact Au|]. rewrite Au, L in St. unfold tryAttempt in St.
    rewrite S1 in St. exact St. }
  split; [|exact Decide]. split.
  - intros (r & C & Sr).
    destruct MAX_ATTEMPTS as [|M].
    { exfalso. revert E C Sr. unfold runWorker, getContractAbi.
      destruct (artifacts name); [|congruence].
      cbn. intros [= <-]. cbn. intros [= <-]. discriminate. }
    destruct (runWorker_steps _ _ _ _ _ _ _ _ _ _ A
                (le_n_S _ _ (Nat.le_0_l M)) E) as (Hau & Cs & St).
    rewrite C in St.
    destruct (ledger (attemptsUsed run)) as [rc|e] eqn:L;
      unfold tryAttempt in St.
    + destruct (Z.eqb_spec (status rc) 1) as [S1|S1];
        cbn [stopsWith] in St; injection St as ->; [|discriminate].
      exists (attemptsUsed run), rc. repeat split; try lia; try assumption.
      intros k Hk. destruct (Cs k Hk) as (e & m & X & Y & Z & _). eauto.
    + destruct (retryable e && (attemptsUsed run <? S M));
        destruct (message e); cbn [stopsWith] in St;
        try discriminate; try contradiction.
      all: injection St as ->; discriminate.
  - intros (n & rc & F). destruct (Decide n rc F) as [_ C].
    eexists. split; [exact C | reflexivity].
Qed.

(** The theorem at a worker whose second attempt is confirmed. *)
Lemma worker_succeeds_iff_witness :
  let ledger := fun n => if n =? 1
                         then Raises (mkError None (Some "timeout"%string))
                         else Confirms (mkReceipt 1 "0x11") in
  let run := mkRun (Returned (mkResult true None (Some "0x11"%string)
                                       0 0 None))
                   2 [1000%Z] in
  attemptsUsed run = 2 /\
  exists r, completion run = Returned r /\ success r = true.
Proof.
  intros ledger run.
  assert (Art : (fun _ : string => Some "[]"%string) "Counter"%string <> None)
    by discriminate.
  assert (Asc : asciiMessages ledger).
  { intros n e m. unfold ledger. destruct (n =? 1); [|discriminate].
    intros [= <-] [= <-]. reflexivity. }
  pose proof (worker_succeeds_iff 100 1000 None None 0 0 ledger
                (mkSetUp (Returned tt) (Returned tt))
                (fun _ => Some "[]"%string) "Counter"%string run
                eq_refl eq_refl Art Asc eq_refl) as [Iff Decide].
  assert (F : (1 <= 2 <= 100) /\
              ledger 2 = Confirms (mkReceipt 1 "0x11") /\
              status (mkReceipt 1 "0x11") = 1%Z /\
              forall k, 1 <= k < 2 ->
                exists e m, ledger k = Raises e /\ message e = Some m /\
                            retryable e = true).
  { repeat split; try lia.
    intros k Hk. assert (k = 1) as -> by lia.
    eexists. eexists. repeat split. }
  split.
  - exact (proj1 (Decide 2 _ F)).
  - apply Iff. eauto.
Defined.

(** How a worker whose artifact loads completes: with the default result
    when the budget is zero, and as the last attempt decides otherwise. *)
Lemma runWorker_last_attempt
      (MAX_ATTEMPTS : nat) (RETRY_DELAY_MS : Z)
      (amountOnSuccess amountOnFailure : option string) (wid tix : Z)
      (ledger : nat -> Attempt) (artifacts : string -> option string)
      (name : string) (run : Run) :
  artifacts name <> None ->
  runWorker MAX_ATTEMPTS RETRY_DELAY_MS amountOnSuccess amountOnFailure
            wid tix ledger artifacts name = Some run ->
  (MAX_ATTEMPTS = 0 /\ attemptsUsed run = 0 /\
   completion run = Returned (defaultResult amountOnFailure wid tix)) \/
  (1 <= attemptsUsed run <= MAX_ATTEMPTS /\
   stopsWith (tryAttempt MAX_ATTEMPTS RETRY_DELAY_MS amountOnSuccess
                         amountOnFailure wid tix (attemptsUsed run)
                         (ledger (attemptsUsed run)))
             (completion run)).
Proof.
  intros A E. destruct MAX_ATTEMPTS as [|M].
  - left. revert E. unfold runWorker, getContractAbi.
    destruct (artifacts name); [|congruence].
    cbn. intros [= <-]. auto.
  - right.
    destruct (runWorker_steps _ _ _ _ _ _ _ _ _ _ A
                (le_n_S _ _ (Nat.le_0_l M)) E) as (Hau & _ & St).
    now split.
Qed.

(** X6. A failed result reports the last attempt that was made: the
    text "Transaction reverted with status 0" and the hash of the receipt
    when that attempt was confirmed with a status other than 1, and the
    message of the error, without a hash, when it raised an error that
    was not retryable or that exhausted the budget.  The initial text
    "Max attempts reached" is returned only by a worker whose budget is
    zero. *)
Theorem failure_reports_last_attempt
        (MAX_ATTEMPTS : nat) (RETRY_DELAY_MS : Z)
        (amountOnSuccess amountOnFailure : option string) (wid tix : Z)
        (ledger : nat -> Attempt) (artifacts : string -> option string)
        (name : string) (run : Run) (r : WorkerResult) :
  artifacts name <> None ->
  runWorker MAX_ATTEMPTS RETRY_DELAY_MS amountOnSuccess amountOnFailure
            wid tix ledger artifacts name = Some run ->
  completion run = Returned r ->
  success r = false ->
  (MAX_ATTEMPTS = 0 /\ attemptsUsed run = 0 /\
   error r = Some "Max attempts reached"%string /\ hash r = None) \/
  (1 <= attemptsUsed run <= MAX_ATTEMPTS /\
   match ledger (attemptsUsed run) with
   | Confirms rc =>
       status rc <> 1%Z /\
       error r = Some "Transaction reverted with status 0"%string /\
       hash r = Some (rhash rc)
   | Raises e =>
       error r = message e /\ message e <> None /\ hash r = None /\
       (retryable e = false \/ attemptsUsed run = MAX_ATTEMPTS)
   end).
Proof.
  intros A E C F.
  destruct (runWorker_last_attempt _ _ _ _ _ _ _ _ _ _ A E)
    as [(M & Au & D)|(Hau & St)].
  - left. rewrite C in D. injection D as ->. auto.
  - right. split; [exact Hau|]. rewrite C in St.
    destruct (ledger (attemptsUsed run)) as [rc|e]; unfold tryAttempt in St.
    + destruct (Z.eqb_spec (status rc) 1) as [S1|S1];
        cbn [stopsWith] in St; injection St as ->; [discriminate|].
      auto.
    + destruct (retryable e) eqn:R; cbn [andb] in St;
        [destruct (Nat.ltb_spec (attemptsUsed run) MAX_ATTEMPTS) as [Lt|Ge]|];
        destruct (message e) as [m|]; cbn [stopsWith] in St;
        try contradiction; try discriminate;
        injection St as ->; cbn; repeat split; try discriminate; auto.
      right. lia.
Qed.

(** The theorem at a worker with a budget of two whose attempts both
    time out. *)
Lemma failure_reports_last_attempt_witness :
  let ledger := fun _ : nat => Raises (mkError None (Some "timeout"%string)) in
  let r := mkResult false (Some "timeout"%string) None 0 0 None in
  error r = Some "timeout"%string.
Proof.
  intros ledger r.
  destruct (failure_reports_last_attempt 2 1000 None None 0 0 ledger
              (fun _ => Some "[]"%string) "Counter"%string
              (mkRun (Returned r) 2 [1000%Z]) r
              ltac:(discriminate) eq_refl eq_refl eq_refl)
    as [(M & _)|(_ & X)].
  - discriminate M.
  - exact (proj1 X).
Defined.

(** X7. Every result that a worker returns carries the [workerId] and
    the [txIndex] it was given, whatever happened at the attempts. *)
Theorem result_echoes_task
        (MAX_ATTEMPTS : nat) (RETRY_DELAY_MS : Z)
        (amountOnSuccess amountOnFailure : option string) (wid tix : Z)
        (ledger : nat -> Attempt) (artifacts : string -> option string)
        (name : string) (run : Run) (r : WorkerResult) :
  runWorker MAX_ATTEMPTS RETRY_DELAY_MS amountOnSuccess amountOnFailure
            wid tix ledger artifacts name = Some run ->
  completion run = Returned r ->
  workerId r = wid /\ txIndex r = tix.
Proof.
  intros E C.
  destruct (artifacts name) as [abi|] eqn:A.
  - assert (A' : artifacts name <> None) by congruence.
    destruct (runWorker_last_attempt _ _ _ _ _ _ _ _ _ _ A' E)
      as [(M & Au & D)|(Hau & St)].
    + rewrite C in D. injection D as ->. auto.
    + rewrite C in St.
      destruct (ledger (attemptsUsed run)) as [rc|e]; unfold tryAttempt in St.
      * destruct (status rc =? 1)%Z; cbn [stopsWith] in St;
          injection St as ->; auto.
      * destruct (retryable e && (attemptsUsed run <? MAX_ATTEMPTS));
          destruct (message e); cbn [stopsWith] in St;
          try contradiction; try discriminate; injection St as ->; auto.
  - revert E. unfold runWorker, getContractAbi. rewrite A.
    intros [= <-]. discriminate.
Qed.

(** The theorem at the worker of task 42 on thread 3. *)
Lemma result_echoes_task_witness :
  workerId (mkResult true None (Some "0x12"%string) 3 42 None) = 3%Z.
Proof.
  exact (proj1 (result_echoes_task 100 1000 None None 3 42
                  (fun _ => Confirms (mkReceipt 1 "0x12"))
                  (fun _ => Some "[]"%string) "Counter"%string
                  (mkRun (Returned (mkResult true None (Some "0x12"%string)
                                             3 42 None)) 1 [])
                  _ eq_refl eq_refl)).
Defined.

Lemma sum_backoff (RETRY_DELAY_MS : Z) (n : nat) :
  fold_right Z.add 0%Z (map (backoff RETRY_DELAY_MS) (seq 1 n))
  = (RETRY_DELAY_MS * (2 ^ Z.of_nat n - 1))%Z.
Proof.
  induction n as [|n IH]; [cbn; lia|].
  rewrite seq_S, map_app.
  assert (Sum : forall l1 l2,
             fold_right Z.add 0%Z (l1 ++ l2)
             = (fold_right Z.add 0 l1 + fold_right Z.add 0 l2)%Z).
  { induction l1 as [|a l1 IHl]; intros l2; cbn; [lia|].
    rewrite IHl. lia. }
  rewrite Sum, IH. cbn [map fold_right]. unfold backoff.
  replace (Z.of_nat (1 + n) - 1)%Z with (Z.of_nat n) by lia.
  rewrite Nat2Z.inj_succ, Z.pow_succ_r by lia. lia.
Qed.

(** X8. The time a worker spends in back-off.  While the base delay is
    at least 1 ms and the last delay computed,
    [RETRY_DELAY_MS * 2 ^ (attemptsUsed - 2)], is at most the 2^31 - 1 ms
    that the timer takes, the sleeps of a run add up to
    [RETRY_DELAY_MS * (2 ^ (attemptsUsed - 1) - 1)], one base delay less
    than the delay that a further retry would have computed. *)
Theorem total_backoff
        (MAX_ATTEMPTS : nat) (RETRY_DELAY_MS : Z)
        (amountOnSuccess amountOnFailure : option string) (wid tix : Z)
        (ledger : nat -> Attempt) (artifacts : string -> option string)
        (name : string) (run : Run) :
  runWorker MAX_ATTEMPTS RETRY_DELAY_MS amountOnSuccess amountOnFailure
            wid tix ledger artifacts name = Some run ->
  (1 <= RETRY_DELAY_MS)%Z ->
  (RETRY_DELAY_MS * 2 ^ (Z.of_nat (attemptsUsed run) - 2) <= TIMEOUT_MAX)%Z ->
  fold_right Z.add 0%Z (waits run)
  = (RETRY_DELAY_MS * (2 ^ Z.of_nat (attemptsUsed run - 1) - 1))%Z.
Proof.
  intros E B T.
  rewrite (waits_within_timer _ _ _ _ _ _ _ _ _ _ E B T).
  destruct (runWorker_total MAX_ATTEMPTS RETRY_DELAY_MS amountOnSuccess
              amountOnFailure wid tix ledger artifacts name)
    as (run' & E' & _ & D).
  rewrite E in E'. injection E' as <-.
  rewrite D. apply sum_backoff.
Qed.

(** The theorem at a run of three attempts: 1000 + 2000 = 1000 * 3. *)
Lemma total_backoff_witness :
  fold_right Z.add 0%Z
    (waits (mkRun (Returned (mkResult true None (Some "0x13"%string) 0 0 None))
                  3 [1000; 2000]%Z))
  = (1000 * (2 ^ Z.of_nat (3 - 1) - 1))%Z.
Proof.
  apply (total_backoff 100 1000 None None 0 0
           (fun n => if n <? 3
                     then Raises (mkError None (Some "network error"%string))
                     else Confirms (mkReceipt 1 "0x13"))
           (fun _ => Some "[]"%string) "Counter"%string
           (mkRun (Returned (mkResult true None (Some "0x13"%string) 0 0 None))
                  3 [1000; 2000]%Z)
           eq_refl).
  - lia.
  - vm_compute. discriminate.
Defined.

(** Beyond that the sum falls short: after 24 attempts of the increment
    worker the 23 sleeps add up to 4194303001 ms, not to the
    8388607000 ms that the delays computed add up to. *)
Example total_backoff_beyond_the_timer :
  let run := workerBenchmark 0 0
               (fun n => if n <=? 23
                         then Raises (mkError None (Some "timeout"%string))
                         else Confirms (mkReceipt 1 "0xd4"))
               (fun _ => Some "[]"%string) "Counter" in
  option_map (fun r => (fold_right Z.add 0%Z (waits r),
                        fold_right Z.add 0%Z (delays r))) run
  = Some (4194303001, 8388607000)%Z.
Proof. vm_compute. reflexivity. Qed.

(* ===================================================================== *)
(** * 10. Further properties of the aggregation                           *)
(* ===================================================================== *)

Import Aggregation.

Local Open Scope Z_scope.

Lemma countDeposit_bad (t : Tally) (v : WorkerValue) :
  countDeposit (Some t) v = None <-> badAmount v = true.
Proof.
  unfold countDeposit, badAmount. destruct v as [|r]; [easy|].
  destruct (success r); cbn [andb]; [|easy].
  destruct (amountDeposited r) as [a|]; [|easy].
  destruct (bigIntOfString a); easy.
Qed.

Lemma fold_countDeposit_bad (results : list WorkerValue) :
  forall t,
    fold_left countDeposit results (Some t) = None <->
    existsb badAmount results = true.
Proof.
  induction results as [|v results IH]; intros t; cbn [fold_left existsb].
  - easy.
  - rewrite orb_true_iff.
    destruct (countDeposit (Some t) v) as [t1|] eqn:C.
    + rewrite IH. split; [tauto|]. intros [B|B]; [|exact B].
      apply (countDeposit_bad t) in B. congruence.
    + rewrite fold_countDeposit_None. apply countDeposit_bad in C. tauto.
Qed.

(** X9. The tally of step 5 of the deposit benchmark throws exactly
    when some result with [success = true] has an [amountDeposited] that
    is missing or is a string that [BigInt] does not accept; failed and
    unexpected results are never converted, and when no result is a
    success the tally is zero successes, as many failures as results,
    and a total of zero. *)
Theorem deposit_tally_throws_iff (results : list WorkerValue) :
  (processDeposits results = None <->
   exists r, In (Result r) results /\ success r = true /\
             match amountDeposited r with
             | Some a => bigIntOfString a = None
             | None => True
             end) /\
  ((forall v, In v results -> isSuccess v = false) ->
   processDeposits results
   = Some (mkTally 0 (Z.of_nat (List.length results)) 0)).
Proof.
  assert (P : processDeposits results = None <->
              existsb badAmount results = true)
    by apply fold_countDeposit_bad.
  assert (B : forall v, badAmount v = true <->
                exists r, v = Result r /\ success r = true /\
                          match amountDeposited r with
                          | Some a => bigIntOfString a = None
                          | None => True
                          end).
  { intros v. split.
    - unfold badAmount. destruct v as [|r]; [discriminate|]. intros H.
      apply andb_true_iff in H. destruct H as [Sr H].
      exists r. split; [reflexivity|]. split; [exact Sr|].
      destruct (amountDeposited r) as [a|]; [|exact I].
      destruct (bigIntOfString a); [discriminate | reflexivity].
    - intros (r & -> & Sr & A). unfold badAmount. rewrite Sr. cbn [andb].
      destruct (amountDeposited r) as [a|]; [|reflexivity].
      now rewrite A. }
  split.
  - rewrite P, existsb_exists. split.
    + intros (v & Hin & Bv). apply B in Bv. destruct Bv as (r & -> & Sr & A).
      eauto.
    + intros (r & Hin & Sr & A). exists (Result r). split; [exact Hin|].
      apply B. eauto.
  - intros F.
    destruct (processDeposits results) as [t|] eqn:E.
    + apply processDeposits_spec in E. subst t.
      assert (N : filter isSuccess results = []).
      { clear -F. induction results as [|v vs IH]; [reflexivity|].
        cbn [filter]. rewrite (F v (or_introl eq_refl)).
        apply IH. intros v' Hv'. apply F. now right. }
      pose proof (counts_cover results) as Cv.
      unfold aggregateEffect, successCount in *. rewrite N in *.
      cbn in *. do 2 f_equal. lia.
    + exfalso. unfold processDeposits in E.
      apply fold_countDeposit_bad in E. apply existsb_exists in E.
      destruct E as (v & Hin & Bv). specialize (F v Hin).
      unfold badAmount in Bv. destruct v as [|r]; [discriminate|].
      cbn in F. rewrite F in Bv. discriminate.
Qed.

(** The theorem at two failed results. *)
Lemma deposit_tally_throws_iff_witness :
  processDeposits
    [Result (mkResult false (Some "timeout"%string) None 0 0 None); Unexpected]
  = Some (mkTally 0 2 0).
Proof.
  apply (proj2 (deposit_tally_throws_iff
           [Result (mkResult false (Some "timeout"%string) None 0 0 None);
            Unexpected])).
  intros v [<-|[<-|[]]]; reflexivity.
Defined.

(** A success whose amount is the empty string counts as a deposit of
    zero; one whose amount is missing, or carries a unit, makes the
    tally throw, with the text of the conversion. *)
Example deposit_tally_edge_cases :
  let ok a := Result (mkResult true None (Some "0x18"%string) 0 0 a) in
  processDeposits [ok (Some ""%string); ok (Some " 0x10 "%string)]
  = Some (mkTally 2 0 16) /\
  processDeposits [ok None] = None /\
  processDeposits [ok (Some "10 wei"%string)] = None /\
  runDepositPool 0 [Returned (ok (Some "10 wei"%string))] (mkLedger 0 0)
  = Thrown (mkError None (Some "Cannot convert 10 wei to a BigInt"%string)).
Proof. repeat split; reflexivity. Qed.

Lemma sum_Permutation (l l' : list Z) :
  Permutation l l' -> fold_right Z.add 0 l = fold_right Z.add 0 l'.
Proof. induction 1; cbn; lia. Qed.

Lemma filter_Permutation {A : Type} (f : A -> bool) (l l' : list A) :
  Permutation l l' -> Permutation (filter f l) (filter f l').
Proof.
  induction 1 as [|x l l' _ IH|x y l|l l' l'' _ IH1 _ IH2]; cbn [filter].
  - constructor.
  - destruct (f x); [now constructor | assumption].
  - destruct (f x), (f y); try reflexivity. apply perm_swap.
  - now transitivity (filter f l').
Qed.

(** X10. The tallies do not depend on the order of the results: the
    counts of successes and failures and the total deposited are the same
    for every rearrangement of the results, and whether the deposit tally
    throws is the same too. *)
Theorem tally_ignores_order (results results' : list WorkerValue) :
  Permutation results results' ->
  processIncrements results = processIncrements results' /\
  processDeposits results = processDeposits results'.
Proof.
  intros Pm.
  assert (Sc : successCount results = successCount results').
  { unfold successCount. f_equal.
    apply Permutation_length, filter_Permutation, Pm. }
  assert (Fc : failureCount results = failureCount results').
  { unfold failureCount. f_equal.
    apply Permutation_length, filter_Permutation, Pm. }
  split.
  - rewrite !processIncrements_spec. congruence.
  - assert (Ag : aggregateEffect depositEffect results
                 = aggregateEffect depositEffect results').
    { unfold aggregateEffect.
      apply sum_Permutation, Permutation_map, filter_Permutation, Pm. }
    assert (Bad : existsb badAmount results = existsb badAmount results').
    { apply eq_true_iff_eq. rewrite !existsb_exists.
      split; intros (v & Hin & B); exists v; split; try exact B.
      - now apply (Permutation_in _ Pm).
      - now apply (Permutation_in _ (Permutation_sym Pm)). }
    destruct (processDeposits results) as [t|] eqn:E;
      destruct (processDeposits results') as [t'|] eqn:E'.
    + apply processDeposits_spec in E, E'. congruence.
    + exfalso. apply fold_countDeposit_bad in E'. rewrite <- Bad in E'.
      apply (fold_countDeposit_bad results emptyTally) in E'.
      unfold processDeposits in E. congruence.
    + exfalso. apply fold_countDeposit_bad in E. rewrite Bad in E.
      apply (fold_countDeposit_bad results' emptyTally) in E.
      unfold processDeposits in E'. congruence.
    + reflexivity.
Qed.

(** The theorem at two results in both orders. *)
Lemma tally_ignores_order_witness :
  processIncrements
    [Unexpected; Result (mkResult true None (Some "0x14"%string) 0 0 None)]
  = processIncrements
      [Result (mkResult true None (Some "0x14"%string) 0 0 None); Unexpected].
Proof.
  apply (tally_ignores_order _ _ (perm_swap _ _ [])).
Defined.

(** X11. One iteration of the worker-pool benchmark stores its report
    exactly when every task promise fulfils and the awaited
    [piscina.destroy()] and final [count()] fulfil.  Otherwise the error
    that the [catch] handler of [main] receives is the rejection reason
    of one of the tasks, of [destroy] or of the read, and nothing is
    stored.  A report that is stored counts every task once, as a
    success or as a failure. *)
Theorem pool_reports_iff_all_return
        (initialCount : Z) (tasks : list (Completion WorkerValue))
        (destroyed : Completion unit) (finalRead : Completion Z) :
  ((exists rep,
       mainPool initialCount tasks destroyed finalRead = Returned rep) <->
   Forall (fun t => exists v, t = Returned v) tasks /\
   destroyed = Returned tt /\ exists c, finalRead = Returned c) /\
  (forall e,
      mainPool initialCount tasks destroyed finalRead = Thrown e ->
      In (Thrown e) tasks \/ destroyed = Thrown e \/ finalRead = Thrown e) /\
  (forall rep,
      mainPool initialCount tasks destroyed finalRead = Returned rep ->
      reportedSuccess rep + reportedFailures rep
      = Z.of_nat (List.length tasks)).
Proof.
  split; [apply mainPool_reports|]. unfold mainPool. split.
  - intros e. destruct (promiseAll tasks) as [vs|e'] eqn:P.
    + destruct destroyed as [u|e']; [|intros [= <-]; auto].
      destruct finalRead as [c|e']; [discriminate | intros [= <-]; auto].
    + intros [= <-]. left. now apply promiseAll_reason.
  - intros rep. destruct (promiseAll tasks) as [vs|e'] eqn:P; [|discriminate].
    destruct destroyed as [u|e']; [|discriminate].
    destruct finalRead as [c|e']; [|discriminate].
    intros [= <-]. cbn [reportedSuccess reportedFailures].
    rewrite processIncrements_spec. cbn [totalSuccessful totalFailed].
    rewrite counts_cover. now rewrite (promiseAll_length _ _ P).
Qed.

(** The theorem at one returned task and one that could not load its
    artifact. *)
Lemma pool_reports_iff_all_return_witness :
  In (Thrown (mkError None (Some "Could not load ABI for Counter."%string)))
     [Returned Unexpected;
      Thrown (mkError None (Some "Could not load ABI for Counter."%string))]
  \/ Returned tt
     = Thrown (mkError None (Some "Could not load ABI for Counter."%string))
  \/ Returned 0
     = Thrown (mkError None (Some "Could not load ABI for Counter."%string)).
Proof.
  apply (proj1 (proj2 (pool_reports_iff_all_return 0
                  [Returned Unexpected;
                   Thrown (mkError None
                             (Some "Could not load ABI for Counter."%string))]
                  (Returned tt) (Returned 0)))).
  reflexivity.
Defined.

(* ===================================================================== *)
(** * 11. Properties of the task preparation                              *)
(* ===================================================================== *)

Local Close Scope Z_scope.

Import TaskPlan.

Lemma nth_error_map_seq {A : Type} (f : nat -> A) (n i : nat) :
  i < n -> nth_error (map f (seq 0 n)) i = Some (f i).
Proof.
  intros Lt. rewrite nth_error_map, nth_error_seq.
  now rewrite (proj2 (Nat.ltb_lt _ _) Lt).
Qed.

(** X12. The worker-pool benchmarks prepare no task when there is no
    private key; and whenever they prepare their tasks, there are
    [TOTAL_TRANSACTIONS] of them, and task [i] carries [txIndex = i] and
    the key at index [i % availableSignersCount], which is always a key
    of the list and never [undefined]. *)
Theorem plan_is_well_formed {K : Type} (keys : list K)
        (TOTAL_TRANSACTIONS workerCount : nat) :
  (keys = [] -> planPool keys TOTAL_TRANSACTIONS workerCount = None) /\
  forall plan,
    planPool keys TOTAL_TRANSACTIONS workerCount = Some plan ->
    keys <> [] /\
    List.length plan = TOTAL_TRANSACTIONS /\
    forall i, i < TOTAL_TRANSACTIONS ->
      exists key,
        nth_error keys (i mod List.length keys) = Some key /\
        nth_error plan i
        = Some (mkWorkerData (Some (i mod List.length keys)) (Some key)
                             (jsMod i workerCount) i).
Proof.
  unfold planPool. destruct keys as [|k0 keys'].
  - cbn. split; [reflexivity | discriminate].
  - set (keys := k0 :: keys'). split; [discriminate|].
    intros plan. change (List.length keys =? 0) with false.
    intros [= <-]. unfold prepareTasks.
    rewrite length_map, length_seq.
    split; [discriminate|]. split; [reflexivity|].
    intros i Lt.
    assert (U : i mod List.length keys < List.length keys)
      by (apply Nat.mod_upper_bound; discriminate).
    destruct (nth_error keys (i mod List.length keys)) as [key|] eqn:E.
    + exists key. split; [reflexivity|].
      rewrite nth_error_map_seq by assumption.
      unfold workerDataAt, jsMod at 1 2.
      change (List.length keys =? 0) with false. cbn [keyAt].
      now rewrite E.
    + apply nth_error_None in E. lia.
Qed.

(** The theorem at three keys and four tasks: the fourth task uses the
    first key again. *)
Lemma plan_is_well_formed_witness :
  exists key, nth_error [11; 22; 33] (3 mod 3) = Some key.
Proof.
  destruct (proj2 (plan_is_well_formed [11; 22; 33] 4 2) _ eq_refl)
    as (_ & _ & X).
  destruct (X 3 ltac:(lia)) as (key & E & _).
  now exists key.
Defined.

Lemma filter_map_length {A B : Type} (p : B -> bool) (f : A -> B)
      (l : list A) :
  List.length (filter p (map f l))
  = List.length (filter (fun a => p (f a)) l).
Proof.
  induction l as [|a l IH]; cbn [map filter]; [reflexivity|].
  destruct (p (f a)); cbn [List.length]; now rewrite IH.
Qed.

Lemma succ_div_mod (S' T : nat) :
  S' <> 0 ->
  (T mod S' = S' - 1 /\ (T + 1) / S' = T / S' + 1 /\ (T + 1) mod S' = 0) \/
  (T mod S' < S' - 1 /\ (T + 1) / S' = T / S' /\
   (T + 1) mod S' = T mod S' + 1).
Proof.
  intros NZ.
  pose proof (Nat.div_mod_eq T S') as E.
  pose proof (Nat.mod_upper_bound T S' NZ) as U.
  destruct (Nat.eq_dec (T mod S') (S' - 1)) as [Eq|Ne].
  - left. split; [exact Eq|].
    assert (X : T + 1 = S' * (T / S' + 1) + 0) by nia.
    split.
    + symmetry. apply (Nat.div_unique _ _ _ 0); [lia | exact X].
    + symmetry. apply (Nat.mod_unique _ _ (T / S' + 1)); [lia | exact X].
  - right. split; [lia|].
    assert (X : T + 1 = S' * (T / S') + (T mod S' + 1)) by lia.
    split.
    + symmetry. apply (Nat.div_unique _ _ _ (T mod S' + 1)); [lia | exact X].
    + symmetry. apply (Nat.mod_unique _ _ (T / S')); [lia | exact X].
Qed.

Lemma count_mod (S' k : nat) :
  k < S' ->
  forall T,
    List.length (filter (fun i => i mod S' =? k) (seq 0 T))
    = T / S' + (if k <? T mod S' then 1 else 0).
Proof.
  intros Lt. assert (NZ : S' <> 0) by lia.
  induction T as [|T IH].
  - cbn [seq filter List.length]. rewrite Nat.Div0.div_0_l, Nat.Div0.mod_0_l.
    reflexivity.
  - rewrite seq_S, filter_app, length_app, IH. cbn [Nat.add filter].
    replace (S T) with (T + 1) by lia.
    destruct (succ_div_mod S' T NZ) as [(M & Q & R)|(M & Q & R)];
      rewrite Q, R.
    + destruct (Nat.eqb_spec (T mod S') k);
        destruct (Nat.ltb_spec k (T mod S'));
        destruct (Nat.ltb_spec k 0); cbn [List.length]; lia.
    + destruct (Nat.eqb_spec (T mod S') k);
        destruct (Nat.ltb_spec k (T mod S'));
        destruct (Nat.ltb_spec k (T mod S' + 1)); cbn [List.length]; lia.
Qed.

(** X13. The tasks are spread over the signers as evenly as possible:
    with [S] keys, the signer with index [k] gets
    [TOTAL_TRANSACTIONS / S] tasks, and one more when
    [k < TOTAL_TRANSACTIONS % S]; so the loads of two signers differ by
    at most one task. *)
Theorem signers_evenly_loaded {K : Type} (keys : list K)
        (TOTAL_TRANSACTIONS workerCount : nat) (plan : list (WorkerData K)) :
  planPool keys TOTAL_TRANSACTIONS workerCount = Some plan ->
  (forall k, k < List.length keys ->
     loadOf k plan
     = TOTAL_TRANSACTIONS / List.length keys
       + (if k <? TOTAL_TRANSACTIONS mod List.length keys then 1 else 0)) /\
  (forall j k, j < List.length keys -> k < List.length keys ->
     loadOf j plan <= loadOf k plan + 1).
Proof.
  unfold planPool. destruct (Nat.eqb_spec (List.length keys) 0) as [|NZ];
    [discriminate|].
  intros [= <-].
  assert (L : forall k, k < List.length keys ->
     loadOf k (prepareTasks keys TOTAL_TRANSACTIONS workerCount)
     = TOTAL_TRANSACTIONS / List.length keys
       + (if k <? TOTAL_TRANSACTIONS mod List.length keys then 1 else 0)).
  { intros k Lt. unfold loadOf, prepareTasks. rewrite filter_map_length.
    rewrite <- (count_mod (List.length keys) k Lt).
    f_equal. apply filter_ext. intros i. unfold workerDataAt, jsMod.
    cbn [signerIndex].
    now rewrite (proj2 (Nat.eqb_neq _ _) NZ). }
  split; [exact L|].
  intros j k Hj Hk. rewrite (L j Hj), (L k Hk).
  destruct (j <? _), (k <? _); lia.
Qed.

(** The theorem at 20 keys and 1000 tasks: 50 tasks for each signer. *)
Lemma signers_evenly_loaded_witness :
  loadOf 7 (prepareTasks (repeat tt 20) 1000 256) = 1000 / 20 + 0.
Proof.
  apply (proj1 (signers_evenly_loaded (repeat tt 20) 1000 256 _ eq_refl) 7).
  cbn. lia.
Defined.

Lemma start_pending (totalTasks : nat) (limit : Z) :
  pending (start totalTasks limit)
  = seq 0 (Nat.min totalTasks (Z.to_nat limit)).
Proof.
  unfold start, runNext.
  cbn [init results errors List.length Nat.add taskIndex].
  destruct totalTasks as [|n]; [reflexivity|]. cbn [Nat.eqb].
  destruct (launch_batch (S n) limit (S n - 0) init) as (_ & P & _).
  cbn [init taskIndex pending activeCount] in P. rewrite P. cbn [app].
  f_equal. lia.
Qed.

(** X14. In the single-process benchmark the tasks of the first batch
    use pairwise different signers whenever the concurrency limit is at
    most the number of signers in use; every task has a signer, one of
    the first [MAX_SIGNERS_TO_USE] signers. *)
Theorem first_batch_has_distinct_signers {K : Type}
        (MAX_SIGNERS_TO_USE : nat) (signers : list K)
        (TOTAL_TRANSACTIONS : nat) (limit : Z) (plan : list (option K)) :
  planConcurrent MAX_SIGNERS_TO_USE signers TOTAL_TRANSACTIONS = Some plan ->
  let S' := List.length (signersToUse MAX_SIGNERS_TO_USE signers) in
  S' = Nat.min (List.length signers) MAX_SIGNERS_TO_USE /\
  (forall i, i < TOTAL_TRANSACTIONS ->
     exists key, nth_error plan i = Some (Some key) /\
                 nth_error signers (i mod S') = Some key /\
                 i mod S' < MAX_SIGNERS_TO_USE) /\
  ((limit <= Z.of_nat S')%Z ->
   NoDup (map (fun i => i mod S')
              (pending (start TOTAL_TRANSACTIONS limit)))).
Proof.
  intros E. cbv zeta. unfold planConcurrent in E. cbv zeta in E.
  set (S' := List.length (signersToUse MAX_SIGNERS_TO_USE signers)) in *.
  assert (Ln : S' = Nat.min (List.length signers) MAX_SIGNERS_TO_USE).
  { subst S'. unfold signersToUse. rewrite length_firstn. lia. }
  destruct (Nat.ltb_spec S' 1) as [|Pos]; [discriminate|].
  injection E as <-. split; [exact Ln|]. split.
  - intros i Lt.
    assert (U : i mod S' < S') by (apply Nat.mod_upper_bound; lia).
    rewrite nth_error_map_seq by assumption.
    unfold jsMod. rewrite (proj2 (Nat.eqb_neq S' 0)) by lia. cbn [keyAt].
    unfold signersToUse. rewrite nth_error_firstn.
    rewrite (proj2 (Nat.ltb_lt _ _)) by lia.
    destruct (nth_error signers (i mod S')) as [key|] eqn:Ek.
    + exists key. repeat split. lia.
    + apply nth_error_None in Ek. lia.
  - intros Le. rewrite start_pending.
    set (m := Nat.min TOTAL_TRANSACTIONS (Z.to_nat limit)).
    assert (Hm : m <= S') by lia.
    rewrite (map_ext_in _ (fun i => i)).
    + rewrite map_id. apply seq_NoDup.
    + intros i Hi. apply in_seq in Hi. apply Nat.mod_small. lia.
Qed.

(** The theorem at three signers, five tasks and limit 3. *)
Lemma first_batch_has_distinct_signers_witness :
  NoDup (map (fun i => i mod 3) (pending (start 5 3))).
Proof.
  destruct (first_batch_has_distinct_signers 20 [101; 102; 103] 5 3 _ eq_refl)
    as (_ & _ & X).
  apply X. cbn. lia.
Defined.

(** Later batches can share a signer: with two signers, three tasks and
    limit 2, once the second task is done the first and the third are in
    flight together, and both use the first signer. *)
Example later_batches_may_share_a_signer :
  option_map (fun s => map (fun i => i mod 2) (pending s))
             (exec 3 2 (start 3 2) [Settle 1 true; Finally 1])
  = Some [0; 0].
Proof. reflexivity. Qed.

(* ===================================================================== *)
(** * 12. Properties of the contracts                                     *)
(* ===================================================================== *)

Import Contracts.

Local Open Scope N_scope.

Lemma counter_transact (st : Counter.state) (m : Msg) :
  Counter.transact st m
  = if (value m =? 0) && (Counter.count st + 1 <=? MAX_UINT256)
    then Counter.mkState
           (Counter.count st + 1)
           (Counter.logs st
              ++ [Counter.Incremented (sender m) (Counter.count st + 1)])
    else st.
Proof.
  unfold Counter.transact, Counter.increment.
  destruct (N.ltb_spec 0 (value m)); destruct (N.eqb_spec (value m) 0);
    try lia; cbn [andb]; [reflexivity|].
  now destruct (Counter.count st + 1 <=? MAX_UINT256).
Qed.

Lemma counter_run_count (ms : list Msg) :
  forall st,
    Counter.count st <= MAX_UINT256 ->
    Counter.count (Counter.run st ms)
    = N.min (Counter.count st
             + N.of_nat (List.length
                           (filter (fun m => value m =? 0) ms)))
            MAX_UINT256.
Proof.
  unfold Counter.run.
  induction ms as [|m ms IH]; intros st B; cbn [fold_left filter].
  - cbn [List.length]. change (N.of_nat 0) with 0. lia.
  - rewrite IH.
    + rewrite counter_transact.
      destruct (value m =? 0); cbn [andb List.length]; [|reflexivity].
      destruct (N.leb_spec (Counter.count st + 1) MAX_UINT256);
        cbn [Counter.count]; lia.
    + rewrite counter_transact.
      destruct (value m =? 0); cbn [andb]; [|exact B].
      destruct (N.leb_spec (Counter.count st + 1) MAX_UINT256);
        cbn [Counter.count]; lia.
Qed.

Lemma counter_run_logs (ms : list Msg) :
  forall st,
    map (fun ev => match ev with Counter.Incremented _ c => c end)
        (Counter.logs (Counter.run st ms))
    = map (fun ev => match ev with Counter.Incremented _ c => c end)
          (Counter.logs st)
      ++ map (fun j => Counter.count st + N.of_nat j)
             (seq 1 (N.to_nat (Counter.count (Counter.run st ms)
                               - Counter.count st))) /\
    Counter.count st <= Counter.count (Counter.run st ms).
Proof.
  unfold Counter.run.
  induction ms as [|m ms IH]; intros st; cbn [fold_left].
  - rewrite N.sub_diag. cbn. rewrite app_nil_r. split; [reflexivity | lia].
  - destruct (IH (Counter.transact st m)) as [L C]. rewrite L.
    rewrite counter_transact in *.
    destruct ((value m =? 0) && (Counter.count st + 1 <=? MAX_UINT256));
      [|split; [reflexivity | exact C]].
    cbn [Counter.count Counter.logs] in *. split; [|lia].
    rewrite map_app, <- app_assoc. f_equal. cbn [map app].
    set (c' := Counter.count
                 (fold_left Counter.transact ms
                    (Counter.mkState (Counter.count st + 1)
                       (Counter.logs st
                        ++ [Counter.Incremented (sender m)
                              (Counter.count st + 1)])))) in *.
    replace (N.to_nat (c' - Counter.count st))
      with (S (N.to_nat (c' - (Counter.count st + 1)))) by lia.
    cbn [seq map]. apply (f_equal (cons (Counter.count st + 1))).
    rewrite <- (seq_shift _ 1), map_map. apply map_ext. intros j. lia.
Qed.

(** X15. From its deployment on, the Counter contract counts the
    [increment] calls that carry no value, up to the largest [uint256],
    whoever sends them; calls that carry value and calls at the largest
    value revert and change nothing; and the [Incremented] events carry
    the counts 1, 2, ..., [count], in this order. *)
Theorem counter_counts_increments (ms : list Msg) :
  let st := Counter.run Counter.deploy ms in
  Counter.getCount st
  = N.min (N.of_nat (List.length (filter (fun m => value m =? 0) ms)))
          MAX_UINT256 /\
  map (fun ev => match ev with Counter.Incremented _ c => c end)
      (Counter.logs st)
  = map N.of_nat (seq 1 (N.to_nat (Counter.getCount st))).
Proof.
  intros st. subst st. unfold Counter.getCount. split.
  - rewrite counter_run_count; cbn [Counter.deploy Counter.count]; lia.
  - destruct (counter_run_logs ms Counter.deploy) as [L _]. rewrite L.
    cbn [Counter.deploy Counter.count Counter.logs map app].
    rewrite N.sub_0_r. apply map_ext. intros j. lia.
Qed.

(** X16. The verification of the counter benchmarks succeeds exactly
    when the chain applied as many increments as results were counted as
    successes: if, between the two reads of [count], [k] value-free
    [increment] calls reach the contract and the counter stays within
    [uint256], then the final count matches the expected count if and
    only if [k] is the number of results with [success = true]. *)
Theorem increments_verify
        (st : Counter.state) (ms : list Msg)
        (results : list Harness.WorkerValue) (balance : Z) :
  Forall (fun m => value m = 0) ms ->
  Counter.count st + N.of_nat (List.length ms) <= MAX_UINT256 ->
  let final := Counter.run st ms in
  let rep := fst (Harness.verifyIncrements
                    (Z.of_N (Counter.getCount st)) results
                    (Harness.mkLedger (Z.of_N (Counter.getCount final))
                                      balance)) in
  Counter.getCount final = Counter.count st + N.of_nat (List.length ms) /\
  (Harness.verified rep = true <->
   Z.of_nat (List.length ms) = Harness.successCount results).
Proof.
  intros Zero Room final rep.
  assert (Fl : filter (fun m => value m =? 0) ms = ms).
  { clear -Zero. induction Zero as [|m ms Hm _ IH]; cbn [filter];
      [reflexivity|].
    rewrite Hm. cbn. now rewrite IH. }
  assert (C : Counter.getCount final
              = Counter.count st + N.of_nat (List.length ms)).
  { subst final. unfold Counter.getCount.
    rewrite counter_run_count by lia. rewrite Fl. lia. }
  split; [exact C|].
  subst rep. unfold Harness.verifyIncrements.
  rewrite processIncrements_spec. cbn. rewrite Z.eqb_eq.
  rewrite C. unfold Counter.getCount. lia.
Qed.

(** The theorem at two increments applied and two successes reported. *)
Lemma increments_verify_witness :
  Harness.verified
    (fst (Harness.verifyIncrements 5
            [Harness.Result (mkResult true None (Some "0x15"%string) 0 0 None);
             Harness.Unexpected;
             Harness.Result (mkResult true None (Some "0x16"%string) 1 2 None)]
            (Harness.mkLedger 7 0)))
  = true.
Proof.
  destruct (increments_verify
              (Counter.mkState 5 []) [mkMsg 1 0; mkMsg 2 0]
              [Harness.Result
                 (mkResult true None (Some "0x15"%string) 0 0 None);
               Harness.Unexpected;
               Harness.Result
                 (mkResult true None (Some "0x16"%string) 1 2 None)]
              0%Z) as [_ X].
  - repeat constructor.
  - vm_compute. discriminate.
  - apply X. reflexivity.
Defined.

Lemma depositedBy_app (a : address) (evs : list AccountBalance.Event)
      (ev : AccountBalance.Event) :
  AccountBalance.depositedBy a (evs ++ [ev])
  = AccountBalance.depositedBy a evs
    + match ev with
      | AccountBalance.Deposited b v => if b =? a then v else 0
      | AccountBalance.WithdrawnByOwner _ _ => 0
      end.
Proof.
  induction evs as [|e evs IH]; cbn [app AccountBalance.depositedBy fold_right].
  - destruct ev as [b v|? ?]; [destruct (b =? a)|]; lia.
  - fold (AccountBalance.depositedBy a (evs ++ [ev])).
    fold (AccountBalance.depositedBy a evs). rewrite IH.
    destruct e as [b v|? ?]; [destruct (b =? a)|]; lia.
Qed.

(** Induction on a call and on the calls made during it. *)
Lemma Call_induction (P : AccountBalance.Call -> Prop) :
  P AccountBalance.Deposit -> P AccountBalance.Receive ->
  P AccountBalance.Forced ->
  (forall accepted during,
      Forall (fun tx => P (snd tx)) during ->
      P (AccountBalance.WithdrawAll accepted during)) ->
  forall c, P c.
Proof.
  intros HD HR HF HW. fix IH 1. intros [| |accepted during|]; try assumption.
  apply HW. revert during. fix IHl 1.
  intros [|[m c] rest]; constructor; [apply IH | apply IHl].
Qed.

(** [withdrawAll], with the calls made during the call to the owner run
    as transactions on what the contract has left. *)
Lemma step_withdraw (m : Msg) (accepted : bool)
      (during : list (Msg * AccountBalance.Call)) (st : AccountBalance.state) :
  AccountBalance.step m (AccountBalance.WithdrawAll accepted during) st
  = if 0 <? value m then None
    else if negb (sender m =? AccountBalance.owner st) then None
    else if negb (0 <? AccountBalance.held st) then None
    else if accepted
         then
           let after :=
             AccountBalance.run
               (AccountBalance.mkState (AccountBalance.balances st)
                                       (AccountBalance.owner st) 0
                                       (AccountBalance.logs st)) during in
           Some (AccountBalance.mkState
                   (AccountBalance.balances after) (AccountBalance.owner after)
                   (AccountBalance.held after)
                   (AccountBalance.logs after
                    ++ [AccountBalance.WithdrawnByOwner
                          (AccountBalance.owner after)
                          (AccountBalance.held st)]))
         else None.
Proof.
  cbn [AccountBalance.step].
  destruct (0 <? value m); [reflexivity|].
  destruct (negb (sender m =? AccountBalance.owner st)); [reflexivity|].
  destruct (negb (0 <? AccountBalance.held st)); [reflexivity|].
  destruct accepted; [|reflexivity].
  cbv zeta.
  generalize (AccountBalance.mkState (AccountBalance.balances st)
                (AccountBalance.owner st) 0 (AccountBalance.logs st)).
  intros s0.
  match goal with
  | |- context [?F during s0] =>
      assert (E : forall s, F during s = AccountBalance.run s during)
  end.
  { clear. unfold AccountBalance.run.
    induction during as [|[m' c'] rest IH]; intros s; [reflexivity|].
    cbn [fold_left]. rewrite <- IH. reflexivity. }
  now rewrite E.
Qed.

(** What no call changes, whatever happens during it: the owner stays,
    no recorded balance goes down, and the recorded balances remain the
    sums of the logged deposits. *)
Lemma step_keeps (c : AccountBalance.Call) :
  forall m st st',
    AccountBalance.step m c st = Some st' ->
    AccountBalance.owner st' = AccountBalance.owner st /\
    (forall a, AccountBalance.balances st a <= AccountBalance.balances st' a) /\
    ((forall a, AccountBalance.balances st a
                = AccountBalance.depositedBy a (AccountBalance.logs st)) ->
     forall a, AccountBalance.balances st' a
               = AccountBalance.depositedBy a (AccountBalance.logs st')).
Proof.
  assert (Cr : forall m st st',
             AccountBalance.credit (sender m) (value m) st = Some st' ->
             AccountBalance.owner st' = AccountBalance.owner st /\
             (forall a, AccountBalance.balances st a
                        <= AccountBalance.balances st' a) /\
             ((forall a, AccountBalance.balances st a
                         = AccountBalance.depositedBy a
                             (AccountBalance.logs st)) ->
              forall a, AccountBalance.balances st' a
                        = AccountBalance.depositedBy a
                            (AccountBalance.logs st'))).
  { intros m st st'. unfold AccountBalance.credit.
    destruct (_ <=? _); [|discriminate]. intros [= <-].
    cbn [AccountBalance.owner AccountBalance.balances AccountBalance.logs].
    split; [reflexivity|]. split.
    - intros a. destruct (N.eqb_spec a (sender m)) as [->|]; lia.
    - intros J a. rewrite depositedBy_app, <- !J. rewrite (N.eqb_sym a).
      destruct (N.eqb_spec (sender m) a) as [->|]; lia. }
  induction c as [| | |accepted during IH] using Call_induction;
    intros m st st'.
  - cbn [AccountBalance.step]. destruct (0 <? value m); [|discriminate].
    apply Cr.
  - cbn [AccountBalance.step]. destruct (0 <? value m); [apply Cr|].
    intros [= <-]. split; [reflexivity|]. split; [intros; lia | auto].
  - cbn [AccountBalance.step]. intros [= <-].
    cbn [AccountBalance.owner AccountBalance.balances AccountBalance.logs].
    split; [reflexivity|]. split; [intros; lia | auto].
  - rewrite step_withdraw.
    destruct (0 <? value m); [discriminate|].
    destruct (negb (sender m =? AccountBalance.owner st)); [discriminate|].
    destruct (negb (0 <? AccountBalance.held st)); [discriminate|].
    destruct accepted; [|discriminate]. cbv zeta.
    set (s0 := AccountBalance.mkState (AccountBalance.balances st)
                 (AccountBalance.owner st) 0 (AccountBalance.logs st)).
    assert (R : forall s,
               AccountBalance.owner (AccountBalance.run s during)
               = AccountBalance.owner s /\
               (forall a, AccountBalance.balances s a
                          <= AccountBalance.balances
                               (AccountBalance.run s during) a) /\
               ((forall a, AccountBalance.balances s a
                           = AccountBalance.depositedBy a
                               (AccountBalance.logs s)) ->
                forall a, AccountBalance.balances
                            (AccountBalance.run s during) a
                          = AccountBalance.depositedBy a
                              (AccountBalance.logs
                                 (AccountBalance.run s during)))).
    { clear -IH. unfold AccountBalance.run.
      induction IH as [|tx rest Htx _ IHr]; intros s; cbn [fold_left].
      - split; [reflexivity|]. split; [intros; lia | auto].
      - destruct (IHr (AccountBalance.transact s tx)) as (O & M & J).
        unfold AccountBalance.transact in *.
        destruct (AccountBalance.step (fst tx) (snd tx) s) as [s1|] eqn:E;
          [|auto].
        destruct (Htx _ _ _ E) as (O1 & M1 & J1).
        split; [congruence|]. split; [|auto].
        intros a. specialize (M a). specialize (M1 a). lia. }
    destruct (R s0) as (O & M & J). intros [= <-].
    cbn [AccountBalance.owner AccountBalance.balances AccountBalance.logs].
    split; [exact O|]. split; [exact M|].
    intros J0 a. rewrite depositedBy_app, N.add_0_r. now apply J.
Qed.

(** The ways in which a call with nothing else going on goes through. *)
Lemma step_cases (m : Msg) (c : AccountBalance.Call)
      (st st' : AccountBalance.state) :
  AccountBalance.plain c = true ->
  AccountBalance.step m c st = Some st' ->
  (0 < value m /\ (c = AccountBalance.Deposit \/ c = AccountBalance.Receive) /\
   AccountBalance.balances st (sender m) + value m <= MAX_UINT256 /\
   st' = AccountBalance.mkState
           (fun b => if b =? sender m
                     then AccountBalance.balances st (sender m) + value m
                     else AccountBalance.balances st b)
           (AccountBalance.owner st)
           (AccountBalance.held st + value m)
           (AccountBalance.logs st
            ++ [AccountBalance.Deposited (sender m) (value m)])) \/
  (value m = 0 /\ c = AccountBalance.Receive /\ st' = st) \/
  (value m = 0 /\ c = AccountBalance.WithdrawAll true [] /\
   sender m = AccountBalance.owner st /\ 0 < AccountBalance.held st /\
   st' = AccountBalance.mkState
           (AccountBalance.balances st) (AccountBalance.owner st) 0
           (AccountBalance.logs st
            ++ [AccountBalance.WithdrawnByOwner (AccountBalance.owner st)
                                                (AccountBalance.held st)])).
Proof.
  destruct c as [| |accepted [|tx during]|]; cbn [AccountBalance.plain];
    try discriminate; intros _; [| |rewrite step_withdraw];
    cbn [AccountBalance.step]; unfold AccountBalance.credit;
    destruct (N.ltb_spec 0 (value m)) as [V|V].
  - destruct (N.leb_spec (AccountBalance.balances st (sender m) + value m)
                         MAX_UINT256); [|discriminate].
    intros [= <-]. left. auto.
  - discriminate.
  - destruct (N.leb_spec (AccountBalance.balances st (sender m) + value m)
                         MAX_UINT256); [|discriminate].
    intros [= <-]. left. auto.
  - intros [= <-]. right. left. repeat split. lia.
  - discriminate.
  - destruct (N.eqb_spec (sender m) (AccountBalance.owner st)) as [O|O];
      cbn [negb]; [|discriminate].
    destruct (N.ltb_spec 0 (AccountBalance.held st)); cbn [negb];
      [|discriminate].
    destruct accepted; [|discriminate].
    cbn. intros [= <-]. right. right. repeat split; try assumption. lia.
Qed.

(** X17. The event log of the AccountBalance contract tells its state.
    After any sequence of calls since the deployment, whatever happened
    during the withdrawals and whatever Ether was forced on the
    contract, the owner is still the deployer and the recorded balance
    of every account is the sum of its [Deposited] amounts.  When no
    Ether was forced on the contract and no call reached it during a
    withdrawal, the Ether held is what the log replays to, deposits
    adding up and a withdrawal by the owner emptying the contract. *)
Theorem account_log_tells_state
        (deployer : address) (preFunded : N)
        (txs : list (Msg * AccountBalance.Call)) :
  let st := AccountBalance.run (AccountBalance.deploy deployer preFunded)
                               txs in
  AccountBalance.owner st = deployer /\
  (forall a, AccountBalance.getBalance st a
             = AccountBalance.depositedBy a (AccountBalance.logs st)) /\
  (Forall (fun tx => AccountBalance.plain (snd tx) = true) txs ->
   AccountBalance.getContractBalance st
   = AccountBalance.heldPer preFunded (AccountBalance.logs st)).
Proof.
  intros st. subst st. unfold AccountBalance.run,
    AccountBalance.getBalance, AccountBalance.getContractBalance.
  induction txs as [|tx txs IH] using rev_ind.
  - cbn. auto.
  - rewrite fold_left_app. cbn [fold_left].
    set (st := fold_left AccountBalance.transact txs
                 (AccountBalance.deploy deployer preFunded)) in *.
    destruct IH as (O & B & H). unfold AccountBalance.transact.
    destruct (AccountBalance.step (fst tx) (snd tx) st) as [st'|] eqn:E.
    2:{ split; [exact O|]. split; [exact B|]. intros F.
        apply H. apply Forall_app in F. tauto. }
    destruct (step_keeps _ _ _ _ E) as (O' & _ & J).
    split; [congruence|]. split; [now apply J|].
    intros F. apply Forall_app in F. destruct F as [Ft Fx].
    specialize (H Ft). apply Forall_inv in Fx.
    apply (step_cases _ _ _ _ Fx) in E.
    destruct E as [(V & _ & _ & ->)|[(V & _ & ->)|(V & _ & S & Hd & ->)]];
      cbn [AccountBalance.held AccountBalance.logs]; [| exact H |].
    + unfold AccountBalance.heldPer in *. rewrite fold_left_app.
      cbn [fold_left]. now rewrite <- H.
    + unfold AccountBalance.heldPer. rewrite fold_left_app. reflexivity.
Qed.

(** The theorem at two deposits followed by a withdrawal. *)
Lemma account_log_tells_state_witness :
  AccountBalance.getContractBalance
    (AccountBalance.run (AccountBalance.deploy 100 5)
       [(mkMsg 1 10, AccountBalance.Deposit);
        (mkMsg 2 4, AccountBalance.Receive);
        (mkMsg 100 0, AccountBalance.WithdrawAll true []);
        (mkMsg 2 1, AccountBalance.Deposit)])
  = 1.
Proof.
  apply (proj2 (proj2 (account_log_tells_state 100 5
           [(mkMsg 1 10, AccountBalance.Deposit);
            (mkMsg 2 4, AccountBalance.Receive);
            (mkMsg 100 0, AccountBalance.WithdrawAll true []);
            (mkMsg 2 1, AccountBalance.Deposit)]))).
  repeat constructor.
Defined.

(** An owner that is a contract and deposits 3 wei while it is being
    paid, and 2 wei forced on the contract: the recorded balances still
    follow the log, the Ether held does not. *)
Example owner_that_calls_back :
  let st :=
    AccountBalance.run (AccountBalance.deploy 100 0)
      [(mkMsg 1 10, AccountBalance.Deposit);
       (mkMsg 100 0,
        AccountBalance.WithdrawAll true [(mkMsg 100 3, AccountBalance.Deposit)]);
       (mkMsg 7 2, AccountBalance.Forced)] in
  AccountBalance.logs st
  = [AccountBalance.Deposited 1 10; AccountBalance.Deposited 100 3;
     AccountBalance.WithdrawnByOwner 100 10] /\
  AccountBalance.getBalance st 1 = 10 /\
  AccountBalance.getBalance st 100 = 3 /\
  AccountBalance.getContractBalance st = 5 /\
  AccountBalance.heldPer 0 (AccountBalance.logs st) = 0.
Proof. vm_compute. repeat split. Qed.

(** X18. No call lowers a recorded balance or changes the owner,
    whatever happens during it, and the only call that lowers the Ether
    held is a [withdrawAll] sent by the owner, without value, that the
    owner accepts.  When nothing reaches the contract during the call to
    the owner, the withdrawal takes everything and leaves every recorded
    balance as it was.  Depositors cannot take their deposits back. *)
Theorem only_owner_takes_ether
        (m : Msg) (c : AccountBalance.Call)
        (st st' : AccountBalance.state) :
  AccountBalance.step m c st = Some st' ->
  AccountBalance.owner st' = AccountBalance.owner st /\
  (forall a, AccountBalance.balances st a <= AccountBalance.balances st' a) /\
  (AccountBalance.held st' < AccountBalance.held st ->
   exists during,
     c = AccountBalance.WithdrawAll true during /\
     sender m = AccountBalance.owner st /\ value m = 0) /\
  (c = AccountBalance.WithdrawAll true [] ->
   AccountBalance.held st' = 0 /\
   forall a, AccountBalance.balances st' a = AccountBalance.balances st a).
Proof.
  intros E. destruct (step_keeps _ _ _ _ E) as (O & M & _).
  split; [exact O|]. split; [exact M|]. split.
  - intros Lt. destruct c as [| |accepted during|].
    + exfalso. revert E. cbn [AccountBalance.step].
      unfold AccountBalance.credit.
      destruct (0 <? value m); [|discriminate].
      destruct (_ <=? _); [|discriminate]. intros [= <-].
      cbn [AccountBalance.held] in Lt. lia.
    + exfalso. revert E. cbn [AccountBalance.step].
      unfold AccountBalance.credit.
      destruct (0 <? value m); [|intros [= <-]; lia].
      destruct (_ <=? _); [|discriminate]. intros [= <-].
      cbn [AccountBalance.held] in Lt. lia.
    + rewrite step_withdraw in E.
      destruct (N.ltb_spec 0 (value m)) as [V|V]; [discriminate|].
      destruct (N.eqb_spec (sender m) (AccountBalance.owner st)) as [S|S];
        cbn [negb] in E; [|discriminate].
      destruct (negb (0 <? AccountBalance.held st)); [discriminate|].
      destruct accepted; [|discriminate].
      exists during. repeat split; [exact S | lia].
    + exfalso. revert E. cbn [AccountBalance.step]. intros [= <-].
      cbn [AccountBalance.held] in Lt. lia.
  - intros ->. rewrite step_withdraw in E.
    destruct (0 <? value m); [discriminate|].
    destruct (negb (sender m =? AccountBalance.owner st)); [discriminate|].
    destruct (negb (0 <? AccountBalance.held st)); [discriminate|].
    cbn in E. injection E as <-. cbn. auto.
Qed.

(** The theorem at a withdrawal of 7 wei by the owner 1 while account 2
    has a recorded balance of 7. *)
Lemma only_owner_takes_ether_witness :
  let st := AccountBalance.mkState (fun a => if a =? 2 then 7 else 0) 1 7 [] in
  let st' := AccountBalance.mkState
               (fun a => if a =? 2 then 7 else 0) 1 0
               [AccountBalance.WithdrawnByOwner 1 7] in
  AccountBalance.balances st' 2 = AccountBalance.balances st 2.
Proof.
  intros st st'.
  destruct (only_owner_takes_ether (mkMsg 1 0)
              (AccountBalance.WithdrawAll true []) st st' eq_refl)
    as (_ & _ & _ & X).
  destruct (X eq_refl) as [_ B]. apply B.
Defined.

Lemma run_deposits (wei : N) (senders : list address) :
  0 < wei ->
  forall st,
    Forall (fun a => AccountBalance.balances st a
                     + wei * N.of_nat (List.length senders) <= MAX_UINT256)
           senders ->
    AccountBalance.held
      (AccountBalance.run st
         (map (fun a => (mkMsg a wei, AccountBalance.Deposit)) senders))
    = AccountBalance.held st + wei * N.of_nat (List.length senders).
Proof.
  intros Pos. unfold AccountBalance.run.
  induction senders as [|a senders IH]; intros st Room;
    cbn [map fold_left List.length].
  - change (N.of_nat 0) with 0. lia.
  - cbn [List.length] in Room. rewrite Nat2N.inj_succ, N.mul_succ_r in *.
    pose proof (Forall_inv Room) as Ra. cbn beta in Ra.
    apply Forall_inv_tail in Room.
    unfold AccountBalance.transact at 2.
    cbn [fst snd AccountBalance.step sender value].
    rewrite (proj2 (N.ltb_lt _ _) Pos). unfold AccountBalance.credit.
    rewrite (proj2 (N.leb_le _ _)) by lia.
    rewrite IH; cbn [AccountBalance.held AccountBalance.balances]; [lia|].
    eapply Forall_impl; [|exact Room]. cbn beta. intros b Hb.
    destruct (b =? a); lia.
Qed.

(** X19. The verification of the deposit benchmark succeeds exactly when
    the chain applied as many deposits as results were counted as
    successes: if, between the two reads of the contract's balance, [k]
    deposits of [depositAmountWei > 0] reach the contract and no recorded
    balance overflows, the holdings grow by [k * depositAmountWei], and
    for results that come from deposit workers [main] reaches its
    comparison, which succeeds if and only if [k] is the number of
    results with [success = true]. *)
Theorem deposits_verify
        (st : AccountBalance.state) (wei : N) (senders : list address)
        (results : list Harness.WorkerValue) (count : Z) :
  0 < wei ->
  Forall (fun a => AccountBalance.balances st a
                   + wei * N.of_nat (List.length senders) <= MAX_UINT256)
         senders ->
  Forall (Harness.depositOutcome (Z.of_N wei)) results ->
  let final :=
    AccountBalance.run st
      (map (fun a => (mkMsg a wei, AccountBalance.Deposit)) senders) in
  let chain :=
    Harness.mkLedger count (Z.of_N (AccountBalance.getContractBalance final)) in
  AccountBalance.getContractBalance final
  = AccountBalance.getContractBalance st
    + wei * N.of_nat (List.length senders) /\
  exists rep,
    Harness.verifyDeposits
      (Z.of_N (AccountBalance.getContractBalance st)) results chain
    = Some (rep, chain) /\
    (Harness.verified rep = true <->
     Z.of_nat (List.length senders) = Harness.successCount results).
Proof.
  intros Pos Room From final chain.
  assert (H : AccountBalance.getContractBalance final
              = AccountBalance.getContractBalance st
                + wei * N.of_nat (List.length senders))
    by (apply run_deposits; assumption).
  split; [exact H|].
  unfold Harness.verifyDeposits, Harness.processDeposits.
  rewrite (fold_deposits_of_workers _ _ From).
  eexists. split; [reflexivity|].
  cbn [Harness.verified Harness.totalAmountWei Harness.totalSuccessful
       Harness.emptyTally].
  rewrite Z.eqb_eq. subst chain. cbn [Harness.contractBalance].
  rewrite H. unfold AccountBalance.getContractBalance.
  rewrite N2Z.inj_add, N2Z.inj_mul, nat_N_Z.
  assert (Pz : (0 < Z.of_N wei)%Z) by lia.
  split; intros E; [nia | rewrite E; lia].
Qed.

(** The theorem at one deposit of 10 wei applied and one success
    reported. *)
Lemma deposits_verify_witness :
  exists rep,
    Harness.verifyDeposits 100
      [Harness.Result (mkResult true None (Some "0x17"%string) 0 0
                                (Some "10"%string))]
      (Harness.mkLedger 0 110)
    = Some (rep, Harness.mkLedger 0 110) /\
    Harness.verified rep = true.
Proof.
  destruct (deposits_verify
              (AccountBalance.mkState (fun _ => 0) 1 100 []) 10 [2]
              [Harness.Result (mkResult true None (Some "0x17"%string) 0 0
                                        (Some "10"%string))]
              0%Z) as (_ & rep & E & V).
  - reflexivity.
  - repeat constructor. vm_compute. discriminate.
  - repeat constructor.
    exists 0%Z, 0%Z, (fun _ : nat => Confirms (mkReceipt 1 "0x17")),
      (fun _ : string => Some "[]"%string), "AccountBalance"%string.
    eexists. split; reflexivity.
  - exists rep. split; [exact E|]. apply V. reflexivity.
Defined.

(* ===================================================================== *)
(** * 13. The two demonstration scripts                                   *)
(* ===================================================================== *)

Local Close Scope N_scope.
Local Open Scope Z_scope.

(** X20. When concurrentIncrement.js reaches its verification, it
    expects the initial count plus the number of signers it used, the
    first five at most: it counts receipts and never looks at their
    status.  It reaches the verification only if every send and every
    wait fulfilled. *)
Theorem script_counts_receipts {K : Type} (signers : list K)
        (send : K -> Completion string)
        (wait : string -> Completion Receipt)
        (initialCount : Z) (l : Harness.Ledger)
        (out : ConcurrentIncrement.Outcome) :
  ConcurrentIncrement.main signers send wait initialCount l = Returned out ->
  ConcurrentIncrement.expectedCount out
  = initialCount + Z.of_nat (Nat.min 5 (List.length signers)) /\
  ConcurrentIncrement.finalCount out = Harness.counterCount l /\
  (ConcurrentIncrement.matches out = true <->
   Harness.counterCount l
   = initialCount + Z.of_nat (Nat.min 5 (List.length signers))) /\
  (forall k, In k (firstn 5 signers) ->
     exists h rc, send k = Returned h /\ wait h = Returned rc).
Proof.
  unfold ConcurrentIncrement.main, ConcurrentIncrement.numberOfConcurrentTx.
  destruct (Harness.promiseAll (map send (firstn 5 signers)))
    as [responses|e] eqn:P1; [|discriminate].
  destruct (Harness.promiseAll (map wait responses))
    as [receipts|e] eqn:P2; [|discriminate].
  cbn. intros [= <-]. cbn.
  pose proof (promiseAll_length _ _ P1) as L1.
  pose proof (promiseAll_length _ _ P2) as L2.
  rewrite length_map in L1, L2. rewrite length_firstn in L1.
  assert (Ln : List.length receipts = Nat.min 5 (List.length signers))
    by lia.
  rewrite Ln, Z.eqb_eq. repeat split; try tauto.
  intros k Hk.
  assert (A : forall {A B : Type} (f : A -> Completion B) xs ys,
             Harness.promiseAll (map f xs) = Returned ys ->
             forall x, In x xs -> exists y, f x = Returned y /\ In y ys).
  { clear. intros A B f. induction xs as [|x xs IH]; intros ys E x0 [];
      cbn [map Harness.promiseAll] in E.
    - subst x0. destruct (f x) as [y|]; [|discriminate].
      destruct (Harness.promiseAll (map f xs)); [|discriminate].
      injection E as <-. exists y. split; [reflexivity | now left].
    - destruct (f x) as [y|]; [|discriminate].
      destruct (Harness.promiseAll (map f xs)) as [ys'|] eqn:E';
        [|discriminate].
      injection E as <-. destruct (IH _ eq_refl x0 H) as (y0 & F & I).
      exists y0. split; [exact F | now right]. }
  destruct (A _ _ send _ _ P1 k Hk) as (h & Sh & Ih).
  destruct (A _ _ wait _ _ P2 h Ih) as (rc & Wh & _).
  eauto.
Qed.

(** The theorem at two signers whose transactions are mined, the second
    one with status 0. *)
Lemma script_counts_receipts_witness :
  ConcurrentIncrement.expectedCount (ConcurrentIncrement.mkOutcome 9 8 false)
  = 7 + Z.of_nat (Nat.min 5 2).
Proof.
  exact (proj1 (script_counts_receipts [1%nat; 2%nat]
                  (fun k => Returned (if (k =? 1)%nat then "0xa" else "0xb")%string)
                  (fun h => Returned (mkReceipt
                                        (if String.eqb h "0xa" then 1 else 0) h))
                  7 (Harness.mkLedger 8 0)
                  (ConcurrentIncrement.mkOutcome 9 8 false) eq_refl)).
Defined.

Local Close Scope Z_scope.
Local Open Scope N_scope.

(** interactAccountBalance.js, run on the contract: user 1 deposits 1 and
    then 0.25 Ether, user 2 deposits 0.5, user 3 sends 0.1 directly, and
    the deployer withdraws.  The recorded balances stay, the contract is
    empty, and the log holds the four deposits and the withdrawal of
    1.85 Ether. *)
Example interact_script :
  let ether := 10 ^ 18 in
  let st :=
    AccountBalance.run (AccountBalance.deploy 100 0)
      [(mkMsg 1 ether, AccountBalance.Deposit);
       (mkMsg 2 (ether / 2), AccountBalance.Deposit);
       (mkMsg 1 (ether / 4), AccountBalance.Deposit);
       (mkMsg 3 (ether / 10), AccountBalance.Receive);
       (mkMsg 100 0, AccountBalance.WithdrawAll true [])] in
  AccountBalance.getBalance st 1 = ether + ether / 4 /\
  AccountBalance.getBalance st 2 = ether / 2 /\
  AccountBalance.getMyBalance st (mkMsg 3 0) = ether / 10 /\
  AccountBalance.getBalance st 100 = 0 /\
  AccountBalance.getContractBalance st = 0 /\
  last (AccountBalance.logs st) (AccountBalance.Deposited 0 0)
  = AccountBalance.WithdrawnByOwner 100 1850000000000000000.
Proof. vm_compute. repeat split. Qed.
